(** * Monocle firmware core: BLE console transport and battery estimator

    A shallow embedding of [drivers/monocle_ble.c] (ring buffers, transmit
    flush, SoftDevice event handler) and of [port/driver/battery.c]
    (travelling mean, discharge-curve interpolation), with the properties
    the specification states about them.

    Conventions.
    - [uint16_t] and [size_t] values are integers in [Z]; every place
      where C wraps around is written out with [uint16] or [size_t].
    - A C array is a list; an access outside the array is undefined
      behaviour in C and is the fault [Out_of_bounds] here.
    - [NRFX_ASSERT] halts the firmware: the fault [Assertion_failed].
    - Converting a floating value to an integer type that cannot hold it
      is undefined as well: the fault [Unrepresentable].
    - The file-scope variables of [monocle_ble.c] and the SoftDevice the
      driver talks to form the record [world], threaded by the monad [M].
    - [float] is IEEE-754 binary32, computed with the parametric
      operations of [SpecFloat] at precision 24: every operation rounds
      to nearest even on its own, as the single-precision unit of the
      Cortex-M4 does when the compiler does not fuse operations. The
      estimator is written once over the interface [FloatOps], so that
      the same formulas can also be read in exact rational arithmetic. *)

From stdpp Require Import base list.
From Stdlib Require Import ZArith QArith Qround Qpower Lia Lqa Bool.
From Stdlib Require Import Floats.SpecFloat.
From Stdlib Require Strings.Byte.

Local Open Scope Z_scope.

(** ** Faults and results *)

Inductive fault : Type :=
  | Out_of_bounds
  | Assertion_failed
  | Unrepresentable.

Inductive result (A : Type) : Type :=
  | Ok (a : A)
  | Fault (f : fault).

Arguments Ok {A} a.
Arguments Fault {A} f.

#[export] Instance result_ret : MRet result := fun A (a : A) => Ok a.

#[export] Instance result_bind : MBind result :=
  fun A B (k : A -> result B) (r : result A) =>
    match r with
    | Ok a => k a
    | Fault f => Fault f
    end.

(** [a[i]] as an rvalue. *)
Definition array_get {A : Type} (a : list A) (i : Z) : result A :=
  if 0 <=? i then
    match a !! Z.to_nat i with
    | Some x => Ok x
    | None => Fault Out_of_bounds
    end
  else Fault Out_of_bounds.

(** [a[i] = x] *)
Definition array_set {A : Type} (a : list A) (i : Z) (x : A)
  : result (list A) :=
  if (0 <=? i) && (i <? Z.of_nat (length a))
  then Ok (<[Z.to_nat i := x]> a)
  else Fault Out_of_bounds.

(** ** Fixed-width integers *)

Definition uint16 (z : Z) : Z := z mod 65536.

(** [size_t] is 32 bits wide on the nRF52. *)
Definition size_t (z : Z) : Z := z mod 4294967296.

(** ** Ring buffer ([ring_buf_t], [ring_full], [ring_empty], [ring_push],
       [ring_pop]) *)

Module Ring.

(** [#define RING_BUFFER_LENGTH (1024 + 45)] *)
Definition RING_BUFFER_LENGTH : Z := 1024 + 45.

Record ring_buf_t : Type := mk_ring {
  buffer : list Byte.byte;
  head : Z;
  tail : Z
}.

(** A [ring_buf_t] at file scope is zero-initialised. *)
Definition ring_zero : ring_buf_t :=
  {| buffer := replicate (Z.to_nat RING_BUFFER_LENGTH) Byte.x00;
     head := 0;
     tail := 0 |}.

Definition ring_full (ring : ring_buf_t) : bool :=
  let next := uint16 (tail ring + 1) in
  let next := if next =? RING_BUFFER_LENGTH then 0 else next in
  next =? head ring.

Definition ring_empty (ring : ring_buf_t) : bool :=
  head ring =? tail ring.

(** [ring->buffer[ring->tail++] = byte], then the wrap-around. *)
Definition ring_push (ring : ring_buf_t) (byte : Byte.byte)
  : result ring_buf_t :=
  buffer' ← array_set (buffer ring) (tail ring) byte;
  let tail' := uint16 (tail ring + 1) in
  let tail' := if tail' =? RING_BUFFER_LENGTH then 0 else tail' in
  Ok {| buffer := buffer'; head := head ring; tail := tail' |}.

(** [byte = ring->buffer[ring->head++]], then the wrap-around. *)
Definition ring_pop (ring : ring_buf_t) : result (Byte.byte * ring_buf_t) :=
  byte ← array_get (buffer ring) (head ring);
  let head' := uint16 (head ring + 1) in
  let head' := if head' =? RING_BUFFER_LENGTH then 0 else head' in
  Ok (byte, {| buffer := buffer ring; head := head'; tail := tail ring |}).

(** *** Specification-level view of a ring *)

(** The index after [i], as [ring_push], [ring_pop] and [ring_full]
    compute it. *)
Definition advance (i : Z) : Z :=
  let i' := uint16 (i + 1) in
  if i' =? RING_BUFFER_LENGTH then 0 else i'.

(** Both indices designate a cell of the storage array. *)
Definition ring_inv (ring : ring_buf_t) : Prop :=
  length (buffer ring) = Z.to_nat RING_BUFFER_LENGTH
  /\ 0 <= head ring < RING_BUFFER_LENGTH
  /\ 0 <= tail ring < RING_BUFFER_LENGTH.

(** The bytes held, oldest first: the cells from [head] up to [tail],
    going round the end of the array when [tail] is behind [head]. *)
Definition contents (ring : ring_buf_t) : list Byte.byte :=
  let h := Z.to_nat (head ring) in
  let t := Z.to_nat (tail ring) in
  if tail ring <? head ring
  then drop h (buffer ring) ++ take t (buffer ring)
  else take (t - h)%nat (drop h (buffer ring)).

(** Pushing the bytes of a list, one [ring_push] each. *)
Fixpoint push_all (ring : ring_buf_t) (l : list Byte.byte)
  : result ring_buf_t :=
  match l with
  | [] => Ok ring
  | b :: l' =>
      match ring_push ring b with
      | Ok ring' => push_all ring' l'
      | Fault f => Fault f
      end
  end.

(** [n] successive [ring_pop], collecting the bytes returned. *)
Fixpoint pop_n (ring : ring_buf_t) (n : nat)
  : result (list Byte.byte * ring_buf_t) :=
  match n with
  | O => Ok ([], ring)
  | S n' =>
      match ring_pop ring with
      | Ok (b, ring') =>
          match pop_n ring' n' with
          | Ok (l, ring'') => Ok (b :: l, ring'')
          | Fault f => Fault f
          end
      | Fault f => Fault f
      end
  end.

(** The zero-initialised ring after the bytes of [l] were pushed. *)
Definition ring_of (l : list Byte.byte) : ring_buf_t :=
  match push_all ring_zero l with
  | Ok ring => ring
  | Fault _ => ring_zero
  end.

(** The four operations, as a client may issue them in any order. *)
Inductive ring_op : Type :=
  | Op_full
  | Op_empty
  | Op_push (byte : Byte.byte)
  | Op_pop.

Definition run_op (ring : ring_buf_t) (op : ring_op) : result ring_buf_t :=
  match op with
  | Op_full => let _ := ring_full ring in Ok ring
  | Op_empty => let _ := ring_empty ring in Ok ring
  | Op_push byte => ring_push ring byte
  | Op_pop =>
      match ring_pop ring with
      | Ok (_, ring') => Ok ring'
      | Fault f => Fault f
      end
  end.

Fixpoint run_ops (ring : ring_buf_t) (ops : list ring_op)
  : result ring_buf_t :=
  match ops with
  | [] => Ok ring
  | op :: ops' =>
      match run_op ring op with
      | Ok ring' => run_ops ring' ops'
      | Fault f => Fault f
      end
  end.

End Ring.

(** ** BLE driver state, SoftDevice interface and the monad threading them *)

Module Ble.
Import Ring.

(** [#define MAX_MTU_LENGTH 128] *)
Definition MAX_MTU_LENGTH : Z := 128.

(** Error codes and sentinels of the SoftDevice headers ([nrf_error.h],
    [ble_err.h], [ble_types.h], [ble_gap.h]). *)
Definition NRF_SUCCESS : Z := 0.
Definition NRF_ERROR_INVALID_STATE : Z := 8.
Definition NRF_ERROR_RESOURCES : Z := 19.
Definition BLE_ERROR_INVALID_CONN_HANDLE : Z := 0x3002.
Definition BLE_CONN_HANDLE_INVALID : Z := 0xFFFF.
Definition BLE_GAP_ADV_SET_HANDLE_NOT_SET : Z := 0xFF.

(** The SoftDevice services the driver calls after initialisation, with
    the arguments the driver chooses. *)
Inductive sd_call : Type :=
  | Sd_ble_gatts_hvx (conn_handle value_handle : Z) (data : list Byte.byte)
  | Sd_ble_gap_ppcp_get
  | Sd_ble_gap_conn_param_update (conn_handle : Z)
  | Sd_ble_gap_adv_start (adv_handle : Z)
  | Sd_ble_gap_phy_update (conn_handle : Z)
  | Sd_ble_gatts_exchange_mtu_reply (conn_handle server_rx_mtu : Z)
  | Sd_ble_gap_disconnect (conn_handle : Z)
  | Sd_ble_gatts_sys_attr_set (conn_handle : Z)
  | Sd_ble_gap_sec_params_reply (conn_handle : Z).

(** The file-scope variables [rx], [tx], [ble_handles], [negotiated_mtu],
    and the SoftDevice: the calls made so far, and the error codes it
    returns to the next calls, in order; once that list is used up every
    call returns [NRF_SUCCESS]. *)
Record world : Type := mk_world {
  rx : ring_buf_t;
  tx : ring_buf_t;
  connection : Z;
  advertising : Z;
  rx_value_handle : Z;
  tx_value_handle : Z;
  negotiated_mtu : Z;
  sd_calls : list sd_call;
  sd_replies : list Z
}.

(** The variables as the C initialisers leave them. *)
Definition world_init (replies : list Z) : world :=
  {| rx := ring_zero;
     tx := ring_zero;
     connection := BLE_CONN_HANDLE_INVALID;
     advertising := BLE_GAP_ADV_SET_HANDLE_NOT_SET;
     rx_value_handle := 0;
     tx_value_handle := 0;
     negotiated_mtu := 0;
     sd_calls := [];
     sd_replies := replies |}.

Definition set_rx (r : ring_buf_t) (w : world) : world :=
  mk_world r (tx w) (connection w) (advertising w) (rx_value_handle w)
           (tx_value_handle w) (negotiated_mtu w) (sd_calls w) (sd_replies w).

Definition set_tx (r : ring_buf_t) (w : world) : world :=
  mk_world (rx w) r (connection w) (advertising w) (rx_value_handle w)
           (tx_value_handle w) (negotiated_mtu w) (sd_calls w) (sd_replies w).

Definition set_connection (c : Z) (w : world) : world :=
  mk_world (rx w) (tx w) c (advertising w) (rx_value_handle w)
           (tx_value_handle w) (negotiated_mtu w) (sd_calls w) (sd_replies w).

Definition set_negotiated_mtu (m : Z) (w : world) : world :=
  mk_world (rx w) (tx w) (connection w) (advertising w) (rx_value_handle w)
           (tx_value_handle w) m (sd_calls w) (sd_replies w).

Definition set_softdevice (calls : list sd_call) (replies : list Z)
    (w : world) : world :=
  mk_world (rx w) (tx w) (connection w) (advertising w) (rx_value_handle w)
           (tx_value_handle w) (negotiated_mtu w) calls replies.

(** *** State and fault monad *)

Definition M (A : Type) : Type := world -> result (A * world).

Definition throw {A : Type} (f : fault) : M A := fun _ => Fault f.

Definition gets {A : Type} (proj : world -> A) : M A := fun w => Ok (proj w, w).

Definition modify (upd : world -> world) : M unit := fun w => Ok (tt, upd w).

#[export] Instance M_ret : MRet M := fun A (a : A) w => Ok (a, w).

#[export] Instance M_bind : MBind M :=
  fun A B (k : A -> M B) (m : M A) w =>
    match m w with
    | Ok (a, w') => k a w'
    | Fault f => Fault f
    end.

(** [NRFX_ASSERT(cond)] *)
Definition NRFX_ASSERT (cond : bool) : M unit :=
  if cond then mret tt else throw Assertion_failed.

(** One SoftDevice call: logged, answered by the next pending error
    code. *)
Definition sd (c : sd_call) : M Z :=
  fun w =>
    match sd_replies w with
    | [] => Ok (NRF_SUCCESS, set_softdevice (sd_calls w ++ [c]) [] w)
    | err :: rest => Ok (err, set_softdevice (sd_calls w ++ [c]) rest w)
    end.

(** [ring_pop(&tx)], [ring_push(&rx, byte)] on the file-scope rings. *)
Definition tx_pop : M Byte.byte :=
  fun w =>
    match ring_pop (tx w) with
    | Ok (byte, ring') => Ok (byte, set_tx ring' w)
    | Fault f => Fault f
    end.

Definition rx_push (byte : Byte.byte) : M unit :=
  fun w =>
    match ring_push (rx w) byte with
    | Ok ring' => Ok (tt, set_rx ring' w)
    | Fault f => Fault f
    end.

(** *** [ble_flush_tx] *)

(** The [while (!ring_empty(&tx))] loop, entered with the ring not empty.
    [out_buffer] holds the [out_len] bytes written so far and [space] is
    what is left of the [MAX_MTU_LENGTH] cells of the array: writing
    [out_buffer[out_len++]] with no cell left is out of bounds. *)
Fixpoint flush_fill (space : nat) (out_buffer : list Byte.byte)
  : M (list Byte.byte) :=
  match space with
  | O => throw Out_of_bounds
  | S space' =>
      byte ← tx_pop;
      let out_buffer' := out_buffer ++ [byte] in
      mtu ← gets negotiated_mtu;
      if Z.of_nat (length out_buffer') >=? mtu then mret out_buffer'
      else
        tx_empty ← gets (fun w => ring_empty (tx w));
        if (tx_empty : bool) then mret out_buffer'
        else flush_fill space' out_buffer'
  end.

(** [do { err = sd_ble_gatts_hvx(...); } while (err == NRF_ERROR_RESOURCES);]
    over the replies the SoftDevice has pending. *)
Fixpoint hvx_retry (c : sd_call) (calls : list sd_call) (replies : list Z)
  : Z * list sd_call * list Z :=
  match replies with
  | [] => (NRF_SUCCESS, calls ++ [c], [])
  | err :: rest =>
      if err =? NRF_ERROR_RESOURCES
      then hvx_retry c (calls ++ [c]) rest
      else (err, calls ++ [c], rest)
  end.

Definition hvx_send (out_buffer : list Byte.byte) : M Z :=
  fun w =>
    let c := Sd_ble_gatts_hvx (connection w) (tx_value_handle w) out_buffer in
    let '(err, calls, replies) := hvx_retry c (sd_calls w) (sd_replies w) in
    Ok (err, set_softdevice calls replies w).

Definition ble_flush_tx : M unit :=
  tx_empty ← gets (fun w => ring_empty (tx w));
  if (tx_empty : bool) then mret tt
  else
    out_buffer ← flush_fill (Z.to_nat MAX_MTU_LENGTH) [];
    err ← hvx_send out_buffer;
    if (err =? NRF_ERROR_INVALID_STATE)
       || (err =? BLE_ERROR_INVALID_CONN_HANDLE)
    then mret tt
    else NRFX_ASSERT (err =? 0).

(** [n] calls of [ble_flush_tx] in a row. *)
Fixpoint flush_times (n : nat) : M unit :=
  match n with
  | O => mret tt
  | S n' => ble_flush_tx;; flush_times n'
  end.

(** *** [SWI2_IRQHandler] *)

(** The events [sd_ble_evt_get] delivers, with the fields the handler
    reads. [client_rx_mtu] and the length of [data] are [uint16_t]. *)
Inductive ble_evt_t : Type :=
  | BLE_GAP_EVT_CONNECTED (conn_handle : Z)
  | BLE_GAP_EVT_DISCONNECTED (conn_handle : Z)
  | BLE_GAP_EVT_PHY_UPDATE_REQUEST (conn_handle : Z)
  | BLE_GATTS_EVT_EXCHANGE_MTU_REQUEST (conn_handle client_rx_mtu : Z)
  | BLE_GATTS_EVT_WRITE (conn_handle : Z) (data : list Byte.byte)
  | BLE_GATTC_EVT_TIMEOUT (conn_handle : Z)
  | BLE_GATTS_EVT_TIMEOUT (conn_handle : Z)
  | BLE_GATTS_EVT_SYS_ATTR_MISSING (conn_handle : Z)
  | BLE_GAP_EVT_SEC_PARAMS_REQUEST (conn_handle : Z)
  | BLE_EVT_UNUSED (evt_id : Z).

(** The [for] loop of the [BLE_GATTS_EVT_WRITE] case. *)
Fixpoint write_loop (data : list Byte.byte) : M unit :=
  match data with
  | [] => mret tt
  | byte :: data' =>
      rx_full ← gets (fun w => ring_full (rx w));
      if (rx_full : bool) then mret tt
      else rx_push byte;; write_loop data'
  end.

(** The body of the [switch (ble_evt->header.evt_id)]. *)
Definition handle_ble_evt (ble_evt : ble_evt_t) : M unit :=
  match ble_evt with
  | BLE_GAP_EVT_CONNECTED conn_handle =>
      modify (set_connection conn_handle);;
      err ← sd Sd_ble_gap_ppcp_get;
      NRFX_ASSERT (err =? 0);;
      err ← sd (Sd_ble_gap_conn_param_update conn_handle);
      NRFX_ASSERT (err =? 0)
  | BLE_GAP_EVT_DISCONNECTED _ =>
      modify (set_connection BLE_CONN_HANDLE_INVALID);;
      adv ← gets advertising;
      err ← sd (Sd_ble_gap_adv_start adv);
      NRFX_ASSERT (err =? 0)
  | BLE_GAP_EVT_PHY_UPDATE_REQUEST conn_handle =>
      err ← sd (Sd_ble_gap_phy_update conn_handle);
      NRFX_ASSERT (err =? 0)
  | BLE_GATTS_EVT_EXCHANGE_MTU_REQUEST conn_handle client_rx_mtu =>
      let client_mtu := client_rx_mtu in
      err ← sd (Sd_ble_gatts_exchange_mtu_reply conn_handle MAX_MTU_LENGTH);
      NRFX_ASSERT (err =? 0);;
      modify (set_negotiated_mtu
                (uint16 (if MAX_MTU_LENGTH <? client_mtu
                         then MAX_MTU_LENGTH - 3
                         else client_mtu - 3)))
  | BLE_GATTS_EVT_WRITE _ data => write_loop data
  | BLE_GATTC_EVT_TIMEOUT conn_handle =>
      NRFX_ASSERT false;;
      err ← sd (Sd_ble_gap_disconnect conn_handle);
      NRFX_ASSERT (err =? 0)
  | BLE_GATTS_EVT_TIMEOUT conn_handle =>
      err ← sd (Sd_ble_gap_disconnect conn_handle);
      NRFX_ASSERT (err =? 0)
  | BLE_GATTS_EVT_SYS_ATTR_MISSING conn_handle =>
      err ← sd (Sd_ble_gatts_sys_attr_set conn_handle);
      NRFX_ASSERT (err =? 0)
  | BLE_GAP_EVT_SEC_PARAMS_REQUEST conn_handle =>
      err ← sd (Sd_ble_gap_sec_params_reply conn_handle);
      NRFX_ASSERT (err =? 0)
  | BLE_EVT_UNUSED _ => mret tt
  end.

(** The [while (1)] loop over the events [sd_ble_evt_get] has pending,
    each fetched with success. The loop before it, over the SoC events
    of [sd_evt_get], has only empty cases. *)
Fixpoint SWI2_IRQHandler (pending : list ble_evt_t) : M unit :=
  match pending with
  | [] => mret tt
  | ble_evt :: pending' =>
      handle_ble_evt ble_evt;; SWI2_IRQHandler pending'
  end.

(** *** Observations used by the statements *)

Definition is_mtu_request (e : ble_evt_t) : bool :=
  match e with
  | BLE_GATTS_EVT_EXCHANGE_MTU_REQUEST _ _ => true
  | _ => false
  end.

(** A computation that leaves [negotiated_mtu] as it found it. *)
Definition keeps_mtu {A : Type} (m : M A) : Prop :=
  forall w a w', m w = Ok (a, w') -> negotiated_mtu w' = negotiated_mtu w.

(** Error codes after which [ble_flush_tx] returns normally. *)
Definition hvx_tolerated (err : Z) : bool :=
  (err =? NRF_SUCCESS) || (err =? NRF_ERROR_RESOURCES)
  || (err =? NRF_ERROR_INVALID_STATE)
  || (err =? BLE_ERROR_INVALID_CONN_HANDLE).

(** The size of the frame one [ble_flush_tx] builds from a transmit ring
    holding [held] bytes: the loop pops before it compares, so at least
    one byte, then up to [negotiated_mtu], and no more than is held. *)
Definition frame_length (mtu : Z) (held : list Byte.byte) : nat :=
  Z.to_nat (Z.min (Z.max 1 mtu) (Z.of_nat (length held))).

(** The payloads handed to [sd_ble_gatts_hvx], in order, a payload that
    is retried counting once per attempt. *)
Fixpoint hvx_payloads (calls : list sd_call) : list (list Byte.byte) :=
  match calls with
  | [] => []
  | Sd_ble_gatts_hvx _ _ data :: calls' => data :: hvx_payloads calls'
  | _ :: calls' => hvx_payloads calls'
  end.

(** *** Sample worlds *)

Definition example_bytes : list Byte.byte :=
  [Byte.x68; Byte.x65; Byte.x6c; Byte.x6c; Byte.x6f].

(** A boot-time world whose transmit ring holds 17 bytes, with 6 as
    [negotiated_mtu]. *)
Definition world_17 : world :=
  set_negotiated_mtu 6
    (set_tx (ring_of (replicate 17 Byte.x41)) (world_init [])).

(** A boot-time world whose transmit ring holds 7 bytes, with 1 as
    [negotiated_mtu]. *)
Definition world_7 : world :=
  set_negotiated_mtu 1
    (set_tx (ring_of (replicate 7 Byte.x41)) (world_init [])).

(** A boot-time world whose transmit ring holds 20 bytes. *)
Definition world_20 : world :=
  set_tx (ring_of (replicate 20 Byte.x41)) (world_init []).

Definition example_events : list ble_evt_t :=
  [BLE_GAP_EVT_CONNECTED 1; BLE_GATTS_EVT_WRITE 1 example_bytes;
   BLE_GAP_EVT_DISCONNECTED 1; BLE_GAP_EVT_CONNECTED 2].

(** A first link that negotiates its MTU, then its end and a second
    link. *)
Definition negotiated_events : list ble_evt_t :=
  [BLE_GAP_EVT_CONNECTED 1; BLE_GATTS_EVT_EXCHANGE_MTU_REQUEST 1 512].

Definition reconnect_events : list ble_evt_t :=
  [BLE_GAP_EVT_DISCONNECTED 1; BLE_GAP_EVT_CONNECTED 2].

Definition world_after (pending : list ble_evt_t) (w : world) : world :=
  match SWI2_IRQHandler pending w with
  | Ok (_, w') => w'
  | Fault _ => w
  end.

End Ble.

(** ** Floating-point arithmetic *)

(** What [battery.c] asks of the type [float]. [of_lit n d] is the decimal
    constant [n/d] as the compiler stores it in a [float]; [to_uint8 x] is
    [(uint8_t) round(x)]. *)
Class FloatOps (F : Type) : Type := {
  fadd : F -> F -> F;
  fsub : F -> F -> F;
  fmul : F -> F -> F;
  fdiv : F -> F -> F;
  flt : F -> F -> bool;
  feq : F -> F -> bool;
  of_int : Z -> F;
  of_lit : Z -> Z -> F;
  to_uint8 : F -> result Z
}.

(** *** IEEE-754 binary32: the arithmetic the firmware runs *)

Module F32.

Abbreviation f32 := spec_float.

Definition prec : Z := 24.
Definition emax : Z := 128.

(** Conversion of an integer, round to nearest even. *)
Definition of_Z (z : Z) : f32 := binary_normalize prec emax z 0 false.

(** A decimal constant [n/d] is a [double] first: the binary64 number
    nearest to the quotient of the two integers. *)
Definition double_lit (n d : Z) : spec_float :=
  SFdiv 53 1024 (binary_normalize 53 1024 n 0 false)
                (binary_normalize 53 1024 d 0 false).

(** [(float) x] for a [double] [x]. *)
Definition of_double (x : spec_float) : f32 :=
  match x with
  | S754_finite s m e => binary_round prec emax s m e
  | _ => x
  end.

(** [round()]: the nearest integer, halfway cases away from zero; no
    integer for an infinity or a NaN. *)
Definition round (x : f32) : option Z :=
  match x with
  | S754_zero _ => Some 0
  | S754_finite s m e =>
      let a :=
        match e with
        | Z0 => Zpos m
        | Zpos _ => Zpos m * 2 ^ e
        | Zneg p => (Zpos m + 2 ^ (Zpos p - 1)) / 2 ^ Zpos p
        end in
      Some (if s then - a else a)
  | _ => None
  end.

Definition round_to_uint8 (x : f32) : result Z :=
  match round x with
  | Some z => if (0 <=? z) && (z <=? 255) then Ok z else Fault Unrepresentable
  | None => Fault Unrepresentable
  end.

#[export] Instance ops : FloatOps f32 := {
  fadd := SFadd prec emax;
  fsub := SFsub prec emax;
  fmul := SFmul prec emax;
  fdiv := SFdiv prec emax;
  flt := SFltb;
  feq := SFeqb;
  of_int := of_Z;
  of_lit := fun n d => of_double (double_lit n d);
  to_uint8 := round_to_uint8
}.

Abbreviation Fin := (S754_finite false).

(** [battery_discharge_curve] as the compiler stores it: the binary32
    numbers nearest to the decimal constants, all of them in [[2, 4)],
    so with the exponent -22. *)
Definition curve32 : list f32 :=
  [ Fin 15938355 (-22); Fin 14470349 (-22); Fin 13337887 (-22);
    Fin 13086228 (-22); Fin 13002342 (-22); Fin 12876513 (-22);
    Fin 12666798 (-22); Fin 12457083 (-22); Fin 12121539 (-22);
    Fin 11702108 (-22); Fin 11324621 (-22) ].

(** The rational a finite binary32 number stands for. *)
Definition to_Q (x : f32) : Q :=
  match x with
  | S754_finite s m e =>
      (if s then -1 else 1) * inject_Z (Zpos m) * Qpower 2 e
  | _ => 0
  end%Q.

(** The value of a positive number, and the factor by which rounding to
    24 bits may exceed the value rounded: one unit in the last place. *)
Definition val (m : positive) (e : Z) : Q :=
  (inject_Z (Zpos m) * Qpower 2 e)%Q.

Definition ulp1 : Q := 8388609 # 8388608.

(** A positive binary32 number with a full 24-bit significand, its
    exponent within [[lo, hi]] and its value at most [bound]. *)
Definition normal_upto (x : f32) (lo hi : Z) (bound : Q) : Prop :=
  exists m e,
    x = Fin m e /\ 2 ^ 23 <= Zpos m < 2 ^ 24 /\ lo <= e <= hi
    /\ (val m e <= bound)%Q.

End F32.

(** *** Exact rational arithmetic: the formulas without rounding *)

Module Exact.

Definition round (x : Q) : Z :=
  if Qle_bool 0 x then Qfloor (x + (1 # 2))%Q
  else - Qfloor (- x + (1 # 2))%Q.

Definition round_to_uint8 (x : Q) : result Z :=
  let z := round x in
  if (0 <=? z) && (z <=? 255) then Ok z else Fault Unrepresentable.

#[export] Instance ops : FloatOps Q := {
  fadd := Qplus;
  fsub := Qminus;
  fmul := Qmult;
  fdiv := Qdiv;
  flt := fun a b => negb (Qle_bool b a);
  feq := Qeq_bool;
  of_int := inject_Z;
  of_lit := fun n d => Qmake n (Z.to_pos d);
  to_uint8 := round_to_uint8
}.

End Exact.

(** ** Battery estimator ([battery.c]) *)

Module Battery.

Section Estimator.
Context {F : Type} `{FloatOps F}.

(** [static float battery_discharge_curve[10 + 1]] *)
Definition battery_discharge_curve : list F :=
  [ of_lit 380 100; of_lit 345 100; of_lit 318 100; of_lit 312 100;
    of_lit 310 100; of_lit 307 100; of_lit 302 100; of_lit 297 100;
    of_lit 289 100; of_lit 279 100; of_lit 270 100 ].

(** [NRFX_ARRAY_SIZE(battery_discharge_curve)] *)
Definition curve_size : nat := 11.

(** The [return round(...)] of the interpolation branch, at index [i]. *)
Definition interpolate (i : Z) (voltage : F) : result Z :=
  v0 ← array_get battery_discharge_curve i;
  v1 ← array_get battery_discharge_curve (size_t (i - 1));
  let p0 := of_int (size_t (size_t (10 - i) * 10)) in
  to_uint8
    (fadd p0 (fdiv (fmul (of_int 10) (fsub voltage v0)) (fsub v1 v0))).

(** The [for] loop, about to test [i] with [remaining] indices left
    below the array size. *)
Fixpoint search (remaining : nat) (i : Z) (voltage : F) : result Z :=
  match remaining with
  | O => Ok 0
  | S remaining' =>
      ci ← array_get battery_discharge_curve i;
      if flt ci voltage then interpolate i voltage
      else search remaining' (i + 1) voltage
  end.

Definition battery_voltage_to_percent (voltage : F) : result Z :=
  c0 ← array_get battery_discharge_curve 0;
  if flt c0 voltage then Ok 100
  else search curve_size 0 voltage.

(** The index at which the loop started at [i] takes the interpolation
    branch, if it does. *)
Fixpoint branch_index (remaining : nat) (i : Z) (voltage : F)
  : option Z :=
  match remaining with
  | O => None
  | S remaining' =>
      match array_get battery_discharge_curve i with
      | Ok ci =>
          if flt ci voltage then Some i
          else branch_index remaining' (i + 1) voltage
      | Fault _ => None
      end
  end.

(** The index at which [battery_voltage_to_percent] interpolates, if
    it does not return before or after the loop. *)
Definition interpolation_index (voltage : F) : option Z :=
  match array_get battery_discharge_curve 0 with
  | Ok c0 =>
      if flt c0 voltage then None
      else branch_index curve_size 0 voltage
  | Fault _ => None
  end.

(** The [static] variables of [battery_travelling_mean]. *)
Record mean_state : Type := mk_mean { mean : F; count : F }.

Definition mean_init : mean_state :=
  {| mean := of_int 0; count := of_int 0 |}.

Definition battery_travelling_mean (s : mean_state) (new : F)
  : F * mean_state :=
  let mean' :=
    fdiv (fadd (fmul (mean s) (count s)) (fmul new (of_int 1)))
         (fadd (count s) (of_int 1)) in
  let count' :=
    if feq (count s) (of_int 10) then of_int 10
    else fadd (count s) (of_int 1) in
  (mean', {| mean := mean'; count := count' |}).

(** Feeding samples one after the other; the means returned, in
    order, and the final state. *)
Fixpoint feed (s : mean_state) (samples : list F)
  : list F * mean_state :=
  match samples with
  | [] => ([], s)
  | v :: samples' =>
      let '(m, s') := battery_travelling_mean s v in
      let '(ms, s'') := feed s' samples' in
      (m :: ms, s'')
  end.

End Estimator.

Arguments mean_state F : clear implicits.

End Battery.

(** [uint8_t] *)
Definition uint8 (z : Z) : Z := z mod 256.

(** ** The ring against a queue *)

Module RingTrace.
Import Ring.

(** [run_ops] keeping the bytes that [ring_pop] returns, in order. *)
Fixpoint run_trace (ring : ring_buf_t) (ops : list ring_op)
  : result (list Byte.byte * ring_buf_t) :=
  match ops with
  | [] => Ok ([], ring)
  | Op_pop :: ops' =>
      match ring_pop ring with
      | Ok (byte, ring') =>
          match run_trace ring' ops' with
          | Ok (out, ring'') => Ok (byte :: out, ring'')
          | Fault f => Fault f
          end
      | Fault f => Fault f
      end
  | op :: ops' =>
      match run_op ring op with
      | Ok ring' => run_trace ring' ops'
      | Fault f => Fault f
      end
  end.

(** The same operations on a queue of at most [RING_BUFFER_LENGTH - 1]
    bytes, oldest first: the bytes popped and the queue left, [None]
    when a push finds the queue full or a pop finds it empty. *)
Fixpoint queue_trace (q : list Byte.byte) (ops : list ring_op)
  : option (list Byte.byte * list Byte.byte) :=
  match ops with
  | [] => Some ([], q)
  | Op_push byte :: ops' =>
      if Z.of_nat (length q) <? RING_BUFFER_LENGTH - 1
      then queue_trace (q ++ [byte]) ops'
      else None
  | Op_pop :: ops' =>
      match q with
      | [] => None
      | byte :: q' =>
          match queue_trace q' ops' with
          | Some (out, q'') => Some (byte :: out, q'')
          | None => None
          end
      end
  | _ :: ops' => queue_trace q ops'
  end.

End RingTrace.

(** ** Console side of the driver ([ble_rfcomm_tx], [ble_rfcomm_rx],
       [ble_rfcomm_is_rx_pending]) *)

Module Console.
Import Ring Ble.

(** [ring_push(&tx, byte)] on the file-scope ring. *)
Definition tx_push (byte : Byte.byte) : M unit :=
  fun w =>
    match ring_push (tx w) byte with
    | Ok ring' => Ok (tt, set_tx ring' w)
    | Fault f => Fault f
    end.

(** [while (ring_full(&tx)) ble_flush_tx();] with at most [fuel] tests
    of the condition: [None] when they are used up with the ring still
    full. *)
Fixpoint flush_while_full (fuel : nat) (w : world)
  : option (result (unit * world)) :=
  match fuel with
  | O => None
  | S fuel' =>
      if ring_full (tx w) then
        match ble_flush_tx w with
        | Ok (_, w') => flush_while_full fuel' w'
        | Fault f => Some (Fault f)
        end
      else Some (Ok (tt, w))
  end.

(** [ble_rfcomm_tx(buf, sz)], [buf] being the [sz] bytes to write and
    [fuel] the bound on each inner loop. *)
Fixpoint ble_rfcomm_tx (fuel : nat) (buf : list Byte.byte) (w : world)
  : option (result (unit * world)) :=
  match buf with
  | [] => Some (Ok (tt, w))
  | byte :: buf' =>
      match flush_while_full fuel w with
      | Some (Ok (_, w1)) =>
          match tx_push byte w1 with
          | Ok (_, w2) => ble_rfcomm_tx fuel buf' w2
          | Fault f => Some (Fault f)
          end
      | Some (Fault f) => Some (Fault f)
      | None => None
      end
  end.

Definition ble_rfcomm_is_rx_pending (w : world) : bool :=
  ring_empty (rx w).

(** [ble_rfcomm_rx()]. The core sleeps in [sd_app_evt_wait] until the
    SoftDevice interrupt has run, and interrupts are taken to arrive
    during these sleeps only: [wakeups] lists, for each sleep, the
    events [SWI2_IRQHandler] then finds pending; with none left the core
    sleeps for ever, which is [None], as is running out of the [fuel]
    that bounds the turns of the loop. The result is the byte read, as
    an [int], with the wake-ups not used. *)
Fixpoint ble_rfcomm_rx (fuel : nat) (wakeups : list (list ble_evt_t))
    (w : world)
  : option (result (Z * list (list ble_evt_t) * world)) :=
  match fuel with
  | O => None
  | S fuel' =>
      if ring_empty (rx w) then
        match ble_flush_tx w with
        | Ok (_, w1) =>
            if ring_empty (tx w1) && ring_empty (rx w1) then
              match wakeups with
              | [] => None
              | pending :: wakeups' =>
                  match SWI2_IRQHandler pending w1 with
                  | Ok (_, w2) => ble_rfcomm_rx fuel' wakeups' w2
                  | Fault f => Some (Fault f)
                  end
              end
            else ble_rfcomm_rx fuel' wakeups w1
        | Fault f => Some (Fault f)
        end
      else
        match ring_pop (rx w) with
        | Ok (byte, ring') =>
            Some (Ok (Z.of_N (Byte.to_N byte), wakeups, set_rx ring' w))
        | Fault f => Some (Fault f)
        end
  end.

(** *** Observations used by the statements *)

(** The calls that hand the frames [frames] to [sd_ble_gatts_hvx], each
    frame [f] once and then once more for each of the [n] times the
    SoftDevice answered [NRF_ERROR_RESOURCES]. *)
Definition hvx_calls (conn_handle value_handle : Z)
    (frames : list (list Byte.byte * nat)) : list sd_call :=
  concat
    (map (fun fn : list Byte.byte * nat =>
            replicate (S (snd fn))
              (Sd_ble_gatts_hvx conn_handle value_handle (fst fn)))
         frames).

Definition is_write_of_data (e : ble_evt_t) : bool :=
  match e with
  | BLE_GATTS_EVT_WRITE _ (_ :: _) => true
  | _ => false
  end.

Definition is_adv_start (c : sd_call) : bool :=
  match c with
  | Sd_ble_gap_adv_start _ => true
  | _ => false
  end.

(** The bytes of the characteristic writes among [pending], in order. *)
Fixpoint written (pending : list ble_evt_t) : list Byte.byte :=
  match pending with
  | [] => []
  | BLE_GATTS_EVT_WRITE _ data :: pending' => data ++ written pending'
  | _ :: pending' => written pending'
  end.

(** Whether an MTU exchange request asks for at least 3 bytes, the
    overhead the handler subtracts. Other events pass. *)
Definition mtu_request_ok (e : ble_evt_t) : bool :=
  match e with
  | BLE_GATTS_EVT_EXCHANGE_MTU_REQUEST _ client_rx_mtu =>
      (3 <=? client_rx_mtu) && (client_rx_mtu <? 65536)
  | _ => true
  end.

Definition is_gattc_timeout (e : ble_evt_t) : bool :=
  match e with
  | BLE_GATTC_EVT_TIMEOUT _ => true
  | _ => false
  end.

(** The number of disconnections among [pending]. *)
Fixpoint disconnects (pending : list ble_evt_t) : nat :=
  match pending with
  | [] => 0
  | BLE_GAP_EVT_DISCONNECTED _ :: pending' => S (disconnects pending')
  | _ :: pending' => disconnects pending'
  end.

(** The advertising handles passed to [sd_ble_gap_adv_start], in
    order. *)
Fixpoint adv_starts (calls : list sd_call) : list Z :=
  match calls with
  | [] => []
  | Sd_ble_gap_adv_start adv_handle :: calls' =>
      adv_handle :: adv_starts calls'
  | _ :: calls' => adv_starts calls'
  end.

Definition is_hvx (c : sd_call) : bool :=
  match c with
  | Sd_ble_gatts_hvx _ _ _ => true
  | _ => false
  end.

(** The connection handle after the events [pending], from the handle
    [c] before them. *)
Fixpoint link_after (pending : list ble_evt_t) (c : Z) : Z :=
  match pending with
  | [] => c
  | BLE_GAP_EVT_CONNECTED conn_handle :: pending' =>
      link_after pending' conn_handle
  | BLE_GAP_EVT_DISCONNECTED _ :: pending' =>
      link_after pending' BLE_CONN_HANDLE_INVALID
  | _ :: pending' => link_after pending' c
  end.

(** A computation that leaves the component [proj] of the world as it
    found it. *)
Definition keeps {A B : Type} (proj : world -> B) (m : M A) : Prop :=
  forall w a w', m w = Ok (a, w') -> proj w' = proj w.

(** A component no SoftDevice call changes: any but the log of calls
    and the pending replies. *)
Definition untouched_by_sd {B : Type} (proj : world -> B) : Prop :=
  forall w calls replies, proj (set_softdevice calls replies w) = proj w.

(** Every answer of the SoftDevice a computation used up was
    [NRF_SUCCESS]. *)
Definition all_success {A : Type} (m : M A) : Prop :=
  forall w a w', m w = Ok (a, w') ->
    exists used, sd_replies w = used ++ sd_replies w'
                 /\ Forall (fun err => err = NRF_SUCCESS) used.

(** The calls of a computation restart advertising [n] times, with the
    handle [ble_handles.advertising], which it leaves alone. *)
Definition restarts {A : Type} (m : M A) (n : nat) : Prop :=
  forall w a w', m w = Ok (a, w') ->
    advertising w' = advertising w
    /\ adv_starts (sd_calls w')
       = adv_starts (sd_calls w) ++ replicate n (advertising w).

(** A computation only adds calls that satisfy [P] to the log. *)
Definition calls_only (P : sd_call -> bool) {A : Type} (m : M A) : Prop :=
  forall w a w', m w = Ok (a, w') ->
    exists calls, sd_calls w' = sd_calls w ++ calls
                  /\ forallb P calls = true.

(** Frames of the size [ble_flush_tx] gives them: one byte at least,
    [negotiated_mtu] at most unless that is zero. *)
Definition frames_ok (mtu : Z) (frames : list (list Byte.byte * nat))
  : Prop :=
  Forall (fun fn : list Byte.byte * nat =>
            1 <= Z.of_nat (length (fst fn)) <= Z.max 1 mtu) frames.

(** The indices of both rings designate cells and [negotiated_mtu]
    leaves room in [out_buffer]. *)
Definition driver_inv (w : world) : Prop :=
  ring_inv (rx w) /\ ring_inv (tx w)
  /\ 0 <= negotiated_mtu w <= MAX_MTU_LENGTH - 3.

(** An outcome that kept the invariant [I], or stopped on an
    assertion: no access out of bounds. *)
Definition safe_result (I : world -> Prop) {A : Type}
    (r : result (A * world)) : Prop :=
  match r with
  | Ok (_, w') => I w'
  | Fault f => f = Assertion_failed
  end.

Definition safe (I : world -> Prop) {A : Type} (m : M A) : Prop :=
  forall w, I w -> safe_result I (m w).

(** What the foreground and the interrupt can do to the driver, in any
    order. *)
Inductive driver_op : Type :=
  | Op_irq (pending : list ble_evt_t)
  | Op_flush
  | Op_write (buf : list Byte.byte)
  | Op_read (wakeups : list (list ble_evt_t)).

Definition op_ok (op : driver_op) : bool :=
  match op with
  | Op_irq pending => forallb mtu_request_ok pending
  | Op_read wakeups => forallb (forallb mtu_request_ok) wakeups
  | _ => true
  end.

Definition run_driver_op (fuel : nat) (op : driver_op) (w : world)
  : option (result world) :=
  match op with
  | Op_irq pending =>
      match SWI2_IRQHandler pending w with
      | Ok (_, w') => Some (Ok w')
      | Fault f => Some (Fault f)
      end
  | Op_flush =>
      match ble_flush_tx w with
      | Ok (_, w') => Some (Ok w')
      | Fault f => Some (Fault f)
      end
  | Op_write buf =>
      match ble_rfcomm_tx fuel buf w with
      | Some (Ok (_, w')) => Some (Ok w')
      | Some (Fault f) => Some (Fault f)
      | None => None
      end
  | Op_read wakeups =>
      match ble_rfcomm_rx fuel wakeups w with
      | Some (Ok (_, w')) => Some (Ok w')
      | Some (Fault f) => Some (Fault f)
      | None => None
      end
  end.

Fixpoint run_driver (fuel : nat) (ops : list driver_op) (w : world)
  : option (result world) :=
  match ops with
  | [] => Some (Ok w)
  | op :: ops' =>
      match run_driver_op fuel op w with
      | Some (Ok w') => run_driver fuel ops' w'
      | other => other
      end
  end.

(** *** Sample worlds *)

Definition world_after_flush (w : world) : world :=
  match ble_flush_tx w with
  | Ok (_, w') => w'
  | Fault _ => w
  end.

(** A ring holding as many bytes as it can. *)
Definition ring_1068 : ring_buf_t :=
  ring_of (replicate 1068 Byte.x41).

(** A boot-time world after an MTU request for 0 bytes was answered,
    with 129 bytes waiting in the transmit ring. *)
Definition world_129 : world :=
  set_tx (ring_of (replicate 129 Byte.x41))
    (world_after [BLE_GATTS_EVT_EXCHANGE_MTU_REQUEST 1 0] (world_init [])).

(** A boot-time world with a full transmit ring and an MTU of 20. *)
Definition world_1068 : world :=
  set_negotiated_mtu 20 (set_tx ring_1068 (world_init [])).

End Console.

(** ** Battery sampling ([battery_saadc_to_voltage],
       [battery_timer_handler], [battery_get_percent]) *)

Module Sampler.
Import F32 Battery.

(** [#define REFERENCE (1.8 / 4.0)]: a [double], as are the gains. *)
Definition REFERENCE : spec_float :=
  SFdiv 53 1024 (double_lit 18 10) (double_lit 4 1).

(** [#define RESOLUTION 10] *)
Definition RESOLUTION : Z := 10.

(** [#define BATTERY_SAADC_GAIN (1.0 / 4.0)] *)
Definition BATTERY_SAADC_GAIN : spec_float :=
  SFdiv 53 1024 (double_lit 1 1) (double_lit 4 1).

(** [#define MAX77654_AMUX_GAIN (1.25 / 4.5)] *)
Definition MAX77654_AMUX_GAIN : spec_float :=
  SFdiv 53 1024 (double_lit 125 100) (double_lit 45 10).

(** [#define GAIN (BATTERY_SAADC_GAIN * MAX77654_AMUX_GAIN)] *)
Definition GAIN : spec_float :=
  SFmul 53 1024 BATTERY_SAADC_GAIN MAX77654_AMUX_GAIN.

(** [(float)result / (float)(1<<RESOLUTION) * (float)REFERENCE
    / (float)GAIN], [result] being an [int16_t]. *)
Definition battery_saadc_to_voltage (result : Z) : f32 :=
  fdiv (fmul (fdiv (of_int result) (of_int (Z.shiftl 1 RESOLUTION)))
             (of_double REFERENCE))
       (of_double GAIN).

(** [NRFX_SUCCESS], of [nrfx_errors.h]. *)
Definition NRFX_SUCCESS : Z := 0x0BAD0000.

(** The file-scope variables [battery_percent] and
    [battery_timer_counter], with the [static] variables of
    [battery_travelling_mean]. *)
Record battery_state : Type := mk_battery {
  battery_percent : Z;
  battery_timer_counter : Z;
  travelling : mean_state f32
}.

(** All of them are zero-initialised. *)
Definition battery_zero : battery_state :=
  {| battery_percent := 0;
     battery_timer_counter := 0;
     travelling := mean_init |}.

(** What the ADC driver answers when one tick asks it for a sample:
    the codes of [nrfx_saadc_simple_mode_set], [nrfx_saadc_buffer_set]
    and [nrfx_saadc_mode_trigger], and the [int16_t] stored in
    [result]. *)
Record saadc_reply : Type := mk_saadc {
  simple_mode_set : Z;
  buffer_set : Z;
  mode_trigger : Z;
  value : Z
}.

Definition ASSERT (cond : bool) : result unit :=
  if cond then Ok tt else Fault Assertion_failed.

(** [battery_timer_handler()], [adc] being what the ADC driver answers
    if this tick gets as far as asking. *)
Definition battery_timer_handler (adc : saadc_reply) (s : battery_state)
  : result battery_state :=
  let counter := uint8 (battery_timer_counter s + 1) in
  if negb (counter =? 0) then
    Ok {| battery_percent := battery_percent s;
          battery_timer_counter := counter;
          travelling := travelling s |}
  else
    ASSERT (simple_mode_set adc =? NRFX_SUCCESS);;
    ASSERT (buffer_set adc =? NRFX_SUCCESS);;
    ASSERT (mode_trigger adc =? NRFX_SUCCESS);;
    let v_inst := battery_saadc_to_voltage (value adc) in
    let '(v_mean, travelling') :=
      battery_travelling_mean (travelling s) v_inst in
    percent ← battery_voltage_to_percent v_mean;
    Ok {| battery_percent := percent;
          battery_timer_counter := counter;
          travelling := travelling' |}.

Definition battery_get_percent (s : battery_state) : Z :=
  battery_percent s.

(** The timer calling the handler once per tick. *)
Fixpoint run_ticks (ticks : list saadc_reply) (s : battery_state)
  : result battery_state :=
  match ticks with
  | [] => Ok s
  | adc :: ticks' =>
      match battery_timer_handler adc s with
      | Ok s' => run_ticks ticks' s'
      | Fault f => Fault f
      end
  end.

(** *** Observations used by the statements *)

(** The constants as the compiler stores them in a [float]. *)
Definition reference32 : f32 := Fin 15099494 (-25).
Definition gain32 : f32 := Fin 9320676 (-27).

(** [battery_saadc_to_voltage] and [battery_voltage_to_percent] with the
    constants and the curve given as arguments: the same operations in
    the same order, to compute with the stored values. *)
Definition saadc_to_voltage_with (reference gain : f32) (result : Z) : f32 :=
  fdiv (fmul (fdiv (of_int result) (of_int (Z.shiftl 1 RESOLUTION)))
             reference)
       gain.

Definition interpolate_on (curve : list f32) (i : Z) (voltage : f32)
  : result Z :=
  v0 ← array_get curve i;
  v1 ← array_get curve (size_t (i - 1));
  let p0 := of_int (size_t (size_t (10 - i) * 10)) in
  to_uint8
    (fadd p0 (fdiv (fmul (of_int 10) (fsub voltage v0)) (fsub v1 v0))).

Fixpoint search_on (curve : list f32) (remaining : nat) (i : Z)
    (voltage : f32) : result Z :=
  match remaining with
  | O => Ok 0
  | S remaining' =>
      ci ← array_get curve i;
      if flt ci voltage then interpolate_on curve i voltage
      else search_on curve remaining' (i + 1) voltage
  end.

Definition percent_on (curve : list f32) (voltage : f32) : result Z :=
  c0 ← array_get curve 0;
  if flt c0 voltage then Ok 100
  else search_on curve curve_size 0 voltage.

(** An answer of the ADC driver with no error, storing [raw]. *)
Definition sample (raw : Z) : saadc_reply :=
  {| simple_mode_set := NRFX_SUCCESS;
     buffer_set := NRFX_SUCCESS;
     mode_trigger := NRFX_SUCCESS;
     value := raw |}.

(** The percentage shown once the first sample, [raw], is in. *)
Definition first_percent (raw : Z) : result Z :=
  battery_voltage_to_percent
    (fst (battery_travelling_mean mean_init (battery_saadc_to_voltage raw))).

(** The percentage of the first sample, computed with the stored
    constants; [-1] stands for a fault. *)
Definition shown (raw : nat) : Z :=
  match percent_on curve32
          (fst (battery_travelling_mean mean_init
                  (saadc_to_voltage_with reference32 gain32
                     (Z.of_nat raw)))) with
  | Ok p => p
  | Fault _ => -1
  end.

(** The percentage stays a percentage and the counter a [uint8_t]. *)
Definition battery_inv (s : battery_state) : Prop :=
  0 <= battery_percent s <= 100 /\ 0 <= battery_timer_counter s < 256.

End Sampler.

(** ** Advertising payload ([adv], [ble_add_service_tx_rx]) *)

Module Advertising.

(** The advertising data types and flags of [ble_gap.h]. *)
Definition BLE_GAP_AD_TYPE_FLAGS : Z := 0x01.
Definition BLE_GAP_AD_TYPE_128BIT_SERVICE_UUID_COMPLETE : Z := 0x07.
Definition BLE_GAP_AD_TYPE_COMPLETE_LOCAL_NAME : Z := 0x09.
Definition BLE_GAP_ADV_FLAGS_LE_ONLY_GENERAL_DISC_MODE : Z := 0x06.

(** [static struct { uint8_t length; uint8_t payload[31]; } adv], the
    bytes as numbers. *)
Record adv_t : Type := mk_adv {
  adv_length : Z;
  adv_payload : list Z
}.

(** File-scope, so zero-initialised. *)
Definition adv_zero : adv_t :=
  {| adv_length := 0; adv_payload := replicate 31 0 |}.

(** [adv.payload[adv.length++] = v] *)
Definition put_byte (v : Z) (adv : adv_t) : result adv_t :=
  payload' ← array_set (adv_payload adv) (adv_length adv) (uint8 v);
  Ok {| adv_length := uint8 (adv_length adv + 1);
        adv_payload := payload' |}.

(** [memcpy(&dst[offset], src, n)] for the [n] bytes [src], and what
    [sd_ble_uuid_encode] does with the buffer it is given: a write
    past the end of [dst] is out of bounds. *)
Fixpoint memcpy (dst : list Z) (offset : Z) (src : list Z)
  : result (list Z) :=
  match src with
  | [] => Ok dst
  | byte :: src' =>
      dst' ← array_set dst offset byte;
      memcpy dst' (offset + 1) src'
  end.

(** The error codes the SoftDevice returns to the calls of
    [ble_add_service_tx_rx], in the order of the calls, and the bytes
    [sd_ble_uuid_encode] writes, their number being
    [encoded_uuid_length]. *)
Record sd_setup : Type := mk_setup {
  uuid_vs_add : Z;
  service_add : Z;
  rx_characteristic_add : Z;
  tx_characteristic_add : Z;
  uuid_encode : Z;
  encoded_uuid : list Z;
  adv_set_configure : Z
}.

Definition NRFX_ASSERT (cond : bool) : result unit :=
  if cond then Ok tt else Fault Assertion_failed.

(** The three blocks of [ble_add_service_tx_rx] that fill [adv].
    [name] holds the characters of the string literal
    [BLE_DEVICE_NAME], so [strlen] is their number and [sizeof] one
    more, for the terminating zero. *)

(** "Add name to advertising payload" *)
Definition add_name (name : list Z) (adv : adv_t) : result adv_t :=
  let strlen := size_t (Z.of_nat (length name)) in
  adv ← put_byte (size_t (strlen + 1)) adv;
  adv ← put_byte BLE_GAP_AD_TYPE_COMPLETE_LOCAL_NAME adv;
  payload' ← memcpy (adv_payload adv) (adv_length adv) (name ++ [0]);
  Ok {| adv_length := uint8 (adv_length adv + strlen);
        adv_payload := payload' |}.

(** "Set discovery mode flag" *)
Definition add_flags (adv : adv_t) : result adv_t :=
  adv ← put_byte 0x02 adv;
  adv ← put_byte BLE_GAP_AD_TYPE_FLAGS adv;
  put_byte BLE_GAP_ADV_FLAGS_LE_ONLY_GENERAL_DISC_MODE adv.

(** "Add Nordic UART service to advertising data": the SoftDevice
    writes the encoded UUID two cells further, the code asserts its
    answer, then fills the two cells. On an error the SoftDevice
    writes nothing. *)
Definition add_uuid (sd : sd_setup) (adv : adv_t) : result adv_t :=
  payload' ← (if uuid_encode sd =? 0
              then memcpy (adv_payload adv) (adv_length adv + 2)
                          (encoded_uuid sd)
              else Ok (adv_payload adv));
  NRFX_ASSERT (uuid_encode sd =? 0);;
  let encoded_uuid_length := uint8 (Z.of_nat (length (encoded_uuid sd))) in
  let adv := {| adv_length := adv_length adv; adv_payload := payload' |} in
  adv ← put_byte (0x01 + encoded_uuid_length) adv;
  adv ← put_byte BLE_GAP_AD_TYPE_128BIT_SERVICE_UUID_COMPLETE adv;
  Ok {| adv_length := uint8 (adv_length adv + encoded_uuid_length);
        adv_payload := adv_payload adv |}.

(** [ble_add_service_tx_rx], as far as [adv] and the assertions go:
    the arguments built for the SoftDevice and the handles it returns
    are left out. The code of [sd_ble_gatts_service_add] is stored and
    never looked at. *)
Definition ble_add_service_tx_rx (name : list Z) (sd : sd_setup)
    (adv : adv_t) : result adv_t :=
  NRFX_ASSERT (uuid_vs_add sd =? 0);;
  let _ := service_add sd in
  NRFX_ASSERT (rx_characteristic_add sd =? 0);;
  NRFX_ASSERT (tx_characteristic_add sd =? 0);;
  adv ← add_name name adv;
  adv ← add_flags adv;
  adv ← add_uuid sd adv;
  NRFX_ASSERT (adv_set_configure sd =? 0);;
  Ok adv.

(** *** Observations used by the statements *)

(** A SoftDevice that accepts every call but, with [err],
    [sd_ble_gatts_service_add], and encodes the UUID as [encoded]. *)
Definition setup_ok (err : Z) (encoded : list Z) : sd_setup :=
  {| uuid_vs_add := 0;
     service_add := err;
     rx_characteristic_add := 0;
     tx_characteristic_add := 0;
     uuid_encode := 0;
     encoded_uuid := encoded;
     adv_set_configure := 0 |}.

(** [adv] with [pre] written, [adv.length] after it, then [k] cells
    still zero, then [post]. *)
Definition adv_with (pre : list Z) (k : nat) (post : list Z) : adv_t :=
  {| adv_length := Z.of_nat (length pre);
     adv_payload := pre ++ replicate k 0 ++ post |}.

(** One advertising structure: its length, its type, its data. *)
Definition ad_structure (ad_type : Z) (data : list Z) : list Z :=
  (1 + Z.of_nat (length data)) :: ad_type :: data.

(** The name [Monocle] and the Nordic UART service UUID with the
    16-bit UUID 0x0001 in place, least significant byte first. *)
Definition example_name : list Z := [77; 111; 110; 111; 99; 108; 101].

Definition example_uuid : list Z :=
  [0x9E; 0xCA; 0xDC; 0x24; 0x0E; 0xE5; 0xA9; 0xE0;
   0x93; 0xF3; 0xA3; 0xB5; 0x01; 0x00; 0x40; 0x6E].

End Advertising.

(** * Properties of the ring buffer *)

Module RingFacts.
Import Ring.

Lemma uint16_small z : 0 <= z < 65536 -> uint16 z = z.
Proof. intros Hz. unfold uint16. apply Z.mod_small. lia. Qed.

Lemma advance_spec i :
  0 <= i < RING_BUFFER_LENGTH ->
  advance i = (if i + 1 =? RING_BUFFER_LENGTH then 0 else i + 1)
  /\ 0 <= advance i < RING_BUFFER_LENGTH.
Proof.
  unfold advance, RING_BUFFER_LENGTH. intros Hi.
  rewrite uint16_small by lia.
  destruct (i + 1 =? 1024 + 45) eqn:E; split; trivial; lia.
Qed.

Lemma ring_zero_inv : ring_inv ring_zero.
Proof.
  unfold ring_inv, ring_zero. cbn [buffer head tail].
  rewrite length_replicate. unfold RING_BUFFER_LENGTH. lia.
Qed.

Lemma ring_push_inv ring byte :
  ring_inv ring ->
  exists ring', ring_push ring byte = Ok ring' /\ ring_inv ring'
    /\ buffer ring' = <[Z.to_nat (tail ring) := byte]> (buffer ring)
    /\ head ring' = head ring /\ tail ring' = advance (tail ring).
Proof.
  intros (Hlen & Hh & Ht). unfold ring_push, array_set.
  destruct (Z.leb_spec 0 (tail ring)); [|lia].
  destruct (Z.ltb_spec (tail ring) (Z.of_nat (length (buffer ring))));
    [|unfold RING_BUFFER_LENGTH in *; lia].
  cbn [andb mbind result_bind]. fold (advance (tail ring)).
  eexists. split; [reflexivity|]. unfold ring_inv. cbn [buffer head tail].
  split; [|auto].
  split; [rewrite length_insert; exact Hlen|].
  split; [exact Hh|]. apply (advance_spec _ Ht).
Qed.

Lemma ring_pop_inv ring :
  ring_inv ring ->
  exists byte ring', ring_pop ring = Ok (byte, ring') /\ ring_inv ring'
    /\ buffer ring !! Z.to_nat (head ring) = Some byte
    /\ buffer ring' = buffer ring
    /\ head ring' = advance (head ring) /\ tail ring' = tail ring.
Proof.
  intros (Hlen & Hh & Ht). unfold ring_pop, array_get.
  destruct (lookup_lt_is_Some_2 (buffer ring) (Z.to_nat (head ring)))
    as [byte Hb]; [unfold RING_BUFFER_LENGTH in *; lia|].
  rewrite Hb. destruct (Z.leb_spec 0 (head ring)); [|lia].
  cbn [mbind result_bind]. fold (advance (head ring)).
  exists byte. eexists. split; [reflexivity|].
  unfold ring_inv. cbn [buffer head tail]. split; [|auto].
  split; [exact Hlen|]. split; [|exact Ht]. apply (advance_spec _ Hh).
Qed.

Lemma ring_distance h t :
  0 <= h < RING_BUFFER_LENGTH -> 0 <= t < RING_BUFFER_LENGTH ->
  (t - h) mod RING_BUFFER_LENGTH
  = if t <? h then t - h + RING_BUFFER_LENGTH else t - h.
Proof.
  unfold RING_BUFFER_LENGTH. intros Hh Ht.
  destruct (Z.ltb_spec t h).
  - symmetry. apply (Z.mod_unique _ _ (-1)); lia.
  - apply Z.mod_small. lia.
Qed.

Lemma contents_length ring :
  ring_inv ring ->
  Z.of_nat (length (contents ring))
  = (tail ring - head ring) mod RING_BUFFER_LENGTH.
Proof.
  intros (Hlen & Hh & Ht). rewrite (ring_distance _ _ Hh Ht).
  unfold contents, RING_BUFFER_LENGTH in *.
  destruct (Z.ltb_spec (tail ring) (head ring)).
  - rewrite length_app, length_drop, length_take, Hlen. lia.
  - rewrite length_take, length_drop, Hlen. lia.
Qed.

Lemma contents_bound ring :
  ring_inv ring ->
  Z.of_nat (length (contents ring)) <= RING_BUFFER_LENGTH - 1.
Proof.
  intros Hinv. rewrite (contents_length _ Hinv).
  pose proof (Z.mod_pos_bound (tail ring - head ring) RING_BUFFER_LENGTH).
  unfold RING_BUFFER_LENGTH in *. lia.
Qed.

Lemma ring_empty_contents ring :
  ring_inv ring -> (ring_empty ring = true <-> contents ring = []).
Proof.
  intros Hinv. pose proof (contents_length _ Hinv) as Hl.
  destruct Hinv as (Hlen & Hh & Ht).
  rewrite (ring_distance _ _ Hh Ht) in Hl.
  rewrite <- length_zero_iff_nil. unfold ring_empty.
  rewrite Z.eqb_eq. unfold RING_BUFFER_LENGTH in *.
  destruct (Z.ltb_spec (tail ring) (head ring)); lia.
Qed.

Lemma ring_full_contents ring :
  ring_inv ring ->
  (ring_full ring = true
   <-> Z.of_nat (length (contents ring)) = RING_BUFFER_LENGTH - 1).
Proof.
  intros Hinv. rewrite (contents_length _ Hinv).
  destruct Hinv as (Hlen & Hh & Ht).
  rewrite (ring_distance _ _ Hh Ht). unfold ring_full.
  fold (advance (tail ring)). destruct (advance_spec _ Ht) as [-> _].
  rewrite Z.eqb_eq. unfold RING_BUFFER_LENGTH in *.
  destruct (Z.ltb_spec (tail ring) (head ring));
    destruct (Z.eqb_spec (tail ring + 1) (1024 + 45)); lia.
Qed.

Lemma ring_push_contents ring byte :
  ring_inv ring -> ring_full ring = false ->
  exists ring', ring_push ring byte = Ok ring' /\ ring_inv ring'
    /\ contents ring' = contents ring ++ [byte].
Proof.
  intros Hinv Hfull.
  destruct (ring_push_inv ring byte Hinv)
    as (ring' & Hpush & Hinv' & Hbuf & Hhd & Htl).
  exists ring'. split; [exact Hpush|]. split; [exact Hinv'|].
  destruct Hinv as (Hlen & Hh & Ht).
  unfold ring_full in Hfull. fold (advance (tail ring)) in Hfull.
  apply Z.eqb_neq in Hfull.
  destruct (advance_spec _ Ht) as [Hadv _]. rewrite Hadv in Hfull, Htl.
  unfold contents. rewrite Hbuf, Hhd, Htl.
  unfold RING_BUFFER_LENGTH in *.
  assert (Hcell : (<[Z.to_nat (tail ring) := byte]> (buffer ring))
                    !! Z.to_nat (tail ring) = Some byte)
    by (apply list_lookup_insert_eq; lia).
  destruct (tail ring + 1 =? 1024 + 45) eqn:Ewrap.
  - apply Z.eqb_eq in Ewrap.
    replace (0 <? head ring) with true by (symmetry; lia).
    replace (tail ring <? head ring) with false by (symmetry; lia).
    rewrite take_0, app_nil_r.
    rewrite <- (take_ge (drop _ (<[_ := _]> _))
                  (S (Z.to_nat (tail ring) - Z.to_nat (head ring))))
      by (rewrite length_drop, length_insert; lia).
    erewrite take_S_r
      by (rewrite lookup_drop;
          replace (Z.to_nat (head ring)
                   + (Z.to_nat (tail ring) - Z.to_nat (head ring)))%nat
            with (Z.to_nat (tail ring)) by lia; exact Hcell).
    f_equal. rewrite !take_drop_commute. f_equal.
    apply take_insert_ge. lia.
  - apply Z.eqb_neq in Ewrap.
    destruct (tail ring <? head ring) eqn:E.
    + replace (tail ring + 1 <? head ring) with true by (symmetry; lia).
      rewrite drop_insert_lt by lia.
      replace (Z.to_nat (tail ring + 1)) with (S (Z.to_nat (tail ring))) by lia.
      rewrite (take_S_r _ _ _ Hcell), take_insert_ge by lia.
      now rewrite app_assoc.
    + replace (tail ring + 1 <? head ring) with false by (symmetry; lia).
      replace (Z.to_nat (tail ring + 1) - Z.to_nat (head ring))%nat
        with (S (Z.to_nat (tail ring) - Z.to_nat (head ring))) by lia.
      erewrite take_S_r
        by (rewrite lookup_drop;
            replace (Z.to_nat (head ring)
                     + (Z.to_nat (tail ring) - Z.to_nat (head ring)))%nat
              with (Z.to_nat (tail ring)) by lia; exact Hcell).
      f_equal. rewrite !take_drop_commute. f_equal.
      apply take_insert_ge. lia.
Qed.

Lemma ring_pop_contents ring :
  ring_inv ring -> ring_empty ring = false ->
  exists byte ring', ring_pop ring = Ok (byte, ring') /\ ring_inv ring'
    /\ contents ring = byte :: contents ring'.
Proof.
  intros Hinv Hempty.
  destruct (ring_pop_inv ring Hinv)
    as (byte & ring' & Hpop & Hinv' & Hcell & Hbuf & Hhd & Htl).
  exists byte, ring'. split; [exact Hpop|]. split; [exact Hinv'|].
  destruct Hinv as (Hlen & Hh & Ht).
  unfold ring_empty in Hempty. apply Z.eqb_neq in Hempty.
  destruct (advance_spec _ Hh) as [Hadv _]. rewrite Hadv in Hhd.
  unfold contents. rewrite Hbuf, Hhd, Htl.
  rewrite (drop_S _ _ _ Hcell).
  unfold RING_BUFFER_LENGTH in *.
  destruct (Z.ltb_spec (tail ring) (head ring)).
  - destruct (Z.eqb_spec (head ring + 1) (1024 + 45)).
    + destruct (Z.ltb_spec (tail ring) 0); [lia|].
      rewrite (drop_ge _ (S _)) by lia.
      change (Z.to_nat 0) with 0%nat. rewrite drop_0, Nat.sub_0_r.
      reflexivity.
    + destruct (Z.ltb_spec (tail ring) (head ring + 1)); [|lia].
      replace (Z.to_nat (head ring + 1)) with (S (Z.to_nat (head ring)))
        by lia.
      reflexivity.
  - destruct (Z.eqb_spec (head ring + 1) (1024 + 45)); [lia|].
    destruct (Z.ltb_spec (tail ring) (head ring + 1)); [lia|].
    replace (Z.to_nat (tail ring) - Z.to_nat (head ring))%nat
      with (S (Z.to_nat (tail ring) - Z.to_nat (head ring + 1))) by lia.
    replace (Z.to_nat (head ring + 1)) with (S (Z.to_nat (head ring)))
      by lia.
    reflexivity.
Qed.

(** Pushing [l] onto a ring with room for it appends [l]. *)
Lemma push_all_contents l : forall ring,
  ring_inv ring ->
  Z.of_nat (length (contents ring)) + Z.of_nat (length l)
    <= RING_BUFFER_LENGTH - 1 ->
  exists ring', push_all ring l = Ok ring' /\ ring_inv ring'
    /\ contents ring' = contents ring ++ l.
Proof.
  induction l as [|b l IH]; intros ring Hinv Hroom.
  - exists ring. rewrite app_nil_r. auto.
  - cbn [length] in Hroom.
    assert (Hfull : ring_full ring = false).
    { destruct (ring_full ring) eqn:E; [|reflexivity].
      apply (ring_full_contents _ Hinv) in E. lia. }
    destruct (ring_push_contents ring b Hinv Hfull)
      as (ring1 & Hpush & Hinv1 & Hc1).
    destruct (IH ring1 Hinv1) as (ring' & Hall & Hinv' & Hc').
    { rewrite Hc1, length_app. cbn [length]. lia. }
    exists ring'. cbn [push_all]. rewrite Hpush.
    split; [exact Hall|]. split; [exact Hinv'|].
    rewrite Hc', Hc1, <- app_assoc. reflexivity.
Qed.

(** Popping as many bytes as a ring holds returns them oldest first and
    leaves the ring empty. *)
Lemma pop_n_contents n : forall ring,
  ring_inv ring -> length (contents ring) = n ->
  exists ring', pop_n ring n = Ok (contents ring, ring') /\ ring_inv ring'
    /\ ring_empty ring' = true.
Proof.
  induction n as [|n IH]; intros ring Hinv Hlen.
  - apply length_zero_iff_nil in Hlen. rewrite Hlen. exists ring.
    split; [reflexivity|]. split; [exact Hinv|].
    now apply ring_empty_contents.
  - assert (Hne : ring_empty ring = false).
    { destruct (ring_empty ring) eqn:E; [|reflexivity].
      apply (ring_empty_contents _ Hinv) in E. now rewrite E in Hlen. }
    destruct (ring_pop_contents ring Hinv Hne)
      as (b & ring1 & Hpop & Hinv1 & Hc).
    destruct (IH ring1 Hinv1) as (ring' & Hn & Hinv' & He).
    { rewrite Hc in Hlen. cbn [length] in Hlen. lia. }
    exists ring'. cbn [pop_n]. rewrite Hpop, Hn, Hc. auto.
Qed.

Lemma run_op_inv ring op :
  ring_inv ring -> exists ring', run_op ring op = Ok ring' /\ ring_inv ring'.
Proof.
  intros Hinv. destruct op as [| |b|]; cbn [run_op].
  - eauto.
  - eauto.
  - destruct (ring_push_inv ring b Hinv) as (r & -> & Hr & _). eauto.
  - destruct (ring_pop_inv ring Hinv) as (b & r & -> & Hr & _). eauto.
Qed.

Lemma run_ops_inv ops : forall ring,
  ring_inv ring -> exists ring', run_ops ring ops = Ok ring' /\ ring_inv ring'.
Proof.
  induction ops as [|op ops IH]; intros ring Hinv; cbn [run_ops].
  - eauto.
  - destruct (run_op_inv ring op Hinv) as (r & -> & Hr). now apply IH.
Qed.


Lemma ring_not_empty ring :
  ring_inv ring -> contents ring <> [] -> ring_empty ring = false.
Proof.
  intros Hinv Hne. destruct (ring_empty ring) eqn:E; [|reflexivity].
  now apply (ring_empty_contents _ Hinv) in E.
Qed.


Lemma ring_of_inv l :
  Z.of_nat (length l) <= RING_BUFFER_LENGTH - 1 ->
  ring_inv (ring_of l) /\ contents (ring_of l) = l.
Proof.
  intros Hl. unfold ring_of.
  destruct (push_all_contents l ring_zero ring_zero_inv) as (r & -> & Hinv & Hc).
  - assert (E : contents ring_zero = []) by
      (now apply (ring_empty_contents _ ring_zero_inv)).
    rewrite E. cbn [length]. lia.
  - split; [exact Hinv|]. rewrite Hc.
    now rewrite (proj1 (ring_empty_contents _ ring_zero_inv) eq_refl).
Qed.

End RingFacts.

(** * Properties of the BLE driver *)

Module BleFacts.
Import Ring Ble RingFacts.

Lemma hvx_retry_spec c replies : forall calls,
  forallb hvx_tolerated replies = true ->
  exists err n replies',
    hvx_retry c calls replies = (err, calls ++ replicate (S n) c, replies')
    /\ hvx_tolerated err = true /\ err <> NRF_ERROR_RESOURCES
    /\ forallb hvx_tolerated replies' = true
    /\ (replies = [] -> n = 0%nat /\ replies' = []).
Proof.
  induction replies as [|e rest IH]; intros calls Hok; cbn [hvx_retry].
  - exists NRF_SUCCESS, 0%nat, []. repeat split; auto; try discriminate.
  - cbn [forallb] in Hok. apply andb_true_iff in Hok as [He Hrest].
    destruct (Z.eqb_spec e NRF_ERROR_RESOURCES) as [->|Hne].
    + destruct (IH (calls ++ [c]) Hrest)
        as (err & n & replies' & Hr & Ht & Hn & Hf & _).
      exists err, (S n), replies'. rewrite Hr, <- app_assoc.
      repeat split; auto; try discriminate.
    + exists e, 0%nat, rest. repeat split; auto; try discriminate.
Qed.

Lemma flush_fill_spec space : forall out w,
  ring_inv (tx w) -> ring_empty (tx w) = false ->
  let k := frame_length (negotiated_mtu w - Z.of_nat (length out))
                        (contents (tx w)) in
  (k <= space)%nat ->
  exists ring',
    flush_fill space out w
      = Ok (out ++ take k (contents (tx w)), set_tx ring' w)
    /\ ring_inv ring'
    /\ contents ring' = drop k (contents (tx w)).
Proof.
  induction space as [|space IH]; intros out w Hinv Hne k Hk.
  - exfalso. subst k. unfold frame_length in Hk.
    destruct (contents (tx w)) eqn:E.
    + apply (ring_empty_contents _ Hinv) in E. congruence.
    + cbn [length] in Hk. lia.
  - destruct (ring_pop_contents _ Hinv Hne) as (b & r1 & Hpop & Hinv1 & Hc).
    cbn [flush_fill]. unfold mbind, M_bind, tx_pop. rewrite Hpop.
    unfold gets at 1. cbn [negotiated_mtu set_tx].
    subst k. rewrite Hc in *. unfold frame_length in *.
    cbn [length] in *. rewrite length_app. cbn [length].
    destruct (Z.geb_spec (Z.of_nat (length out + 1)) (negotiated_mtu w))
      as [Hge|Hlt].
    + exists r1.
      replace (Z.to_nat _) with 1%nat by lia.
      cbn [take drop]. rewrite take_0, drop_0. auto.
    + unfold gets. cbn [tx set_tx].
      destruct (ring_empty r1) eqn:E1.
      * apply (ring_empty_contents _ Hinv1) in E1. rewrite E1 in *.
        exists r1. cbn [length]. replace (Z.to_nat _) with 1%nat by lia.
        cbn [take drop]. rewrite E1. auto.
      * destruct (IH (out ++ [b]) (set_tx r1 w)) as (r2 & Hfill & Hinv2 & Hc2).
        { exact Hinv1. } { exact E1. }
        { cbn [negotiated_mtu set_tx tx]. rewrite length_app. cbn [length].
          unfold frame_length. lia. }
        exists r2. rewrite Hfill. cbn [negotiated_mtu set_tx tx] in *.
        rewrite length_app in *. cbn [length] in *.
        unfold frame_length in *.
        replace (Z.to_nat (Z.min (Z.max 1 (negotiated_mtu w - Z.of_nat (length out)))
                    (Z.of_nat (S (length (contents r1))))))
          with (S (Z.to_nat (Z.min (Z.max 1 (negotiated_mtu w - Z.of_nat (length out + 1)))
                    (Z.of_nat (length (contents r1)))))) by lia.
        cbn [take drop]. rewrite <- app_assoc. cbn [app].
        split; [reflexivity|]. auto.
Qed.
Lemma hvx_tolerated_ok err :
  hvx_tolerated err = true -> err <> NRF_ERROR_RESOURCES ->
  (if (err =? NRF_ERROR_INVALID_STATE) || (err =? BLE_ERROR_INVALID_CONN_HANDLE)
   then mret tt else NRFX_ASSERT (err =? 0))
  = (mret tt : M unit).
Proof.
  unfold hvx_tolerated, NRF_SUCCESS. intros Ht Hne.
  destruct (Z.eqb_spec err NRF_ERROR_RESOURCES); [contradiction|].
  destruct (err =? NRF_ERROR_INVALID_STATE);
    destruct (err =? BLE_ERROR_INVALID_CONN_HANDLE); trivial.
  rewrite !orb_false_r in Ht. now rewrite Ht.
Qed.

(** One [ble_flush_tx] on a transmit ring that is not empty: one frame,
    the oldest [frame_length] bytes, handed to [sd_ble_gatts_hvx] once
    and once more for each [NRF_ERROR_RESOURCES] answer. *)
Lemma ble_flush_tx_spec w :
  ring_inv (tx w) -> ring_empty (tx w) = false ->
  negotiated_mtu w <= MAX_MTU_LENGTH ->
  forallb hvx_tolerated (sd_replies w) = true ->
  let k := frame_length (negotiated_mtu w) (contents (tx w)) in
  exists ring' n replies',
    ble_flush_tx w
      = Ok (tt, set_softdevice
                  (sd_calls w
                   ++ replicate (S n)
                        (Sd_ble_gatts_hvx (connection w) (tx_value_handle w)
                                          (take k (contents (tx w)))))
                  replies' (set_tx ring' w))
    /\ ring_inv ring'
    /\ contents ring' = drop k (contents (tx w))
    /\ forallb hvx_tolerated replies' = true
    /\ (sd_replies w = [] -> n = 0%nat /\ replies' = []).
Proof.
  intros Hinv Hne Hmtu Hok k.
  destruct (flush_fill_spec (Z.to_nat MAX_MTU_LENGTH) [] w Hinv Hne)
    as (r1 & Hfill & Hinv1 & Hc1).
  { cbn [length]. unfold frame_length, MAX_MTU_LENGTH in *. lia. }
  cbn [length] in Hfill, Hc1. rewrite Z.sub_0_r in Hfill, Hc1.
  fold k in Hfill, Hc1. cbn [app] in Hfill.
  destruct (hvx_retry_spec
              (Sd_ble_gatts_hvx (connection w) (tx_value_handle w)
                 (take k (contents (tx w))))
              (sd_replies w) (sd_calls w) Hok)
    as (err & n & replies' & Hr & Ht & Hn & Hf & H0).
  exists r1, n, replies'.
  split; [|auto].
  unfold ble_flush_tx, mbind, M_bind, gets. rewrite Hne, Hfill.
  unfold hvx_send. cbn [connection tx_value_handle sd_calls sd_replies set_tx].
  rewrite Hr. rewrite (hvx_tolerated_ok _ Ht Hn). reflexivity.
Qed.

Lemma write_loop_spec data : forall w,
  ring_inv (rx w) ->
  let room := Z.to_nat (RING_BUFFER_LENGTH - 1
                        - Z.of_nat (length (contents (rx w)))) in
  exists ring',
    write_loop data w = Ok (tt, set_rx ring' w)
    /\ ring_inv ring'
    /\ contents ring' = contents (rx w) ++ take room data.
Proof.
  induction data as [|b data IH]; intros w Hinv room; cbn [write_loop].
  - exists (rx w). rewrite take_nil, app_nil_r. destruct w; auto.
  - unfold mbind, M_bind, gets.
    pose proof (contents_bound _ Hinv) as Hb.
    destruct (ring_full (rx w)) eqn:Efull.
    + apply (ring_full_contents _ Hinv) in Efull.
      exists (rx w). subst room. replace (Z.to_nat _) with 0%nat by lia.
      rewrite take_0, app_nil_r. destruct w; auto.
    + destruct (ring_push_contents _ b Hinv Efull) as (r1 & Hpush & Hinv1 & Hc1).
      unfold rx_push. rewrite Hpush.
      destruct (IH (set_rx r1 w) Hinv1) as (r2 & Hw & Hinv2 & Hc2).
      exists r2. rewrite Hw. cbn [rx set_rx] in *.
      split; [reflexivity|]. split; [exact Hinv2|].
      rewrite Hc2, Hc1, length_app, <- app_assoc. cbn [length app].
      assert (Hnf : Z.of_nat (length (contents (rx w))) <> RING_BUFFER_LENGTH - 1).
      { intros E. apply (ring_full_contents _ Hinv) in E. congruence. }
      subst room.
      replace (Z.to_nat (RING_BUFFER_LENGTH - 1 - Z.of_nat (length (contents (rx w)))))
        with (S (Z.to_nat (RING_BUFFER_LENGTH - 1
                           - Z.of_nat (length (contents (rx w)) + 1)))) by lia.
      reflexivity.
Qed.

Lemma write_loop_frame data : forall w w',
  write_loop data w = Ok (tt, w') -> exists ring', w' = set_rx ring' w.
Proof.
  induction data as [|b data IH]; intros w w' Hrun; cbn [write_loop] in Hrun.
  - injection Hrun as <-. exists (rx w). now destruct w.
  - unfold mbind, M_bind, gets, rx_push in Hrun.
    destruct (ring_full (rx w)).
    + injection Hrun as <-. exists (rx w). now destruct w.
    + destruct (ring_push (rx w) b) as [r1|]; [|discriminate].
      apply IH in Hrun as [r2 ->]. now exists r2.
Qed.

Lemma keeps_mtu_ret {A} (a : A) : keeps_mtu (mret a).
Proof. intros w a' w' E. injection E as <- <-. reflexivity. Qed.

Lemma keeps_mtu_bind {A B} (m : M A) (k : A -> M B) :
  keeps_mtu m -> (forall a, keeps_mtu (k a)) -> keeps_mtu (m ≫= k).
Proof.
  intros Hm Hk w b w' E. unfold mbind, M_bind in E.
  destruct (m w) as [[a w1]|] eqn:E1; [|discriminate].
  rewrite (Hk a _ _ _ E). exact (Hm _ _ _ E1).
Qed.

Lemma keeps_mtu_sd c : keeps_mtu (sd c).
Proof.
  intros w a w' E. unfold sd in E.
  destruct (sd_replies w); injection E as <- <-; reflexivity.
Qed.

Lemma keeps_mtu_assert b : keeps_mtu (NRFX_ASSERT b).
Proof.
  intros w a w' E. destruct b; [|discriminate]. injection E as <- <-. reflexivity.
Qed.

Lemma keeps_mtu_gets {A} (proj : world -> A) : keeps_mtu (gets proj).
Proof. intros w a w' E. injection E as <- <-. reflexivity. Qed.

Lemma keeps_mtu_connection c : keeps_mtu (modify (set_connection c)).
Proof. intros w a w' E. injection E as <- <-. reflexivity. Qed.

Lemma keeps_mtu_write data : keeps_mtu (write_loop data).
Proof.
  intros w [] w' E. now apply write_loop_frame in E as [r ->].
Qed.

Create HintDb keeps.

#[local] Hint Resolve keeps_mtu_ret keeps_mtu_sd keeps_mtu_assert
  keeps_mtu_gets keeps_mtu_connection keeps_mtu_write : keeps.

Lemma handle_keeps_mtu e :
  is_mtu_request e = false -> keeps_mtu (handle_ble_evt e).
Proof.
  intros He. destruct e; try discriminate He; cbn [handle_ble_evt];
    repeat (apply keeps_mtu_bind; [|intros ?]); auto with keeps.
Qed.

Lemma irq_keeps_mtu pending : forall w w',
  forallb (fun e => negb (is_mtu_request e)) pending = true ->
  SWI2_IRQHandler pending w = Ok (tt, w') ->
  negotiated_mtu w' = negotiated_mtu w.
Proof.
  induction pending as [|e pending IH]; intros w w' Hno Hrun;
    cbn [SWI2_IRQHandler] in Hrun.
  - now injection Hrun as <-.
  - cbn [forallb] in Hno. apply andb_true_iff in Hno as [He Hno].
    apply negb_true_iff in He.
    unfold mbind, M_bind in Hrun.
    destruct (handle_ble_evt e w) as [[[] w1]|] eqn:E1; [|discriminate].
    rewrite (IH _ _ Hno Hrun). exact (handle_keeps_mtu _ He _ _ _ E1).
Qed.

End BleFacts.

(** * The claims about the ring buffer and the BLE driver *)

Import Ring Ble RingFacts BleFacts.

Ltac ring_inv_by_computation :=
  split; [vm_compute; reflexivity|];
  split; (split; [apply Z.leb_le | apply Z.ltb_lt]; vm_compute; reflexivity).

(** C1. An MTU exchange request is answered with [MAX_MTU_LENGTH], and
    once the SoftDevice accepts the reply the handler stores
    [min(MAX_MTU_LENGTH, client_rx_mtu) - 3] in the [uint16_t]
    [negotiated_mtu]: for a requested MTU of at least 3 that is the
    difference itself, 61 for a request of 64 and 125 for a request of
    512; for a request below 3 the subtraction wraps around and
    [client_rx_mtu + 65533] is stored. Nothing but [negotiated_mtu] and
    the SoftDevice log changes, so a link stays connected. *)
Theorem C1_mtu_exchange (w : world) (conn_handle client_rx_mtu : Z) :
  0 <= client_rx_mtu < 65536 ->
  hd NRF_SUCCESS (sd_replies w) = NRF_SUCCESS ->
  exists w',
    handle_ble_evt
      (BLE_GATTS_EVT_EXCHANGE_MTU_REQUEST conn_handle client_rx_mtu) w
      = Ok (tt, w')
    /\ negotiated_mtu w' = uint16 (Z.min MAX_MTU_LENGTH client_rx_mtu - 3)
    /\ (3 <= client_rx_mtu ->
        negotiated_mtu w' = Z.min MAX_MTU_LENGTH client_rx_mtu - 3)
    /\ (client_rx_mtu = 64 -> negotiated_mtu w' = 61)
    /\ (client_rx_mtu = 512 -> negotiated_mtu w' = 125)
    /\ (client_rx_mtu < 3 ->
        negotiated_mtu w' = client_rx_mtu + 65533
        /\ negotiated_mtu w' <> Z.min MAX_MTU_LENGTH client_rx_mtu - 3
        /\ MAX_MTU_LENGTH < negotiated_mtu w')
    /\ sd_calls w'
       = sd_calls w
         ++ [Sd_ble_gatts_exchange_mtu_reply conn_handle MAX_MTU_LENGTH]
    /\ rx w' = rx w /\ tx w' = tx w /\ connection w' = connection w.
Proof.
  intros Hmtu Hreply.
  assert (Hmin : (if MAX_MTU_LENGTH <? client_rx_mtu
                  then MAX_MTU_LENGTH - 3 else client_rx_mtu - 3)
                 = Z.min MAX_MTU_LENGTH client_rx_mtu - 3).
  { unfold MAX_MTU_LENGTH. destruct (Z.ltb_spec 128 client_rx_mtu); lia. }
  assert (Hge : 3 <= client_rx_mtu ->
                uint16 (Z.min MAX_MTU_LENGTH client_rx_mtu - 3)
                = Z.min MAX_MTU_LENGTH client_rx_mtu - 3).
  { intros H3. unfold MAX_MTU_LENGTH. rewrite uint16_small; lia. }
  assert (Hlt : client_rx_mtu < 3 ->
                uint16 (Z.min MAX_MTU_LENGTH client_rx_mtu - 3)
                = client_rx_mtu + 65533).
  { intros H3. unfold MAX_MTU_LENGTH.
    replace (Z.min 128 client_rx_mtu - 3)
      with (client_rx_mtu + 65533 + -1 * 65536) by lia.
    unfold uint16. rewrite Z.mod_add by lia. apply Z.mod_small. lia. }
  assert (Hall : forall m,
            m = uint16 (Z.min MAX_MTU_LENGTH client_rx_mtu - 3) ->
            (3 <= client_rx_mtu -> m = Z.min MAX_MTU_LENGTH client_rx_mtu - 3)
            /\ (client_rx_mtu = 64 -> m = 61)
            /\ (client_rx_mtu = 512 -> m = 125)
            /\ (client_rx_mtu < 3 ->
                m = client_rx_mtu + 65533
                /\ m <> Z.min MAX_MTU_LENGTH client_rx_mtu - 3
                /\ MAX_MTU_LENGTH < m)).
  { intros m ->. split; [exact Hge|].
    split; [intros ->; reflexivity|]. split; [intros ->; reflexivity|].
    intros H3. rewrite (Hlt H3). unfold MAX_MTU_LENGTH. lia. }
  cbn [handle_ble_evt]. unfold mbind, M_bind, sd, modify. rewrite Hmin.
  destruct (sd_replies w) as [|err rest] eqn:E; cbn [hd] in Hreply;
    [|subst err]; (eexists; split; [reflexivity|]);
    cbn [negotiated_mtu set_negotiated_mtu set_softdevice sd_calls rx tx
         connection];
    (split; [reflexivity|]);
    destruct (Hall _ eq_refl) as (H1 & H2 & H3 & H4); auto 10.
Qed.

(** The theorem on a connected link, at a request of 0, where 65533 is
    stored and not [min(128, 0) - 3], and at a request of 64. *)
Lemma C1_mtu_exchange_witness :
  connection (world_after [BLE_GAP_EVT_CONNECTED 1] (world_init [])) = 1
  /\ (exists w',
        handle_ble_evt (BLE_GATTS_EVT_EXCHANGE_MTU_REQUEST 1 0)
          (world_after [BLE_GAP_EVT_CONNECTED 1] (world_init []))
        = Ok (tt, w')
        /\ connection w' = 1
        /\ negotiated_mtu w' = 65533
        /\ negotiated_mtu w' <> Z.min MAX_MTU_LENGTH 0 - 3
        /\ MAX_MTU_LENGTH < negotiated_mtu w')
  /\ (exists w',
        handle_ble_evt (BLE_GATTS_EVT_EXCHANGE_MTU_REQUEST 1 64)
          (world_after [BLE_GAP_EVT_CONNECTED 1] (world_init []))
        = Ok (tt, w')
        /\ connection w' = 1
        /\ negotiated_mtu w' = Z.min MAX_MTU_LENGTH 64 - 3
        /\ negotiated_mtu w' = 61).
Proof.
  split; [reflexivity|]. split.
  - destruct (C1_mtu_exchange
                (world_after [BLE_GAP_EVT_CONNECTED 1] (world_init [])) 1 0)
      as (w' & Hrun & _ & _ & _ & _ & Hlow & _ & _ & _ & Hconn);
      [lia | reflexivity |].
    destruct Hlow as (Hv & Hne & Hbig); [lia|].
    exists w'. split; [exact Hrun|]. split; [exact Hconn|].
    split; [exact Hv|]. split; [exact Hne | exact Hbig].
  - destruct (C1_mtu_exchange
                (world_after [BLE_GAP_EVT_CONNECTED 1] (world_init [])) 1 64)
      as (w' & Hrun & _ & Hge & H64 & _ & _ & _ & _ & _ & Hconn);
      [lia | reflexivity |].
    exists w'. split; [exact Hrun|]. split; [exact Hconn|].
    split; [apply Hge; lia | apply H64; reflexivity].
Defined.

(** C3. For every sequence of at least one and at most
    [RING_BUFFER_LENGTH - 1] bytes pushed into a ring that reports empty,
    whatever the position of its indices, every push is in bounds, the
    ring reports not empty after the pushes, as many pops return exactly
    those bytes, oldest first, and the ring then reports empty. *)
Theorem C3_fifo (ring : ring_buf_t) (l : list Byte.byte) :
  ring_inv ring -> ring_empty ring = true ->
  l <> [] -> Z.of_nat (length l) <= RING_BUFFER_LENGTH - 1 ->
  exists ring1 ring2,
    push_all ring l = Ok ring1
    /\ ring_empty ring1 = false
    /\ pop_n ring1 (length l) = Ok (l, ring2)
    /\ ring_empty ring2 = true.
Proof.
  intros Hinv Hempty Hne Hlen.
  apply (ring_empty_contents _ Hinv) in Hempty.
  destruct (push_all_contents l ring Hinv) as (r1 & Hpush & Hinv1 & Hc1).
  { rewrite Hempty. cbn [length]. lia. }
  rewrite Hempty in Hc1. cbn [app] in Hc1.
  destruct (pop_n_contents (length l) r1 Hinv1) as (r2 & Hpop & Hinv2 & He2).
  { now rewrite Hc1. }
  exists r1, r2. rewrite Hc1 in Hpop. repeat split; trivial.
  apply (ring_not_empty _ Hinv1). now rewrite Hc1.
Qed.

(** The FIFO theorem on the zero-initialised ring and five bytes. *)
Lemma C3_fifo_witness :
  ring_inv ring_zero
  /\ ring_empty ring_zero = true
  /\ example_bytes <> []
  /\ Z.of_nat (length example_bytes) <= RING_BUFFER_LENGTH - 1
  /\ exists ring1 ring2,
       push_all ring_zero example_bytes = Ok ring1
       /\ ring_empty ring1 = false
       /\ pop_n ring1 (length example_bytes) = Ok (example_bytes, ring2)
       /\ ring_empty ring2 = true.
Proof.
  assert (H1 : ring_inv ring_zero) by ring_inv_by_computation.
  assert (H2 : ring_empty ring_zero = true) by reflexivity.
  assert (H3 : example_bytes <> []) by discriminate.
  assert (H4 : Z.of_nat (length example_bytes) <= RING_BUFFER_LENGTH - 1)
    by (vm_compute; discriminate).
  repeat (split; [assumption|]).
  exact (C3_fifo ring_zero example_bytes H1 H2 H3 H4).
Defined.

(** C4, as amended. [negotiated_mtu] has no default and no event but an
    MTU exchange request writes it: whatever other events are handled,
    connections and disconnections included, it keeps the value it had,
    and [ble_flush_tx] on a transmit ring that is not empty frames the
    oldest [min (max 1 negotiated_mtu) held] bytes per call. With the zero
    of start-up that is exactly one byte; on a fresh connection after an
    earlier link negotiated it is up to the earlier link's value. *)
Theorem C4_mtu_before_exchange
    (pending : list ble_evt_t) (w0 w : world) (ring : ring_buf_t) :
  forallb (fun e => negb (is_mtu_request e)) pending = true ->
  SWI2_IRQHandler pending w0 = Ok (tt, w) ->
  ring_inv ring -> ring_empty ring = false ->
  forallb hvx_tolerated (sd_replies w) = true ->
  negotiated_mtu w0 <= MAX_MTU_LENGTH ->
  negotiated_mtu w = negotiated_mtu w0
  /\ (exists ring' n replies',
        ble_flush_tx (set_tx ring w)
        = Ok (tt, set_softdevice
                    (sd_calls w
                     ++ replicate (S n)
                          (Sd_ble_gatts_hvx (connection w)
                             (tx_value_handle w)
                             (take (frame_length (negotiated_mtu w0)
                                      (contents ring))
                                   (contents ring))))
                    replies' (set_tx ring' w))
        /\ contents ring'
           = drop (frame_length (negotiated_mtu w0) (contents ring))
                  (contents ring))
  /\ Z.of_nat (frame_length (negotiated_mtu w0) (contents ring))
     = Z.min (Z.max 1 (negotiated_mtu w0)) (Z.of_nat (length (contents ring)))
  /\ (negotiated_mtu w0 = 0 ->
      negotiated_mtu w = 0
      /\ exists byte rest ring' n replies',
           contents ring = byte :: rest
           /\ ble_flush_tx (set_tx ring w)
              = Ok (tt, set_softdevice
                          (sd_calls w
                           ++ replicate (S n)
                                (Sd_ble_gatts_hvx (connection w)
                                   (tx_value_handle w) [byte]))
                          replies' (set_tx ring' w))
           /\ contents ring' = rest).
Proof.
  intros Hno Hrun Hinv Hne Hok Hmax.
  assert (Hmtu : negotiated_mtu w = negotiated_mtu w0)
    by exact (irq_keeps_mtu _ _ _ Hno Hrun).
  split; [exact Hmtu|].
  destruct (ble_flush_tx_spec (set_tx ring w))
    as (r' & n & rep' & Hf & Hinv' & Hc & _); trivial.
  { cbn [negotiated_mtu set_tx]. rewrite Hmtu. exact Hmax. }
  cbn [negotiated_mtu set_tx tx connection tx_value_handle sd_calls] in Hf, Hc.
  rewrite Hmtu in Hf, Hc.
  split; [exists r', n, rep'; auto|].
  split.
  { unfold frame_length. rewrite Z2Nat.id; [reflexivity | lia]. }
  intros H0. split; [congruence|]. rewrite H0 in Hf, Hc.
  destruct (contents ring) as [|byte rest] eqn:E.
  { apply (ring_empty_contents _ Hinv) in E. congruence. }
  replace (frame_length 0 (byte :: rest)) with 1%nat in Hf, Hc
    by (unfold frame_length; cbn [length]; lia).
  cbn [take drop] in Hf, Hc. rewrite take_0 in Hf. rewrite drop_0 in Hc.
  exists byte, rest, r', n, rep'. auto.
Qed.

(** The theorem from start-up, after a connection, a write, a
    disconnection and a second connection, with five bytes to transmit;
    and on a second connection after a first that negotiated 125, with
    30 bytes to transmit. *)
Lemma C4_mtu_before_exchange_witness :
  (forallb (fun e => negb (is_mtu_request e)) example_events = true
   /\ SWI2_IRQHandler example_events (world_init [])
      = Ok (tt, world_after example_events (world_init []))
   /\ ring_inv (ring_of example_bytes)
   /\ ring_empty (ring_of example_bytes) = false
   /\ forallb hvx_tolerated
        (sd_replies (world_after example_events (world_init []))) = true
   /\ negotiated_mtu (world_after example_events (world_init [])) = 0
   /\ exists byte rest ring' n replies',
        contents (ring_of example_bytes) = byte :: rest
        /\ ble_flush_tx
             (set_tx (ring_of example_bytes)
                (world_after example_events (world_init [])))
           = Ok (tt, set_softdevice
                       (sd_calls (world_after example_events (world_init []))
                        ++ replicate (S n)
                             (Sd_ble_gatts_hvx
                                (connection
                                   (world_after example_events (world_init [])))
                                (tx_value_handle
                                   (world_after example_events (world_init [])))
                                [byte]))
                       replies'
                       (set_tx ring'
                          (world_after example_events (world_init []))))
        /\ contents ring' = rest)
  /\ (forallb (fun e => negb (is_mtu_request e)) reconnect_events = true
      /\ negotiated_mtu (world_after negotiated_events (world_init [])) = 125
      /\ connection
           (world_after reconnect_events
              (world_after negotiated_events (world_init []))) = 2
      /\ negotiated_mtu
           (world_after reconnect_events
              (world_after negotiated_events (world_init [])))
         = negotiated_mtu (world_after negotiated_events (world_init []))
      /\ exists ring' n replies',
           ble_flush_tx
             (set_tx (ring_of (replicate 30 Byte.x41))
                (world_after reconnect_events
                   (world_after negotiated_events (world_init []))))
           = Ok (tt, set_softdevice
                       (sd_calls
                          (world_after reconnect_events
                             (world_after negotiated_events (world_init [])))
                        ++ replicate (S n)
                             (Sd_ble_gatts_hvx 2 0 (replicate 30 Byte.x41)))
                       replies'
                       (set_tx ring'
                          (world_after reconnect_events
                             (world_after negotiated_events (world_init [])))))
           /\ contents ring' = []).
Proof.
  split.
  - assert (H1 : forallb (fun e => negb (is_mtu_request e)) example_events
                 = true) by reflexivity.
    assert (H2 : SWI2_IRQHandler example_events (world_init [])
                 = Ok (tt, world_after example_events (world_init [])))
      by (vm_compute; reflexivity).
    assert (H3 : ring_inv (ring_of example_bytes)) by ring_inv_by_computation.
    assert (H4 : ring_empty (ring_of example_bytes) = false)
      by (vm_compute; reflexivity).
    assert (H5 : forallb hvx_tolerated
                   (sd_replies (world_after example_events (world_init [])))
                 = true) by (vm_compute; reflexivity).
    assert (H6 : negotiated_mtu (world_init []) <= MAX_MTU_LENGTH)
      by (vm_compute; discriminate).
    repeat (split; [assumption|]).
    exact (proj2 (proj2 (proj2
             (C4_mtu_before_exchange _ _ _ _ H1 H2 H3 H4 H5 H6))) eq_refl).
  - assert (H1 : forallb (fun e => negb (is_mtu_request e)) reconnect_events
                 = true) by reflexivity.
    assert (H2 : SWI2_IRQHandler reconnect_events
                   (world_after negotiated_events (world_init []))
                 = Ok (tt, world_after reconnect_events
                             (world_after negotiated_events (world_init []))))
      by (vm_compute; reflexivity).
    assert (H3 : ring_inv (ring_of (replicate 30 Byte.x41)))
      by ring_inv_by_computation.
    assert (H4 : ring_empty (ring_of (replicate 30 Byte.x41)) = false)
      by (vm_compute; reflexivity).
    assert (H5 : forallb hvx_tolerated
                   (sd_replies
                      (world_after reconnect_events
                         (world_after negotiated_events (world_init []))))
                 = true) by (vm_compute; reflexivity).
    assert (H6 : negotiated_mtu (world_after negotiated_events (world_init []))
                 <= MAX_MTU_LENGTH) by (vm_compute; discriminate).
    destruct (C4_mtu_before_exchange _ _ _ _ H1 H2 H3 H4 H5 H6)
      as (Hkeep & Hflush & _ & _).
    split; [exact H1|]. split; [vm_compute; reflexivity|].
    split; [vm_compute; reflexivity|]. split; [exact Hkeep|].
    exact Hflush.
Defined.

(** C4 as stated fails in both of its cases. At start-up
    [negotiated_mtu] is 0, not a value equivalent to the default MTU of
    23, and with 20 bytes waiting a flush sends a frame of one byte, not
    of 20. On a second connection, before any MTU exchange on it and
    after a first link that negotiated, [negotiated_mtu] is still the
    125 of the first link, and with 30 bytes waiting a flush sends a
    frame of 30 bytes, more than the 20 of the default. *)
Lemma C4_counterexample :
  (negotiated_mtu (world_init []) = 0
   /\ length (contents (tx world_20)) = 20%nat
   /\ exists w',
        ble_flush_tx world_20 = Ok (tt, w')
        /\ hvx_payloads (sd_calls w') = [[Byte.x41]])
  /\ (SWI2_IRQHandler (negotiated_events ++ reconnect_events) (world_init [])
      = Ok (tt, world_after reconnect_events
                  (world_after negotiated_events (world_init [])))
      /\ connection
           (world_after reconnect_events
              (world_after negotiated_events (world_init []))) = 2
      /\ negotiated_mtu
           (world_after reconnect_events
              (world_after negotiated_events (world_init []))) = 125
      /\ exists w',
           ble_flush_tx
             (set_tx (ring_of (replicate 30 Byte.x41))
                (world_after reconnect_events
                   (world_after negotiated_events (world_init []))))
           = Ok (tt, w')
           /\ hvx_payloads (sd_calls w') = [replicate 30 Byte.x41]
           /\ (20 < length (replicate 30 Byte.x41))%nat).
Proof.
  split.
  - split; [reflexivity|]. split; [vm_compute; reflexivity|].
    eexists. split; vm_compute; reflexivity.
  - split; [vm_compute; reflexivity|]. split; [vm_compute; reflexivity|].
    split; [vm_compute; reflexivity|].
    eexists. split; [vm_compute; reflexivity|].
    split; [vm_compute; reflexivity|]. rewrite length_replicate. lia.
Qed.

(** C5, as amended. With [negotiated_mtu] between 1 and [MAX_MTU_LENGTH]
    and a SoftDevice answering [sd_ble_gatts_hvx] with nothing but
    success, [NRF_ERROR_RESOURCES], [NRF_ERROR_INVALID_STATE] or
    [BLE_ERROR_INVALID_CONN_HANDLE], a call of [ble_flush_tx] on a
    transmit ring that is not empty hands exactly one frame to the
    SoftDevice (again for every [NRF_ERROR_RESOURCES]): the oldest bytes
    of the ring, at most [negotiated_mtu] of them, popped until the ring is
    empty or the frame is full. Consequently, when [negotiated_mtu] is at
    least 5 and the ring holds exactly [negotiated_mtu * 2 + 5] bytes,
    exactly three calls drain it: the ring is not empty after the first
    and the second call and empty after the third, and the frames are the
    first [negotiated_mtu] bytes, the next [negotiated_mtu] bytes and the
    last 5 bytes. *)
Theorem C5_flush_drain (w : world) :
  ring_inv (tx w) ->
  1 <= negotiated_mtu w <= MAX_MTU_LENGTH ->
  forallb hvx_tolerated (sd_replies w) = true ->
  let held := contents (tx w) in
  let mtu := Z.to_nat (negotiated_mtu w) in
  let hvx := Sd_ble_gatts_hvx (connection w) (tx_value_handle w) in
  (ring_empty (tx w) = false ->
   exists ring' n replies',
     ble_flush_tx w
     = Ok (tt, set_softdevice
                 (sd_calls w ++ replicate (S n) (hvx (take mtu held)))
                 replies' (set_tx ring' w))
     /\ (1 <= length (take mtu held) <= mtu)%nat
     /\ contents ring' = drop mtu held
     /\ (ring_empty ring' = true \/ length (take mtu held) = mtu))
  /\ (5 <= negotiated_mtu w ->
      Z.of_nat (length held) = negotiated_mtu w * 2 + 5 ->
      exists w1 w2 w3 n1 n2 n3,
        ble_flush_tx w = Ok (tt, w1)
        /\ ble_flush_tx w1 = Ok (tt, w2)
        /\ ble_flush_tx w2 = Ok (tt, w3)
        /\ ring_empty (tx w1) = false
        /\ ring_empty (tx w2) = false
        /\ ring_empty (tx w3) = true
        /\ sd_calls w1 = sd_calls w ++ replicate (S n1) (hvx (take mtu held))
        /\ sd_calls w2
           = sd_calls w1 ++ replicate (S n2) (hvx (take mtu (drop mtu held)))
        /\ sd_calls w3
           = sd_calls w2 ++ replicate (S n3) (hvx (drop (mtu + mtu) held))
        /\ length (take mtu held) = mtu
        /\ length (take mtu (drop mtu held)) = mtu
        /\ length (drop (mtu + mtu) held) = 5%nat
        /\ (sd_replies w = [] -> n1 = 0%nat /\ n2 = 0%nat /\ n3 = 0%nat)).
Proof.
  intros Hinv Hmtu Hok held mtu hvx. split.
  { intros Hne.
    destruct (ble_flush_tx_spec w Hinv Hne (proj2 Hmtu) Hok)
      as (r1 & n1 & rep1 & Hf1 & Hinv1 & Hc1 & _).
    fold held in Hf1, Hc1. fold hvx in Hf1.
    assert (Hheld : held <> []).
    { intros E. apply (ring_empty_contents _ Hinv) in E. congruence. }
    assert (Hlen : (0 < length held)%nat)
      by (destruct held; [congruence | cbn [length]; lia]).
    assert (Htake : take (frame_length (negotiated_mtu w) held) held
                    = take mtu held).
    { unfold frame_length. destruct (Z_le_gt_dec (negotiated_mtu w)
                                       (Z.of_nat (length held))).
      - f_equal. lia.
      - rewrite !take_ge by lia. reflexivity. }
    assert (Hdrop : drop (frame_length (negotiated_mtu w) held) held
                    = drop mtu held).
    { unfold frame_length. destruct (Z_le_gt_dec (negotiated_mtu w)
                                       (Z.of_nat (length held))).
      - f_equal. lia.
      - rewrite !drop_ge by lia. reflexivity. }
    rewrite Htake in Hf1. rewrite Hdrop in Hc1.
    exists r1, n1, rep1. split; [exact Hf1|].
    split; [rewrite length_take; lia|]. split; [exact Hc1|].
    destruct (Z_le_gt_dec (negotiated_mtu w) (Z.of_nat (length held))).
    - right. rewrite length_take. lia.
    - left. apply (ring_empty_contents _ Hinv1). rewrite Hc1.
      apply drop_ge. lia. }
  intros Hmtu5 Hlen.
  assert (Hne : ring_empty (tx w) = false).
  { apply (ring_not_empty _ Hinv). intros E. fold held in E.
    rewrite E in Hlen. cbn [length] in Hlen. lia. }
  destruct (ble_flush_tx_spec w Hinv Hne (proj2 Hmtu) Hok)
    as (r1 & n1 & rep1 & Hf1 & Hinv1 & Hc1 & Hok1 & Hz1).
  fold held in Hf1, Hc1.
  replace (frame_length (negotiated_mtu w) held) with mtu
    in Hf1, Hc1 by (unfold frame_length; lia).
  fold hvx in Hf1.
  set (w1 := set_softdevice _ rep1 (set_tx r1 w)) in Hf1.
  assert (Hl1 : length (contents r1) = (mtu + 5)%nat)
    by (rewrite Hc1, length_drop; lia).
  assert (Hne1 : ring_empty (tx w1) = false).
  { apply (ring_not_empty _ Hinv1). intros E. rewrite E in Hl1.
    cbn [length] in Hl1. lia. }
  destruct (ble_flush_tx_spec w1 Hinv1 Hne1 (proj2 Hmtu) Hok1)
    as (r2 & n2 & rep2 & Hf2 & Hinv2 & Hc2 & Hok2 & Hz2).
  cbn [tx negotiated_mtu connection tx_value_handle sd_calls sd_replies
       set_softdevice set_tx w1] in Hf2, Hc2, Hz2.
  replace (frame_length (negotiated_mtu w) (contents r1)) with mtu
    in Hf2, Hc2 by (unfold frame_length; lia).
  rewrite Hc1 in Hf2 at 1. fold hvx in Hf2.
  set (w2 := set_softdevice _ rep2 (set_tx r2 _)) in Hf2.
  assert (Hl2 : length (contents r2) = 5%nat)
    by (rewrite Hc2, length_drop; lia).
  assert (Hne2 : ring_empty (tx w2) = false).
  { apply (ring_not_empty _ Hinv2). intros E. rewrite E in Hl2.
    discriminate Hl2. }
  destruct (ble_flush_tx_spec w2 Hinv2 Hne2 (proj2 Hmtu) Hok2)
    as (r3 & n3 & rep3 & Hf3 & Hinv3 & Hc3 & Hok3 & Hz3).
  cbn [tx negotiated_mtu connection tx_value_handle sd_calls sd_replies
       set_softdevice set_tx w1 w2] in Hf3, Hc3, Hz3.
  replace (frame_length (negotiated_mtu w) (contents r2)) with 5%nat
    in Hf3, Hc3 by (unfold frame_length; lia).
  rewrite (take_ge (contents r2)) in Hf3 by lia.
  rewrite Hc2, Hc1, drop_drop in Hf3. fold hvx in Hf3.
  set (w3 := set_softdevice _ rep3 (set_tx r3 _)) in Hf3.
  exists w1, w2, w3, n1, n2, n3.
  split; [exact Hf1|]. split; [exact Hf2|]. split; [exact Hf3|].
  split; [exact Hne1|]. split; [exact Hne2|].
  split.
  { apply (ring_empty_contents _ Hinv3). rewrite Hc3.
    apply drop_ge. lia. }
  split; [reflexivity|]. split; [reflexivity|]. split; [reflexivity|].
  split; [rewrite length_take; lia|].
  split; [rewrite length_take, length_drop; lia|].
  split; [rewrite length_drop; lia|].
  intros E. destruct (Hz1 E) as [-> E1]. destruct (Hz2 E1) as [-> E2].
  destruct (Hz3 E2) as [-> _]. auto.
Qed.

(** The drain theorem with an MTU of 6 and 17 bytes waiting. *)
Lemma C5_flush_drain_witness :
  ring_inv (tx world_17)
  /\ 1 <= negotiated_mtu world_17 <= MAX_MTU_LENGTH
  /\ forallb hvx_tolerated (sd_replies world_17) = true
  /\ ring_empty (tx world_17) = false
  /\ 5 <= negotiated_mtu world_17
  /\ Z.of_nat (length (contents (tx world_17)))
     = negotiated_mtu world_17 * 2 + 5
  /\ (exists ring' n replies',
        ble_flush_tx world_17
        = Ok (tt, set_softdevice
                    (sd_calls world_17
                     ++ replicate (S n)
                          (Sd_ble_gatts_hvx (connection world_17)
                             (tx_value_handle world_17)
                             (take 6 (contents (tx world_17)))))
                    replies' (set_tx ring' world_17))
        /\ (1 <= length (take 6 (contents (tx world_17))) <= 6)%nat
        /\ contents ring' = drop 6 (contents (tx world_17))
        /\ (ring_empty ring' = true
            \/ length (take 6 (contents (tx world_17))) = 6%nat))
  /\ exists w1 w2 w3 n1 n2 n3,
       ble_flush_tx world_17 = Ok (tt, w1)
       /\ ble_flush_tx w1 = Ok (tt, w2)
       /\ ble_flush_tx w2 = Ok (tt, w3)
       /\ ring_empty (tx w1) = false
       /\ ring_empty (tx w2) = false
       /\ ring_empty (tx w3) = true
       /\ sd_calls w1
          = sd_calls world_17
            ++ replicate (S n1)
                 (Sd_ble_gatts_hvx (connection world_17)
                    (tx_value_handle world_17)
                    (take 6 (contents (tx world_17))))
       /\ sd_calls w2
          = sd_calls w1
            ++ replicate (S n2)
                 (Sd_ble_gatts_hvx (connection world_17)
                    (tx_value_handle world_17)
                    (take 6 (drop 6 (contents (tx world_17)))))
       /\ sd_calls w3
          = sd_calls w2
            ++ replicate (S n3)
                 (Sd_ble_gatts_hvx (connection world_17)
                    (tx_value_handle world_17)
                    (drop 12 (contents (tx world_17))))
       /\ length (take 6 (contents (tx world_17))) = 6%nat
       /\ length (take 6 (drop 6 (contents (tx world_17)))) = 6%nat
       /\ length (drop 12 (contents (tx world_17))) = 5%nat
       /\ (sd_replies world_17 = [] -> n1 = 0%nat /\ n2 = 0%nat /\ n3 = 0%nat).
Proof.
  assert (H1 : ring_inv (tx world_17)) by ring_inv_by_computation.
  assert (H2 : 1 <= negotiated_mtu world_17 <= MAX_MTU_LENGTH)
    by (vm_compute; split; discriminate).
  assert (H3 : forallb hvx_tolerated (sd_replies world_17) = true)
    by reflexivity.
  assert (H4 : ring_empty (tx world_17) = false) by (vm_compute; reflexivity).
  assert (H5 : 5 <= negotiated_mtu world_17) by (vm_compute; discriminate).
  assert (H6 : Z.of_nat (length (contents (tx world_17)))
               = negotiated_mtu world_17 * 2 + 5) by (vm_compute; reflexivity).
  repeat (split; [assumption|]).
  destruct (C5_flush_drain world_17 H1 H2 H3) as [Hone Hthree].
  split; [exact (Hone H4) | exact (Hthree H5 H6)].
Defined.

(** C5 as stated fails for an MTU below 5: with [negotiated_mtu = 1] and
    [1 * 2 + 5 = 7] bytes waiting, three calls of [ble_flush_tx] send three
    one-byte frames and leave four bytes in the ring. *)
Lemma C5_counterexample :
  ring_inv (tx world_7)
  /\ negotiated_mtu world_7 = 1
  /\ Z.of_nat (length (contents (tx world_7))) = negotiated_mtu world_7 * 2 + 5
  /\ exists w3,
       flush_times 3 world_7 = Ok (tt, w3)
       /\ ring_empty (tx w3) = false
       /\ length (contents (tx w3)) = 4%nat
       /\ hvx_payloads (sd_calls w3)
          = [[Byte.x41]; [Byte.x41]; [Byte.x41]].
Proof.
  split; [ring_inv_by_computation|]. split; [reflexivity|].
  split; [vm_compute; reflexivity|].
  eexists. repeat split; vm_compute; reflexivity.
Qed.

(** C6. [ble_flush_tx] on an empty transmit ring returns at once: no call
    to the SoftDevice, and both rings, the handles and [negotiated_mtu]
    are as before. *)
Theorem C6_flush_empty (w : world) :
  ring_empty (tx w) = true -> ble_flush_tx w = Ok (tt, w).
Proof.
  intros He. unfold ble_flush_tx, mbind, M_bind, gets. now rewrite He.
Qed.

(** The theorem in the boot-time world. *)
Lemma C6_flush_empty_witness :
  ring_empty (tx (world_init [])) = true
  /\ ble_flush_tx (world_init []) = Ok (tt, world_init []).
Proof.
  split; [reflexivity|]. apply (C6_flush_empty (world_init [])). reflexivity.
Defined.

(** C7. A characteristic write of [data] appends to the receive ring the
    longest prefix of [data] that fits, in order; when bytes are left
    over the ring is full; the handler returns normally, makes no
    SoftDevice call and changes nothing but the receive ring. *)
Theorem C7_write (w : world) (conn_handle : Z) (data : list Byte.byte) :
  ring_inv (rx w) ->
  let room := Z.to_nat (RING_BUFFER_LENGTH - 1
                        - Z.of_nat (length (contents (rx w)))) in
  exists ring',
    handle_ble_evt (BLE_GATTS_EVT_WRITE conn_handle data) w
      = Ok (tt, set_rx ring' w)
    /\ ring_inv ring'
    /\ contents ring' = contents (rx w) ++ take room data
    /\ ((room < length data)%nat -> ring_full ring' = true).
Proof.
  intros Hinv room. cbn [handle_ble_evt].
  destruct (write_loop_spec data w Hinv) as (r & Hrun & Hinv' & Hc).
  exists r. fold room in Hc.
  split; [exact Hrun|]. split; [exact Hinv'|]. split; [exact Hc|].
  intros Hover. apply (ring_full_contents _ Hinv').
  pose proof (contents_bound _ Hinv).
  rewrite Hc, length_app, length_take. subst room. lia.
Qed.

(** The theorem for a write of five bytes in the boot-time world. *)
Lemma C7_write_witness :
  ring_inv (rx (world_init []))
  /\ exists ring',
       handle_ble_evt (BLE_GATTS_EVT_WRITE 1 example_bytes) (world_init [])
         = Ok (tt, set_rx ring' (world_init []))
       /\ ring_inv ring'
       /\ contents ring'
          = contents (rx (world_init []))
            ++ take (Z.to_nat (RING_BUFFER_LENGTH - 1
                               - Z.of_nat (length (contents (rx (world_init []))))))
                 example_bytes
       /\ ((Z.to_nat (RING_BUFFER_LENGTH - 1
                      - Z.of_nat (length (contents (rx (world_init [])))))
            < length example_bytes)%nat -> ring_full ring' = true).
Proof.
  assert (H1 : ring_inv (rx (world_init []))) by ring_inv_by_computation.
  split; [exact H1|].
  exact (C7_write (world_init []) 1 example_bytes H1).
Defined.

(** C10. After any sequence of [ring_full], [ring_empty], [ring_push] and
    [ring_pop] on a zero-initialised ring, no access was out of bounds,
    [head] and [tail] lie in [[0, RING_BUFFER_LENGTH)], and any further
    operation is in bounds again and keeps them there. *)
Theorem C10_ring_indices (ops : list ring_op) :
  exists ring,
    run_ops ring_zero ops = Ok ring
    /\ 0 <= head ring < RING_BUFFER_LENGTH
    /\ 0 <= tail ring < RING_BUFFER_LENGTH
    /\ Z.of_nat (length (buffer ring)) = RING_BUFFER_LENGTH
    /\ forall op, exists ring',
         run_op ring op = Ok ring'
         /\ 0 <= head ring' < RING_BUFFER_LENGTH
         /\ 0 <= tail ring' < RING_BUFFER_LENGTH.
Proof.
  destruct (run_ops_inv ops ring_zero ring_zero_inv) as (r & Hrun & Hinv).
  exists r. split; [exact Hrun|].
  pose proof Hinv as (Hl & Hh & Ht).
  split; [exact Hh|]. split; [exact Ht|].
  split; [rewrite Hl; unfold RING_BUFFER_LENGTH; lia|].
  intros op. destruct (run_op_inv r op Hinv) as (r' & Hop & (_ & Hh' & Ht')).
  eauto.
Qed.

(** * Properties of binary32 rounding *)

Module F32Facts.
Import F32.


Lemma digits2_spec p :
  2 ^ (Zpos (digits2_pos p) - 1) <= Zpos p < 2 ^ Zpos (digits2_pos p).
Proof.
  induction p as [p IH|p IH|]; cbn [digits2_pos].
  - rewrite Pos2Z.inj_succ.
    replace (Z.succ (Zpos (digits2_pos p)) - 1) with (Zpos (digits2_pos p)) by lia.
    rewrite Z.pow_succ_r by lia.
    replace (2 ^ Zpos (digits2_pos p))
      with (2 * 2 ^ (Zpos (digits2_pos p) - 1)) in *
      by (rewrite <- Z.pow_succ_r by lia; f_equal; lia).
    lia.
  - rewrite Pos2Z.inj_succ.
    replace (Z.succ (Zpos (digits2_pos p)) - 1) with (Zpos (digits2_pos p)) by lia.
    rewrite Z.pow_succ_r by lia.
    replace (2 ^ Zpos (digits2_pos p))
      with (2 * 2 ^ (Zpos (digits2_pos p) - 1)) in *
      by (rewrite <- Z.pow_succ_r by lia; f_equal; lia).
    lia.
  - cbn. lia.
Qed.

Lemma digits2_unique p k :
  2 ^ (k - 1) <= Zpos p < 2 ^ k -> Zpos (digits2_pos p) = k.
Proof.
  intros [Hlo Hhi]. pose proof (digits2_spec p) as [Dlo Dhi].
  assert (0 < k).
  { destruct (Z_lt_le_dec 0 k); trivial.
    assert (2 ^ k <= 2 ^ 0) by (destruct (Z_lt_le_dec k 0);
      [rewrite Z.pow_neg_r by lia; cbn; lia | apply Z.pow_le_mono_r; lia]).
    cbn in *. lia. }
  destruct (Z_lt_le_dec (Zpos (digits2_pos p)) k) as [Hlt|Hge].
  - assert (2 ^ Zpos (digits2_pos p) <= 2 ^ (k - 1))
      by (apply Z.pow_le_mono_r; lia). lia.
  - destruct (Z_lt_le_dec k (Zpos (digits2_pos p))) as [Hlt|Hle]; [|lia].
    assert (2 ^ k <= 2 ^ (Zpos (digits2_pos p) - 1))
      by (apply Z.pow_le_mono_r; lia). lia.
Qed.

Lemma shr_1_m r : 0 <= shr_m r -> shr_m (shr_1 r) = shr_m r / 2.
Proof.
  destruct r as [m b s]. cbn [shr_m]. intros Hm.
  destruct m as [|[p|p|]|p]; cbn [shr_1 shr_m]; try lia; try reflexivity.
  - apply (Z.div_unique _ _ _ 1); lia.
  - apply (Z.div_unique _ _ _ 0); lia.
Qed.

Lemma iter_shr_1_m n : forall r,
  0 <= shr_m r ->
  shr_m (iter_pos shr_1 n r) = shr_m r / 2 ^ Zpos n.
Proof.
  assert (Hnn : forall r, 0 <= shr_m r -> 0 <= shr_m (shr_1 r)).
  { intros r Hr. rewrite shr_1_m by trivial. apply Z.div_pos; lia. }
  induction n as [n IH|n IH|]; intros r Hr; cbn [iter_pos].
  - assert (H1 : 0 <= shr_m (iter_pos shr_1 n (shr_1 r))).
    { rewrite IH by auto. apply Z.div_pos; [auto|]. apply Z.pow_pos_nonneg; lia. }
    rewrite IH, IH, shr_1_m by auto.
    rewrite !Z.div_div by (try apply Z.pow_pos_nonneg; lia).
    f_equal. rewrite Pos2Z.inj_xI.
    rewrite <- Z.pow_add_r, <- Z.pow_succ_r by lia. f_equal. lia.
  - assert (H1 : 0 <= shr_m (iter_pos shr_1 n r)).
    { rewrite IH by auto. apply Z.div_pos; [auto|]. apply Z.pow_pos_nonneg; lia. }
    rewrite IH, IH by auto.
    rewrite !Z.div_div by (try apply Z.pow_pos_nonneg; lia).
    f_equal. rewrite Pos2Z.inj_xO.
    rewrite <- Z.pow_add_r by lia. f_equal. lia.
  - rewrite shr_1_m by trivial. reflexivity.
Qed.

Lemma shr_m_spec r e n :
  0 <= shr_m r -> 0 <= n ->
  shr_m (fst (shr r e n)) = shr_m r / 2 ^ n /\ snd (shr r e n) = e + n.
Proof.
  intros Hr Hn. destruct n as [|p|p]; cbn [shr fst snd]; try lia.
  - rewrite Z.div_1_r. lia.
  - split; [|reflexivity]. now apply iter_shr_1_m.
Qed.

Lemma round_nearest_even_bounds m l :
  m <= round_nearest_even m l <= m + 1.
Proof.
  destruct l as [|[| |]]; cbn [round_nearest_even]; try lia.
  destruct (Z.even m); lia.
Qed.

Lemma shr_record_of_loc_m m l : shr_m (shr_record_of_loc m l) = m.
Proof. now destruct l as [|[| |]]. Qed.

Lemma fexp_normal k : -125 <= k -> fexp prec emax k = k - 24.
Proof. unfold fexp, emin, prec, emax. lia. Qed.

(** Rounding a significand of at least 24 bits: a normal number results,
    at most one unit in the last place above the value rounded. *)
Lemma binary_round_aux_upper mx ex l :
  2 ^ 23 <= Zpos mx -> -149 <= ex -> Zpos (digits2_pos mx) + ex <= 127 ->
  exists m e,
    binary_round_aux prec emax false (Zpos mx) ex l = Fin m e
    /\ 2 ^ 23 <= Zpos m < 2 ^ 24
    /\ ex + Zpos (digits2_pos mx) - 24 <= e <= ex + Zpos (digits2_pos mx) - 23
    /\ Zpos m * 2 ^ (e - ex) * 2 ^ 23 <= Zpos mx * (2 ^ 23 + 1).
Proof.
  intros Hmx Hex Hov.
  pose proof (digits2_spec mx) as [Dlo Dhi].
  set (k := Zpos (digits2_pos mx)) in *.
  assert (Hk : 24 <= k).
  { destruct (Z_lt_le_dec k 24); [|lia].
    assert (2 ^ k <= 2 ^ 23) by (apply Z.pow_le_mono_r; lia). lia. }
  unfold binary_round_aux, shr_fexp. cbn [Zdigits2]. fold k.
  rewrite fexp_normal by lia.
  destruct (shr_m_spec (shr_record_of_loc (Zpos mx) l) ex (k + ex - 24 - ex))
    as [Hm1 He1]; [rewrite shr_record_of_loc_m; lia | lia |].
  destruct (shr _ ex _) as [r1 e1]. cbn [fst snd] in Hm1, He1.
  rewrite shr_record_of_loc_m in Hm1.
  replace (k + ex - 24 - ex) with (k - 24) in * by lia.
  set (m1 := shr_m r1) in *.
  assert (Hpow : 2 ^ (k - 1) = 2 ^ 23 * 2 ^ (k - 24))
    by (rewrite <- Z.pow_add_r by lia; f_equal; lia).
  assert (Hpow' : 2 ^ k = 2 ^ 24 * 2 ^ (k - 24))
    by (rewrite <- Z.pow_add_r by lia; f_equal; lia).
  assert (Hp : 0 < 2 ^ (k - 24)) by (apply Z.pow_pos_nonneg; lia).
  assert (Hm1b : 2 ^ 23 <= m1 < 2 ^ 24).
  { rewrite Hm1. split.
    - apply Z.div_le_lower_bound; lia.
    - apply Z.div_lt_upper_bound; lia. }
  assert (Hm1m : m1 * 2 ^ (k - 24) <= Zpos mx).
  { rewrite Hm1. rewrite Z.mul_comm. apply Z.mul_div_le. lia. }
  pose proof (round_nearest_even_bounds m1 (loc_of_shr_record r1)) as Hr.
  set (m1' := round_nearest_even m1 (loc_of_shr_record r1)) in *.
  assert (Hfinal : forall e', e' = e1 \/ e' = e1 + 1 -> (e' <=? emax - prec) = true).
  { intros e' He'. apply Z.leb_le. unfold emax, prec. lia. }
  destruct (Z_lt_le_dec m1' (2 ^ 24)) as [Hlt|Hge].
  - destruct m1' as [|p1|p1] eqn:E1; try lia.
    cbn [Zdigits2]. rewrite (digits2_unique p1 24) by (cbn in *; lia).
    rewrite fexp_normal by lia.
    replace (24 + e1 - 24 - e1) with 0 by lia. cbn [shr shr_record_of_loc shr_m].
    rewrite Hfinal by auto.
    exists p1, e1. split; [reflexivity|]. split; [cbn in *; lia|].
    split; [lia|].
    replace (e1 - ex) with (k - 24) by lia. change (2 ^ 23) with 8388608 in *.
    nia.
  - assert (E24 : m1' = 2 ^ 24) by lia.
    rewrite E24. change (2 ^ 24) with (Zpos 16777216). cbn [Zdigits2].
    change (Zpos (digits2_pos 16777216)) with 25.
    rewrite fexp_normal by lia.
    replace (25 + e1 - 24 - e1) with 1 by lia. cbn.
    rewrite Hfinal by auto.
    exists 8388608%positive, (e1 + 1). split; [reflexivity|].
    split; [cbn; lia|]. split; [lia|].
    replace (e1 + 1 - ex) with (Z.succ (k - 24)) by lia.
    rewrite Z.pow_succ_r by lia.
    change (2 ^ 23) with 8388608 in *. change (2 ^ 24) with 16777216 in *.
    nia.
Qed.

Lemma binary_round_aux_exact mx ex :
  2 ^ 23 <= Zpos mx < 2 ^ 24 -> -149 <= ex <= 104 ->
  binary_round_aux prec emax false (Zpos mx) ex loc_Exact = Fin mx ex.
Proof.
  intros Hmx Hex. unfold binary_round_aux, shr_fexp. cbn [Zdigits2].
  rewrite (digits2_unique mx 24) by (cbn in *; lia).
  rewrite fexp_normal by lia.
  replace (24 + ex - 24 - ex) with 0 by lia.
  cbn [shr shr_record_of_loc shr_m loc_of_shr_record round_nearest_even
       Zdigits2].
  rewrite (digits2_unique mx 24) by (cbn in *; lia).
  rewrite fexp_normal by lia.
  replace (24 + ex - 24 - ex) with 0 by lia.
  cbn [shr shr_record_of_loc shr_m].
  replace (ex <=? emax - prec) with true
    by (symmetry; apply Z.leb_le; unfold emax, prec; lia).
  reflexivity.
Qed.

Lemma iter_xO m p : Zpos (Pos.iter xO m p) = Zpos m * 2 ^ Zpos p.
Proof.
  induction p as [|p IH] using Pos.peano_ind.
  - cbn. lia.
  - rewrite Pos.iter_succ, Pos2Z.inj_xO, IH, Pos2Z.inj_succ,
      Z.pow_succ_r by lia. lia.
Qed.

Lemma shl_align_spec m e e' :
  e' <= e ->
  Zpos (fst (shl_align m e e')) = Zpos m * 2 ^ (e - e')
  /\ snd (shl_align m e e') = e'.
Proof.
  intros He. unfold shl_align.
  destruct (e' - e) as [|d|d] eqn:E; cbn [fst snd]; try lia.
  - replace (e - e') with 0 by lia. cbn. lia.
  - rewrite iter_xO. replace (e - e') with (Zpos d) by lia. lia.
Qed.

(** *** The rational value of a binary32 number *)

Lemma pow2_pos e : (0 < Qpower 2 e)%Q.
Proof. apply Qpower_0_lt. reflexivity. Qed.

Lemma pow2_add a b : (Qpower 2 (a + b) == Qpower 2 a * Qpower 2 b)%Q.
Proof. apply Qpower_plus. discriminate. Qed.

Lemma pow2_Z n : 0 <= n -> (Qpower 2 n == inject_Z (2 ^ n))%Q.
Proof. intros Hn. symmetry. now apply (Zpower_Qpower 2). Qed.

Lemma val_pos m e : (0 < val m e)%Q.
Proof.
  unfold val. apply Qmult_lt_0_compat; [|apply pow2_pos].
  change 0%Q with (inject_Z 0). rewrite <- Zlt_Qlt. lia.
Qed.

(** [m * 2 ^ (e - ex)] as a rational, for [ex <= e]. *)
Lemma val_shift m e ex :
  ex <= e ->
  (val m e == inject_Z (Zpos m * 2 ^ (e - ex)) * Qpower 2 ex)%Q.
Proof.
  intros He. unfold val. rewrite inject_Z_mult, <- pow2_Z by lia.
  replace e with ((e - ex) + ex) at 1 by lia. rewrite pow2_add. ring.
Qed.

Lemma val_upper m e mx ex :
  ex <= e ->
  Zpos m * 2 ^ (e - ex) * 2 ^ 23 <= Zpos mx * (2 ^ 23 + 1) ->
  (val m e <= val mx ex * ulp1)%Q.
Proof.
  intros He Hle. rewrite (val_shift m e ex He). unfold val, ulp1.
  change (2 ^ 23) with 8388608 in Hle. change (8388608 + 1) with 8388609 in Hle.
  rewrite Zle_Qle, !inject_Z_mult in Hle.
  pose proof (pow2_pos ex) as Hp.
  rewrite inject_Z_mult.
  set (a := (inject_Z (Zpos m) * inject_Z (2 ^ (e - ex)))%Q) in *.
  set (b := inject_Z (Zpos mx)) in *.
  assert (Hab : (a <= b * (8388609 # 8388608))%Q).
  { change (inject_Z 8388608) with (8388608 # 1) in Hle.
    change (inject_Z 8388609) with (8388609 # 1) in Hle. lra. }
  assert (E : (b * Qpower 2 ex * (8388609 # 8388608)
               == b * (8388609 # 8388608) * Qpower 2 ex)%Q) by ring.
  rewrite E. apply Qmult_le_compat_r; [exact Hab | lra].
Qed.


Lemma digits2_le p k : Zpos p < 2 ^ k -> Zpos (digits2_pos p) <= k.
Proof.
  intros Hp. pose proof (digits2_spec p) as [Dlo _].
  destruct (Z_lt_le_dec k (Zpos (digits2_pos p))) as [Hlt|]; [|lia].
  assert (0 <= k).
  { destruct (Z_lt_le_dec k 0); [|lia].
    rewrite Z.pow_neg_r in Hp by lia. lia. }
  assert (2 ^ k <= 2 ^ (Zpos (digits2_pos p) - 1))
    by (apply Z.pow_le_mono_r; lia). lia.
Qed.

Lemma binary_round_upper mx ex :
  -149 <= ex -> -125 <= Zpos (digits2_pos mx) + ex <= 127 ->
  normal_upto (binary_round prec emax false mx ex)
    (ex + Zpos (digits2_pos mx) - 24) (ex + Zpos (digits2_pos mx) - 23)
    (val mx ex * ulp1).
Proof.
  intros Hex Hk. unfold binary_round.
  pose proof (digits2_spec mx) as [Dlo Dhi].
  set (k := Zpos (digits2_pos mx)) in *.
  rewrite fexp_normal by lia.
  destruct (Z_lt_le_dec k 24) as [Hlt|Hge].
  - destruct (shl_align_spec mx ex (k + ex - 24)) as [Hm He]; [lia|].
    destruct (shl_align mx ex (k + ex - 24)) as [mz ez].
    cbn [fst snd] in Hm, He. subst ez.
    replace (ex - (k + ex - 24)) with (24 - k) in Hm by lia.
    assert (Hp1 : 2 ^ 23 = 2 ^ (k - 1) * 2 ^ (24 - k))
      by (rewrite <- Z.pow_add_r by lia; f_equal; lia).
    assert (Hp2 : 2 ^ 24 = 2 ^ k * 2 ^ (24 - k))
      by (rewrite <- Z.pow_add_r by lia; f_equal; lia).
    assert (Hp : 0 < 2 ^ (24 - k)) by (apply Z.pow_pos_nonneg; lia).
    assert (Hmz : 2 ^ 23 <= Zpos mz < 2 ^ 24) by (rewrite Hp1, Hp2, Hm; nia).
    rewrite binary_round_aux_exact by lia.
    exists mz, (k + ex - 24). split; [reflexivity|]. split; [exact Hmz|].
    split; [lia|].
    assert (E : (val mz (k + ex - 24) == val mx ex)%Q).
    { unfold val. rewrite Hm, inject_Z_mult, <- pow2_Z by lia.
      replace ex with ((24 - k) + (k + ex - 24)) at 2 by lia.
      rewrite pow2_add. ring. }
    rewrite E. pose proof (val_pos mx ex). unfold ulp1.
    assert (H1 : (val mx ex * 1 <= val mx ex * (8388609 # 8388608))%Q).
    { rewrite !(Qmult_comm (val mx ex)). apply Qmult_le_compat_r; lra. }
    lra.
  - assert (Hal : shl_align mx ex (k + ex - 24) = (mx, ex)).
    { unfold shl_align. destruct (k + ex - 24 - ex) eqn:E; trivial. lia. }
    rewrite Hal.
    assert (Hmx : 2 ^ 23 <= Zpos mx).
    { assert (2 ^ 23 <= 2 ^ (k - 1)) by (apply Z.pow_le_mono_r; lia). lia. }
    destruct (binary_round_aux_upper mx ex loc_Exact Hmx Hex)
      as (m & e & Hr & Hm & He & Hv); [fold k; lia|].
    fold k in He. exists m, e. split; [exact Hr|]. split; [exact Hm|].
    split; [lia|]. apply val_upper; [lia | exact Hv].
Qed.


Lemma digits2_gt p j : 0 <= j -> 2 ^ j <= Zpos p -> j < Zpos (digits2_pos p).
Proof.
  intros Hj Hp. pose proof (digits2_spec p) as [_ Dhi].
  destruct (Z_lt_le_dec j (Zpos (digits2_pos p))) as [|Hle]; [lia|].
  assert (2 ^ Zpos (digits2_pos p) <= 2 ^ j)
    by (apply Z.pow_le_mono_r; lia). lia.
Qed.

Lemma val_mul a ea b eb :
  (val (a * b) (ea + eb) == val a ea * val b eb)%Q.
Proof.
  unfold val. rewrite Pos2Z.inj_mul, inject_Z_mult, pow2_add. ring.
Qed.

Lemma mul_upper a ea b eb :
  2 ^ 23 <= Zpos a < 2 ^ 24 -> 2 ^ 23 <= Zpos b < 2 ^ 24 ->
  -149 <= ea + eb <= 79 ->
  normal_upto (SFmul prec emax (Fin a ea) (Fin b eb))
    (ea + eb + 23) (ea + eb + 25) (val a ea * val b eb * ulp1).
Proof.
  intros Ha Hb He. cbn [SFmul xorb].
  change (2 ^ 23) with 8388608 in *. change (2 ^ 24) with 16777216 in *.
  assert (Hlo : 2 ^ 46 <= Zpos (a * b)) by (change (2 ^ 46) with (8388608 * 8388608); nia).
  assert (Hhi : Zpos (a * b) < 2 ^ 48) by (change (2 ^ 48) with (16777216 * 16777216); nia).
  pose proof (digits2_gt _ 46 ltac:(lia) Hlo) as Hk1.
  pose proof (digits2_le _ 48 Hhi) as Hk2.
  destruct (binary_round_aux_upper (a * b) (ea + eb) loc_Exact)
    as (m & e & Hr & Hm & Hex & Hv); [change (2 ^ 46) with 70368744177664 in Hlo; lia | lia | lia |].
  exists m, e. split; [exact Hr|]. split; [exact Hm|]. split; [lia|].
  rewrite <- val_mul. apply val_upper; [lia | exact Hv].
Qed.

Lemma sub_upper a b e :
  Zpos b < Zpos a < 2 ^ 24 -> -126 <= e <= 100 ->
  normal_upto (SFsub prec emax (Fin a e) (Fin b e))
    (e - 23) (e + 1)
    (inject_Z (Zpos a - Zpos b) * Qpower 2 e * ulp1).
Proof.
  intros Hab He. cbn [SFsub cond_Zopp]. rewrite Z.min_id.
  destruct (shl_align_spec a e e) as [Ha _]; [lia|].
  destruct (shl_align_spec b e e) as [Hb _]; [lia|].
  rewrite Ha, Hb, Z.sub_diag. cbn [Z.pow]. rewrite !Z.mul_1_r.
  destruct (Zpos a - Zpos b) as [|d|d] eqn:Ed; try lia.
  cbn [binary_normalize].
  assert (Hd : Zpos d < 2 ^ 24) by lia.
  pose proof (digits2_le _ _ Hd) as Hk.
  pose proof (Pos2Z.is_pos (digits2_pos d)) as Hk0.
  destruct (binary_round_upper d e) as (m & e' & Hr & Hm & He' & Hv); [lia|lia|].
  exists m, e'. split; [exact Hr|]. split; [exact Hm|]. split; [lia|].
  exact Hv.
Qed.

Lemma add_upper a ea b eb :
  2 ^ 23 <= Zpos a < 2 ^ 24 -> 2 ^ 23 <= Zpos b < 2 ^ 24 ->
  -149 <= ea <= 100 -> -149 <= eb <= 100 ->
  normal_upto (SFadd prec emax (Fin a ea) (Fin b eb))
    (Z.min ea eb) (Z.max ea eb + 2)
    ((val a ea + val b eb) * ulp1).
Proof.
  intros Ha Hb Hea Heb. cbn [SFadd cond_Zopp].
  set (ez := Z.min ea eb).
  destruct (shl_align_spec a ea ez) as [Ha' _]; [lia|].
  destruct (shl_align_spec b eb ez) as [Hb' _]; [lia|].
  set (sa := fst (shl_align a ea ez)) in *.
  set (sb := fst (shl_align b eb ez)) in *.
  change (Zpos sa + Zpos sb) with (Zpos (sa + sb)).
  cbn [binary_normalize].
  assert (Hpa : 0 < 2 ^ (ea - ez)) by (apply Z.pow_pos_nonneg; lia).
  assert (Hpb : 0 < 2 ^ (eb - ez)) by (apply Z.pow_pos_nonneg; lia).
  set (emx := Z.max ea eb).
  assert (Hpa' : 2 ^ (ea - ez) <= 2 ^ (emx - ez))
    by (apply Z.pow_le_mono_r; lia).
  assert (Hpb' : 2 ^ (eb - ez) <= 2 ^ (emx - ez))
    by (apply Z.pow_le_mono_r; lia).
  assert (Hhi : Zpos (sa + sb) < 2 ^ (emx - ez + 25)).
  { rewrite Z.pow_add_r by lia. rewrite Pos2Z.inj_add, Ha', Hb'.
    change (2 ^ 25) with 33554432. change (2 ^ 24) with 16777216 in *. nia. }
  assert (Hlo : 2 ^ 23 <= Zpos (sa + sb)).
  { rewrite Pos2Z.inj_add, Ha', Hb'. nia. }
  pose proof (digits2_le _ _ Hhi) as Hk2.
  pose proof (digits2_gt _ 23 ltac:(lia) Hlo) as Hk1.
  destruct (binary_round_upper (sa + sb) ez)
    as (m & e & Hr & Hm & He & Hv); [lia|lia|].
  exists m, e. split; [exact Hr|]. split; [exact Hm|]. split; [lia|].
  assert (E : (val (sa + sb) ez == val a ea + val b eb)%Q).
  { unfold val. rewrite Pos2Z.inj_add, inject_Z_plus, Ha', Hb',
      !inject_Z_mult, <- !pow2_Z by lia.
    replace ea with ((ea - ez) + ez) at 2 by lia.
    replace eb with ((eb - ez) + ez) at 2 by lia.
    rewrite !pow2_add. ring. }
  rewrite <- E. exact Hv.
Qed.


Lemma div_upper a ea b eb :
  2 ^ 23 <= Zpos a < 2 ^ 24 -> 2 ^ 23 <= Zpos b < 2 ^ 24 ->
  -125 <= ea - eb <= 100 ->
  normal_upto (SFdiv prec emax (Fin a ea) (Fin b eb))
    (ea - eb - 24) (ea - eb - 22) (val a ea / val b eb * ulp1).
Proof.
  intros Ha Hb He. cbn [SFdiv xorb]. unfold SFdiv_core_binary.
  cbn [Zdigits2].
  rewrite (digits2_unique a 24), (digits2_unique b 24) by (cbn in *; lia).
  rewrite fexp_normal by lia.
  replace (Z.min (24 + ea - (24 + eb) - 24) (ea - eb)) with (ea - eb - 24)
    by lia.
  replace (ea - eb - (ea - eb - 24)) with 24 by lia.
  rewrite Z.shiftl_mul_pow2 by lia.
  pose proof (Z_div_mod (Zpos a * 2 ^ 24) (Zpos b) ltac:(lia)) as Hdiv.
  destruct (Z.div_eucl (Zpos a * 2 ^ 24) (Zpos b)) as [q r].
  destruct Hdiv as [Hq Hr].
  change (2 ^ 23) with 8388608 in *. change (2 ^ 24) with 16777216 in *.
  assert (Hqlo : 8388608 <= q) by nia.
  assert (Hqhi : q < 2 ^ 25) by (change (2 ^ 25) with 33554432; nia).
  destruct q as [|qp|qp]; try lia.
  pose proof (digits2_gt _ 23 ltac:(lia) Hqlo) as Hk1.
  pose proof (digits2_le _ 25 Hqhi) as Hk2.
  destruct (binary_round_aux_upper qp (ea - eb - 24) (new_location (Zpos b) r))
    as (m & e & Hres & Hm & Hex & Hv); [exact Hqlo | lia | lia |].
  exists m, e. split; [exact Hres|]. split; [exact Hm|]. split; [lia|].
  apply (val_upper m e qp (ea - eb - 24)) in Hv; [|lia].
  assert (Hb0 : (0 < val b eb)%Q) by apply val_pos.
  assert (Hqb : (val qp (ea - eb - 24) * val b eb <= val a ea)%Q).
  { unfold val.
    assert (Hz : (inject_Z (Zpos qp) * inject_Z (Zpos b)
                  <= inject_Z (Zpos a) * inject_Z 16777216)%Q).
    { rewrite <- !inject_Z_mult, <- Zle_Qle. lia. }
    replace ea with ((ea - eb - 24) + eb + 24) at 2 by lia.
    rewrite !pow2_add. change (Qpower 2 24) with (inject_Z 16777216).
    pose proof (pow2_pos (ea - eb - 24)) as H1.
    pose proof (pow2_pos eb) as H2.
    set (x := Qpower 2 (ea - eb - 24)) in *. set (y := Qpower 2 eb) in *.
    assert (Hxy : (0 <= x * y)%Q)
      by (apply Qlt_le_weak, Qmult_lt_0_compat; trivial).
    apply (Qmult_le_compat_r _ _ (x * y)) in Hz; [|exact Hxy].
    lra. }
  assert (Hquot : (val qp (ea - eb - 24) <= val a ea / val b eb)%Q)
    by (apply Qle_shift_div_l; trivial).
  assert (Hu : (0 <= ulp1)%Q) by (unfold ulp1; lra).
  apply (Qmult_le_compat_r _ _ ulp1) in Hquot; [|exact Hu].
  lra.
Qed.

Lemma round_upper m e :
  exists z,
    round (Fin m e) = Some z /\ 0 <= z
    /\ (inject_Z z <= val m e + (1 # 2))%Q.
Proof.
  unfold round, val. destruct e as [|p|p].
  - exists (Zpos m). split; [reflexivity|]. split; [lia|].
    change (Qpower 2 0) with 1%Q. lra.
  - exists (Zpos m * 2 ^ Zpos p). split; [reflexivity|].
    assert (0 < 2 ^ Zpos p) by (apply Z.pow_pos_nonneg; lia).
    split; [nia|]. rewrite inject_Z_mult, <- pow2_Z by lia. lra.
  - exists ((Zpos m + 2 ^ (Zpos p - 1)) / 2 ^ Zpos p).
    split; [reflexivity|].
    assert (Hp : 0 < 2 ^ Zpos p) by (apply Z.pow_pos_nonneg; lia).
    assert (Hp1 : 0 < 2 ^ (Zpos p - 1)) by (apply Z.pow_pos_nonneg; lia).
    split; [apply Z.div_pos; lia|].
    pose proof (Z.mul_div_le (Zpos m + 2 ^ (Zpos p - 1)) (2 ^ Zpos p) Hp)
      as Hz.
    set (z := (Zpos m + 2 ^ (Zpos p - 1)) / 2 ^ Zpos p) in *.
    rewrite Zle_Qle, inject_Z_mult, inject_Z_plus, <- !pow2_Z in Hz by lia.
    pose proof (pow2_pos (Zneg p)) as Hn.
    assert (E1 : (Qpower 2 (Zpos p) * Qpower 2 (Zneg p) == 1)%Q).
    { rewrite <- pow2_add. now replace (Zpos p + Zneg p) with 0 by lia. }
    assert (E2 : (Qpower 2 (Zpos p - 1) * Qpower 2 (Zneg p) == 1 # 2)%Q).
    { rewrite <- pow2_add. now replace (Zpos p - 1 + Zneg p) with (-1) by lia. }
    apply (Qmult_le_compat_r _ _ (Qpower 2 (Zneg p))) in Hz; [|lra].
    set (x := Qpower 2 (Zpos p)) in *. set (y := Qpower 2 (Zneg p)) in *.
    set (w := Qpower 2 (Zpos p - 1)) in *.
    assert (E3 : (x * inject_Z z * y == inject_Z z * (x * y))%Q) by ring.
    assert (E4 : ((inject_Z (Zpos m) + w) * y
                  == inject_Z (Zpos m) * y + w * y)%Q) by ring.
    rewrite E3, E4, E1, E2 in Hz. lra.
Qed.


Lemma round_to_uint8_upper m e :
  (val m e < 100 + (1 # 2))%Q ->
  exists z, round_to_uint8 (Fin m e) = Ok z /\ 0 <= z <= 100.
Proof.
  intros Hv. destruct (round_upper m e) as (z & Hr & Hz0 & Hz).
  assert (Hz100 : z < 101).
  { rewrite Zlt_Qlt. change (inject_Z 101) with (101 # 1). lra. }
  exists z. unfold round_to_uint8. rewrite Hr.
  destruct (Z.leb_spec 0 z); [|lia].
  destruct (Z.leb_spec z 255); [|lia].
  split; [reflexivity | lia].
Qed.

(** The interpolation expression of [battery_voltage_to_percent] for a
    voltage [m * 2^-22] above the calibration point [m0 * 2^-22], a
    divisor [mD * 2^eD] no smaller than their distance and a bucket base
    [p0] of at most 90: the result is a percentage. *)
Lemma interpolation_range (m0 m mD : positive) (eD : Z) (p0 : f32) :
  2 ^ 23 <= Zpos m0 -> Zpos m0 < Zpos m < 2 ^ 24 ->
  2 ^ 23 <= Zpos mD < 2 ^ 24 -> -29 <= eD <= -25 ->
  (inject_Z (Zpos m - Zpos m0) * Qpower 2 (-22) <= val mD eD)%Q ->
  (p0 = S754_zero false
   \/ exists mp ep, p0 = Fin mp ep /\ 2 ^ 23 <= Zpos mp < 2 ^ 24
                    /\ -20 <= ep <= -17 /\ (val mp ep <= 90)%Q) ->
  exists z,
    round_to_uint8
      (SFadd prec emax p0
         (SFdiv prec emax
            (SFmul prec emax (Fin 10485760 (-20))
               (SFsub prec emax (Fin m (-22)) (Fin m0 (-22))))
            (Fin mD eD)))
    = Ok z /\ 0 <= z <= 100.
Proof.
  intros Hm0 Hm HmD HeD Hdist Hp0.
  destruct (sub_upper m m0 (-22)) as (mX & eX & HX & HmX & HeX & HvX);
    [lia | lia |].
  rewrite HX.
  destruct (mul_upper 10485760 (-20) mX eX)
    as (mY & eY & HY & HmY & HeY & HvY); [cbn; lia | exact HmX | lia |].
  rewrite HY.
  destruct (div_upper mY eY mD eD) as (mQ & eQ & HQ & HmQ & HeQ & HvQ);
    [exact HmY | exact HmD | lia |].
  rewrite HQ.
  assert (Eten : (val 10485760 (-20) == 10)%Q) by reflexivity.
  pose proof (val_pos mD eD) as HD0.
  pose proof (val_pos mX eX) as HX0.
  rewrite Eten in HvY. unfold ulp1 in *.
  set (X := val mX eX) in *. set (Y := val mY eY) in *.
  set (D := val mD eD) in *. set (Qv := val mQ eQ) in *.
  set (d := (inject_Z (Zpos m - Zpos m0) * Qpower 2 (-22))%Q) in *.
  assert (HYD : (Y / D <= 10 * (8388609 # 8388608) * (8388609 # 8388608))%Q).
  { apply Qle_shift_div_r; [exact HD0 | lra]. }
  set (t := (Y / D)%Q) in *.
  assert (HQv : (Qv <= 10 + (1 # 100000))%Q) by lra.
  destruct Hp0 as [-> | (mp & ep & -> & Hmp & Hep & Hvp)].
  - cbn [SFadd]. apply round_to_uint8_upper. fold Qv. lra.
  - destruct (add_upper mp ep mQ eQ) as (mS & eS & HS & HmS & HeS & HvS);
      [exact Hmp | exact HmQ | lia | lia |].
    rewrite HS. apply round_to_uint8_upper.
    fold Qv in HvS. unfold ulp1 in HvS. lra.
Qed.

End F32Facts.

(** * Properties of the battery estimator *)

Module BatteryFacts.
Import F32 Battery F32Facts.

Section Generic.
Context {F : Type} `{FloatOps F}.

Lemma branch_index_Some rem : forall i v j,
  branch_index rem i v = Some j ->
  i <= j < i + Z.of_nat rem
  /\ (exists cj, array_get battery_discharge_curve j = Ok cj
                 /\ flt cj v = true)
  /\ (forall k, i <= k < j ->
        exists ck, array_get battery_discharge_curve k = Ok ck
                   /\ flt ck v = false).
Proof.
  induction rem as [|rem IH]; intros i v j Hb; cbn [branch_index] in Hb.
  - discriminate.
  - destruct (array_get battery_discharge_curve i) as [ci|] eqn:Ei;
      [|discriminate].
    destruct (flt ci v) eqn:Ec.
    + injection Hb as <-. split; [lia|]. split; [eauto|]. intros k Hk. lia.
    + apply IH in Hb as (Hj & Hcj & Hprev).
      split; [lia|]. split; [exact Hcj|].
      intros k Hk. destruct (Z.eq_dec k i) as [->|Hne]; [eauto|].
      apply Hprev. lia.
Qed.

Lemma search_branch rem : forall i v,
  (forall k, i <= k < i + Z.of_nat rem ->
     exists ck, array_get battery_discharge_curve k = Ok ck) ->
  search rem i v
  = match branch_index rem i v with
    | Some j => interpolate j v
    | None => Ok 0
    end.
Proof.
  induction rem as [|rem IH]; intros i v Hget;
    cbn [search branch_index].
  - reflexivity.
  - destruct (Hget i ltac:(lia)) as [ci ->]. cbn [mbind result_bind].
    destruct (flt ci v); [reflexivity|].
    apply IH. intros k Hk. apply Hget. lia.
Qed.

Lemma branch_index_None rem : forall i v,
  (forall k c, i <= k < i + Z.of_nat rem ->
     array_get battery_discharge_curve k = Ok c -> flt c v = false) ->
  branch_index rem i v = None.
Proof.
  induction rem as [|rem IH]; intros i v Hall; cbn [branch_index].
  - reflexivity.
  - destruct (array_get battery_discharge_curve i) as [ci|] eqn:Ei;
      [|reflexivity].
    rewrite (Hall i ci ltac:(lia) Ei). apply IH.
    intros k c Hk. apply Hall. lia.
Qed.
End Generic.

Lemma curve32_eq : battery_discharge_curve (F := f32) = curve32.
Proof. vm_compute. reflexivity. Qed.

Lemma curve32_get k :
  0 <= k < 0 + Z.of_nat curve_size ->
  exists ck, array_get (battery_discharge_curve (F := f32)) k = Ok ck.
Proof.
  intros Hk. rewrite curve32_eq. unfold array_get.
  destruct (Z.leb_spec 0 k); [|lia].
  destruct (lookup_lt_is_Some_2 curve32 (Z.to_nat k)) as [c ->];
    [unfold curve32, curve_size in *; cbn [length] in *; lia | eauto].
Qed.

Lemma between lo hi v :
  SFltb (Fin lo (-22)) v = true -> SFltb (Fin hi (-22)) v = false ->
  exists m, v = Fin m (-22) /\ Zpos lo < Zpos m <= Zpos hi.
Proof.
  unfold SFltb, SFcompare.
  destruct v as [s|s| |s m e]; try discriminate.
  - destruct s; discriminate.
  - destruct s; [discriminate|].
    destruct (Z.compare_spec (-22) e) as [E|E|E]; try discriminate.
    subst e.
    change (Pos.compare_cont Eq lo m) with (lo ?= m)%positive.
    change (Pos.compare_cont Eq hi m) with (hi ?= m)%positive.
    destruct (Pos.compare_spec lo m); try discriminate.
    destruct (Pos.compare_spec hi m); try discriminate; intros _ _;
      exists m; split; trivial; lia.
Qed.

(** The interpolation at index [j], between the calibration points
    [lo * 2^-22] below and [hi * 2^-22] above the voltage. *)
Lemma interpolate_bucket (j : Z) (lo hi m mD : positive) (eD : Z)
    (p0 : f32) :
  array_get curve32 j = Ok (Fin lo (-22)) ->
  array_get curve32 (size_t (j - 1)) = Ok (Fin hi (-22)) ->
  of_Z (size_t (size_t (10 - j) * 10)) = p0 ->
  SFsub prec emax (Fin hi (-22)) (Fin lo (-22)) = Fin mD eD ->
  2 ^ 23 <= Zpos lo -> Zpos hi < 2 ^ 24 ->
  2 ^ 23 <= Zpos mD < 2 ^ 24 -> -29 <= eD <= -25 ->
  Qle_bool (inject_Z (Zpos hi - Zpos lo) * Qpower 2 (-22)) (val mD eD)
    = true ->
  (p0 = S754_zero false
   \/ exists mp ep, p0 = Fin mp ep /\ 2 ^ 23 <= Zpos mp < 2 ^ 24
                    /\ -20 <= ep <= -17 /\ Qle_bool (val mp ep) 90 = true) ->
  Zpos lo < Zpos m <= Zpos hi ->
  exists z, interpolate j (Fin m (-22)) = Ok z /\ 0 <= z <= 100.
Proof.
  intros Hlo Hhi Hp0 HD Hl Hh HmD HeD Hdist Hp Hm.
  unfold interpolate. rewrite curve32_eq, Hlo, Hhi.
  cbn [mbind result_bind].
  change (to_uint8 ?x) with (round_to_uint8 x).
  change (fadd ?x ?y) with (SFadd prec emax x y).
  change (fdiv ?x ?y) with (SFdiv prec emax x y).
  change (fmul ?x ?y) with (SFmul prec emax x y).
  change (fsub ?x ?y) with (SFsub prec emax x y).
  change (of_int ?x) with (of_Z x).
  rewrite Hp0, HD. change (of_Z 10) with (Fin 10485760 (-20)).
  apply interpolation_range; trivial; try lia.
  - apply Qle_bool_iff in Hdist.
    assert (Hle : (inject_Z (Zpos m - Zpos lo) <= inject_Z (Zpos hi - Zpos lo))%Q)
      by (rewrite <- Zle_Qle; lia).
    pose proof (pow2_pos (-22)) as Hpw.
    apply (Qmult_le_compat_r _ _ (Qpower 2 (-22))) in Hle; [|lra]. lra.
  - destruct Hp as [->|(mp & ep & -> & Hmp & Hep & Hvp)]; [now left|right].
    exists mp, ep. apply Qle_bool_iff in Hvp. auto.
Qed.

Ltac bucket_conditions :=
  try match goal with
      | |- context [of_Z ?x] =>
          let r := eval vm_compute in (of_Z x) in change (of_Z x) with r
      end;
  first [ reflexivity
        | lia
        | cbn; lia
        | left; reflexivity
        | right; eexists _, _; split; [reflexivity|];
          split; [cbn; lia|]; split; [lia|]; vm_compute; reflexivity ].

(** Every result of the interpolation branch is a percentage. *)
Lemma interpolate_range (j : Z) (v : f32) :
  SFltb (Fin 15938355 (-22)) v = false ->
  branch_index curve_size 0 v = Some j ->
  1 <= j <= 10
  /\ exists z, interpolate j v = Ok z /\ 0 <= z <= 100.
Proof.
  intros H0 Hb.
  apply branch_index_Some in Hb as (Hj & (cj & Hcj & Hlt) & Hprev).
  unfold curve_size in Hj.
  assert (Hj0 : j <> 0).
  { intros ->. rewrite curve32_eq in Hcj. injection Hcj as <-.
    change (flt ?a ?b) with (SFltb a b) in Hlt. congruence. }
  split; [lia|].
  destruct (Hprev (j - 1) ltac:(lia)) as (cp & Hcp & Hge).
  rewrite curve32_eq in Hcj, Hcp.
  change (flt ?a ?b) with (SFltb a b) in Hlt, Hge.
  assert (Hcases : j = 1 \/ j = 2 \/ j = 3 \/ j = 4 \/ j = 5 \/ j = 6
                   \/ j = 7 \/ j = 8 \/ j = 9 \/ j = 10) by lia.
  repeat (destruct Hcases as [->|Hcases]); try subst j;
    injection Hcj as <-; injection Hcp as <-;
    destruct (between _ _ _ Hlt Hge) as (m & -> & Hm);
    (eapply interpolate_bucket;
       [reflexivity | reflexivity | reflexivity | vm_compute; reflexivity
       | .. | exact Hm]; bucket_conditions).

Qed.

Lemma curve32_mantissa k c :
  array_get curve32 k = Ok c ->
  exists m, c = Fin m (-22) /\ 11324621 <= Zpos m <= 15938355.
Proof.
  unfold array_get. destruct (Z.leb_spec 0 k); [|discriminate].
  destruct (curve32 !! Z.to_nat k) as [c'|] eqn:E; [|discriminate].
  intros [= <-]. apply list_elem_of_lookup_2 in E.
  unfold curve32 in E. repeat (apply elem_of_cons in E as [->|E]);
    try (eexists; split; [reflexivity | lia]).
  now apply elem_of_nil in E.
Qed.

Lemma below_all lo c v :
  Zpos lo <= Zpos c ->
  SFleb v (Fin lo (-22)) = true -> SFltb (Fin c (-22)) v = false.
Proof.
  unfold SFleb, SFltb, SFcompare. intros Hle.
  destruct v as [s|s| |s m e]; trivial.
  - destruct s; trivial. discriminate.
  - destruct s; trivial.
    rewrite (Z.compare_antisym e (-22)).
    destruct (Z.compare_spec e (-22)) as [E|E|E]; cbn [CompOpp]; trivial;
      try discriminate.
    change (Pos.compare_cont Eq m lo) with (m ?= lo)%positive.
    change (Pos.compare_cont Eq c m) with (c ?= m)%positive.
    destruct (Pos.compare_spec m lo); try discriminate;
      destruct (Pos.compare_spec c m); trivial; lia.
Qed.

Lemma percent_unfold (v : f32) :
  battery_voltage_to_percent v
  = if SFltb (Fin 15938355 (-22)) v then Ok 100
    else match branch_index curve_size 0 v with
         | Some j => interpolate j v
         | None => Ok 0
         end.
Proof.
  unfold battery_voltage_to_percent. rewrite curve32_eq.
  change (array_get curve32 0) with (Ok (Fin 15938355 (-22)) : result f32).
  cbn [mbind result_bind]. change (flt ?a ?b) with (SFltb a b).
  destruct (SFltb _ v); [reflexivity|].
  apply search_branch. apply curve32_get.
Qed.

Lemma percent_below (v : f32) :
  SFleb v (Fin 11324621 (-22)) = true -> battery_voltage_to_percent v = Ok 0.
Proof.
  intros Hle. rewrite percent_unfold.
  rewrite (below_all 11324621 15938355 v) by (trivial; lia).
  rewrite branch_index_None; [reflexivity|].
  intros k c _ Hc. rewrite curve32_eq in Hc.
  apply curve32_mantissa in Hc as (m & -> & Hm).
  change (flt ?a ?b) with (SFltb a b). apply (below_all 11324621); [lia|trivial].
Qed.

End BatteryFacts.

(** * Binary32 rounding from both sides *)

(** The bounds of [F32Facts] with their lower halves: each operation on
    normal numbers returns a normal number within one unit in the last
    place of the exact result, on either side. *)

Module F32Bounds.
Import F32 F32Facts.

(** Rounding a significand of at least 24 bits, from both sides: the
    result is a normal number no more than one unit in the last place
    above the significand, and no more than one below the next
    integer after it, which bounds what a sticky remainder adds. *)
Lemma binary_round_aux_both mx ex l :
  2 ^ 23 <= Zpos mx -> -149 <= ex -> Zpos (digits2_pos mx) + ex <= 127 ->
  exists m e,
    binary_round_aux prec emax false (Zpos mx) ex l = Fin m e
    /\ 2 ^ 23 <= Zpos m < 2 ^ 24
    /\ ex + Zpos (digits2_pos mx) - 24 <= e <= ex + Zpos (digits2_pos mx) - 23
    /\ Zpos m * 2 ^ (e - ex) * 2 ^ 23 <= Zpos mx * (2 ^ 23 + 1)
    /\ (Zpos mx + 1) * 2 ^ 23 <= Zpos m * 2 ^ (e - ex) * (2 ^ 23 + 1).
Proof.
  intros Hmx Hex Hov.
  pose proof (digits2_spec mx) as [Dlo Dhi].
  set (k := Zpos (digits2_pos mx)) in *.
  assert (Hk : 24 <= k).
  { destruct (Z_lt_le_dec k 24); [|lia].
    assert (2 ^ k <= 2 ^ 23) by (apply Z.pow_le_mono_r; lia). lia. }
  unfold binary_round_aux, shr_fexp. cbn [Zdigits2]. fold k.
  rewrite fexp_normal by lia.
  destruct (shr_m_spec (shr_record_of_loc (Zpos mx) l) ex (k + ex - 24 - ex))
    as [Hm1 He1]; [rewrite shr_record_of_loc_m; lia | lia |].
  destruct (shr _ ex _) as [r1 e1]. cbn [fst snd] in Hm1, He1.
  rewrite shr_record_of_loc_m in Hm1.
  replace (k + ex - 24 - ex) with (k - 24) in * by lia.
  set (m1 := shr_m r1) in *.
  assert (Hpow : 2 ^ (k - 1) = 2 ^ 23 * 2 ^ (k - 24))
    by (rewrite <- Z.pow_add_r by lia; f_equal; lia).
  assert (Hpow' : 2 ^ k = 2 ^ 24 * 2 ^ (k - 24))
    by (rewrite <- Z.pow_add_r by lia; f_equal; lia).
  assert (Hp : 0 < 2 ^ (k - 24)) by (apply Z.pow_pos_nonneg; lia).
  assert (Hm1b : 2 ^ 23 <= m1 < 2 ^ 24).
  { rewrite Hm1. split.
    - apply Z.div_le_lower_bound; lia.
    - apply Z.div_lt_upper_bound; lia. }
  assert (Hm1m : m1 * 2 ^ (k - 24) <= Zpos mx).
  { rewrite Hm1. rewrite Z.mul_comm. apply Z.mul_div_le. lia. }
  assert (Hm1n : Zpos mx + 1 <= (m1 + 1) * 2 ^ (k - 24)).
  { pose proof (Z.mul_succ_div_gt (Zpos mx) (2 ^ (k - 24)) Hp) as H.
    rewrite <- Hm1 in H. lia. }
  pose proof (round_nearest_even_bounds m1 (loc_of_shr_record r1)) as Hr.
  set (m1' := round_nearest_even m1 (loc_of_shr_record r1)) in *.
  assert (Hfinal : forall e', e' = e1 \/ e' = e1 + 1 -> (e' <=? emax - prec) = true).
  { intros e' He'. apply Z.leb_le. unfold emax, prec. lia. }
  destruct (Z_lt_le_dec m1' (2 ^ 24)) as [Hlt|Hge].
  - destruct m1' as [|p1|p1] eqn:E1; try lia.
    cbn [Zdigits2]. rewrite (digits2_unique p1 24) by (cbn in *; lia).
    rewrite fexp_normal by lia.
    replace (24 + e1 - 24 - e1) with 0 by lia. cbn [shr shr_record_of_loc shr_m].
    rewrite Hfinal by auto.
    exists p1, e1. split; [reflexivity|]. split; [cbn in *; lia|].
    split; [lia|].
    replace (e1 - ex) with (k - 24) by lia. change (2 ^ 23) with 8388608 in *.
    split; nia.
  - assert (E24 : m1' = 2 ^ 24) by lia.
    rewrite E24. change (2 ^ 24) with (Zpos 16777216). cbn [Zdigits2].
    change (Zpos (digits2_pos 16777216)) with 25.
    rewrite fexp_normal by lia.
    replace (25 + e1 - 24 - e1) with 1 by lia. cbn.
    rewrite Hfinal by auto.
    exists 8388608%positive, (e1 + 1). split; [reflexivity|].
    split; [cbn; lia|]. split; [lia|].
    replace (e1 + 1 - ex) with (Z.succ (k - 24)) by lia.
    rewrite Z.pow_succ_r by lia.
    change (2 ^ 23) with 8388608 in *. change (2 ^ 24) with 16777216 in *.
    split; nia.
Qed.

(** The value rounded, and anything below the next integer after its
    significand, is at most one unit in the last place above the
    result. *)
Lemma val_lower m e mx ex (x : Q) :
  ex <= e ->
  (Zpos mx + 1) * 2 ^ 23 <= Zpos m * 2 ^ (e - ex) * (2 ^ 23 + 1) ->
  (x <= inject_Z (Zpos mx + 1) * Qpower 2 ex)%Q ->
  (x <= val m e * ulp1)%Q.
Proof.
  intros He Hle Hx. rewrite (val_shift m e ex He). unfold ulp1.
  change (2 ^ 23) with 8388608 in Hle. change (8388608 + 1) with 8388609 in Hle.
  rewrite Zle_Qle, !inject_Z_mult in Hle.
  pose proof (pow2_pos ex) as Hp.
  rewrite inject_Z_mult.
  set (a := (inject_Z (Zpos m) * inject_Z (2 ^ (e - ex)))%Q) in *.
  set (b := inject_Z (Zpos mx + 1)) in *.
  assert (Hab : (b <= a * (8388609 # 8388608))%Q).
  { change (inject_Z 8388608) with (8388608 # 1) in Hle.
    change (inject_Z 8388609) with (8388609 # 1) in Hle. lra. }
  assert (E : (a * Qpower 2 ex * (8388609 # 8388608)
               == a * (8388609 # 8388608) * Qpower 2 ex)%Q) by ring.
  rewrite E.
  apply (Qmult_le_compat_r _ _ (Qpower 2 ex)) in Hab; [|lra]. lra.
Qed.

Lemma val_below_next mx ex :
  (val mx ex <= inject_Z (Zpos mx + 1) * Qpower 2 ex)%Q.
Proof.
  unfold val. pose proof (pow2_pos ex).
  apply Qmult_le_compat_r; [|lra]. rewrite <- Zle_Qle. lia.
Qed.

Lemma scale_ulp1 (x : Q) : (0 <= x)%Q -> (x <= x * ulp1)%Q.
Proof.
  intros Hx. unfold ulp1.
  assert (H1 : (x * 1 <= x * (8388609 # 8388608))%Q).
  { rewrite !(Qmult_comm x). apply Qmult_le_compat_r; lra. }
  lra.
Qed.

Lemma binary_round_both mx ex :
  -149 <= ex -> -125 <= Zpos (digits2_pos mx) + ex <= 127 ->
  exists m e,
    binary_round prec emax false mx ex = Fin m e
    /\ 2 ^ 23 <= Zpos m < 2 ^ 24
    /\ ex + Zpos (digits2_pos mx) - 24 <= e <= ex + Zpos (digits2_pos mx) - 23
    /\ (val m e <= val mx ex * ulp1)%Q
    /\ (val mx ex <= val m e * ulp1)%Q.
Proof.
  intros Hex Hk. unfold binary_round.
  pose proof (digits2_spec mx) as [Dlo Dhi].
  set (k := Zpos (digits2_pos mx)) in *.
  rewrite fexp_normal by lia.
  destruct (Z_lt_le_dec k 24) as [Hlt|Hge].
  - destruct (shl_align_spec mx ex (k + ex - 24)) as [Hm He]; [lia|].
    destruct (shl_align mx ex (k + ex - 24)) as [mz ez].
    cbn [fst snd] in Hm, He. subst ez.
    replace (ex - (k + ex - 24)) with (24 - k) in Hm by lia.
    assert (Hp1 : 2 ^ 23 = 2 ^ (k - 1) * 2 ^ (24 - k))
      by (rewrite <- Z.pow_add_r by lia; f_equal; lia).
    assert (Hp2 : 2 ^ 24 = 2 ^ k * 2 ^ (24 - k))
      by (rewrite <- Z.pow_add_r by lia; f_equal; lia).
    assert (Hp : 0 < 2 ^ (24 - k)) by (apply Z.pow_pos_nonneg; lia).
    assert (Hmz : 2 ^ 23 <= Zpos mz < 2 ^ 24) by (rewrite Hp1, Hp2, Hm; nia).
    rewrite binary_round_aux_exact by lia.
    exists mz, (k + ex - 24). split; [reflexivity|]. split; [exact Hmz|].
    split; [lia|].
    assert (E : (val mz (k + ex - 24) == val mx ex)%Q).
    { unfold val. rewrite Hm, inject_Z_mult, <- pow2_Z by lia.
      replace ex with ((24 - k) + (k + ex - 24)) at 2 by lia.
      rewrite pow2_add. ring. }
    rewrite E. pose proof (val_pos mx ex) as H0.
    pose proof (scale_ulp1 (val mx ex) ltac:(lra)). split; lra.
  - assert (Hal : shl_align mx ex (k + ex - 24) = (mx, ex)).
    { unfold shl_align. destruct (k + ex - 24 - ex) eqn:E; trivial. lia. }
    rewrite Hal.
    assert (Hmx : 2 ^ 23 <= Zpos mx).
    { assert (2 ^ 23 <= 2 ^ (k - 1)) by (apply Z.pow_le_mono_r; lia). lia. }
    destruct (binary_round_aux_both mx ex loc_Exact Hmx Hex)
      as (m & e & Hr & Hm & He & Hv & Hv'); [fold k; lia|].
    fold k in He. exists m, e. split; [exact Hr|]. split; [exact Hm|].
    split; [lia|]. split.
    + apply val_upper; [lia | exact Hv].
    + apply (val_lower m e mx ex); [lia | exact Hv' | apply val_below_next].
Qed.

Lemma mul_both a ea b eb :
  2 ^ 23 <= Zpos a < 2 ^ 24 -> 2 ^ 23 <= Zpos b < 2 ^ 24 ->
  -149 <= ea + eb <= 79 ->
  exists m e,
    SFmul prec emax (Fin a ea) (Fin b eb) = Fin m e
    /\ 2 ^ 23 <= Zpos m < 2 ^ 24
    /\ ea + eb + 23 <= e <= ea + eb + 25
    /\ (val m e <= val a ea * val b eb * ulp1)%Q
    /\ (val a ea * val b eb <= val m e * ulp1)%Q.
Proof.
  intros Ha Hb He. cbn [SFmul xorb].
  change (2 ^ 23) with 8388608 in *. change (2 ^ 24) with 16777216 in *.
  assert (Hlo : 2 ^ 46 <= Zpos (a * b)) by (change (2 ^ 46) with (8388608 * 8388608); nia).
  assert (Hhi : Zpos (a * b) < 2 ^ 48) by (change (2 ^ 48) with (16777216 * 16777216); nia).
  pose proof (digits2_gt _ 46 ltac:(lia) Hlo) as Hk1.
  pose proof (digits2_le _ 48 Hhi) as Hk2.
  destruct (binary_round_aux_both (a * b) (ea + eb) loc_Exact)
    as (m & e & Hr & Hm & Hex & Hv & Hv');
    [change (2 ^ 46) with 70368744177664 in Hlo; lia | lia | lia |].
  exists m, e. split; [exact Hr|]. split; [exact Hm|]. split; [lia|].
  rewrite <- val_mul. split.
  - apply val_upper; [lia | exact Hv].
  - apply (val_lower m e (a * b) (ea + eb)); [lia | exact Hv' | apply val_below_next].
Qed.

Lemma add_both a ea b eb :
  2 ^ 23 <= Zpos a < 2 ^ 24 -> 2 ^ 23 <= Zpos b < 2 ^ 24 ->
  -149 <= ea <= 100 -> -149 <= eb <= 100 ->
  exists m e,
    SFadd prec emax (Fin a ea) (Fin b eb) = Fin m e
    /\ 2 ^ 23 <= Zpos m < 2 ^ 24
    /\ Z.min ea eb <= e <= Z.max ea eb + 2
    /\ (val m e <= (val a ea + val b eb) * ulp1)%Q
    /\ (val a ea + val b eb <= val m e * ulp1)%Q.
Proof.
  intros Ha Hb Hea Heb. cbn [SFadd cond_Zopp].
  set (ez := Z.min ea eb).
  destruct (shl_align_spec a ea ez) as [Ha' _]; [lia|].
  destruct (shl_align_spec b eb ez) as [Hb' _]; [lia|].
  set (sa := fst (shl_align a ea ez)) in *.
  set (sb := fst (shl_align b eb ez)) in *.
  change (Zpos sa + Zpos sb) with (Zpos (sa + sb)).
  cbn [binary_normalize].
  assert (Hpa : 0 < 2 ^ (ea - ez)) by (apply Z.pow_pos_nonneg; lia).
  assert (Hpb : 0 < 2 ^ (eb - ez)) by (apply Z.pow_pos_nonneg; lia).
  set (emx := Z.max ea eb).
  assert (Hpa' : 2 ^ (ea - ez) <= 2 ^ (emx - ez))
    by (apply Z.pow_le_mono_r; lia).
  assert (Hpb' : 2 ^ (eb - ez) <= 2 ^ (emx - ez))
    by (apply Z.pow_le_mono_r; lia).
  assert (Hhi : Zpos (sa + sb) < 2 ^ (emx - ez + 25)).
  { rewrite Z.pow_add_r by lia. rewrite Pos2Z.inj_add, Ha', Hb'.
    change (2 ^ 25) with 33554432. change (2 ^ 24) with 16777216 in *. nia. }
  assert (Hlo : 2 ^ 23 <= Zpos (sa + sb)).
  { rewrite Pos2Z.inj_add, Ha', Hb'. nia. }
  pose proof (digits2_le _ _ Hhi) as Hk2.
  pose proof (digits2_gt _ 23 ltac:(lia) Hlo) as Hk1.
  destruct (binary_round_both (sa + sb) ez)
    as (m & e & Hr & Hm & He & Hv & Hv'); [lia|lia|].
  exists m, e. split; [exact Hr|]. split; [exact Hm|]. split; [lia|].
  assert (E : (val (sa + sb) ez == val a ea + val b eb)%Q).
  { unfold val. rewrite Pos2Z.inj_add, inject_Z_plus, Ha', Hb',
      !inject_Z_mult, <- !pow2_Z by lia.
    replace ea with ((ea - ez) + ez) at 2 by lia.
    replace eb with ((eb - ez) + ez) at 2 by lia.
    rewrite !pow2_add. ring. }
  rewrite <- E. split; assumption.
Qed.

Lemma div_both a ea b eb :
  2 ^ 23 <= Zpos a < 2 ^ 24 -> 2 ^ 23 <= Zpos b < 2 ^ 24 ->
  -125 <= ea - eb <= 100 ->
  exists m e,
    SFdiv prec emax (Fin a ea) (Fin b eb) = Fin m e
    /\ 2 ^ 23 <= Zpos m < 2 ^ 24
    /\ ea - eb - 24 <= e <= ea - eb - 22
    /\ (val m e <= val a ea / val b eb * ulp1)%Q
    /\ (val a ea / val b eb <= val m e * ulp1)%Q.
Proof.
  intros Ha Hb He. cbn [SFdiv xorb]. unfold SFdiv_core_binary.
  cbn [Zdigits2].
  rewrite (digits2_unique a 24), (digits2_unique b 24) by (cbn in *; lia).
  rewrite fexp_normal by lia.
  replace (Z.min (24 + ea - (24 + eb) - 24) (ea - eb)) with (ea - eb - 24)
    by lia.
  replace (ea - eb - (ea - eb - 24)) with 24 by lia.
  rewrite Z.shiftl_mul_pow2 by lia.
  pose proof (Z_div_mod (Zpos a * 2 ^ 24) (Zpos b) ltac:(lia)) as Hdiv.
  destruct (Z.div_eucl (Zpos a * 2 ^ 24) (Zpos b)) as [q r].
  destruct Hdiv as [Hq Hr].
  change (2 ^ 23) with 8388608 in *. change (2 ^ 24) with 16777216 in *.
  assert (Hqlo : 8388608 <= q) by nia.
  assert (Hqhi : q < 2 ^ 25) by (change (2 ^ 25) with 33554432; nia).
  destruct q as [|qp|qp]; try lia.
  pose proof (digits2_gt _ 23 ltac:(lia) Hqlo) as Hk1.
  pose proof (digits2_le _ 25 Hqhi) as Hk2.
  destruct (binary_round_aux_both qp (ea - eb - 24) (new_location (Zpos b) r))
    as (m & e & Hres & Hm & Hex & Hv & Hv'); [exact Hqlo | lia | lia |].
  exists m, e. split; [exact Hres|]. split; [exact Hm|]. split; [lia|].
  apply (val_upper m e qp (ea - eb - 24)) in Hv; [|lia].
  assert (Hb0 : (0 < val b eb)%Q) by apply val_pos.
  pose proof (pow2_pos (ea - eb - 24)) as H1.
  pose proof (pow2_pos eb) as H2.
  assert (Hxy : (0 <= Qpower 2 (ea - eb - 24) * Qpower 2 eb)%Q)
    by (apply Qlt_le_weak, Qmult_lt_0_compat; trivial).
  assert (Ea : (val a ea == inject_Z (Zpos a) * inject_Z 16777216
                  * (Qpower 2 (ea - eb - 24) * Qpower 2 eb))%Q).
  { unfold val. replace ea with ((ea - eb - 24) + eb + 24) at 1 by lia.
    rewrite !pow2_add. change (Qpower 2 24) with (inject_Z 16777216). ring. }
  split.
  - assert (Hqb : (val qp (ea - eb - 24) * val b eb <= val a ea)%Q).
    { rewrite Ea. unfold val.
      assert (Hz : (inject_Z (Zpos qp) * inject_Z (Zpos b)
                    <= inject_Z (Zpos a) * inject_Z 16777216)%Q).
      { rewrite <- !inject_Z_mult, <- Zle_Qle. lia. }
      set (x := Qpower 2 (ea - eb - 24)) in *. set (y := Qpower 2 eb) in *.
      apply (Qmult_le_compat_r _ _ (x * y)) in Hz; [|exact Hxy].
      lra. }
    assert (Hquot : (val qp (ea - eb - 24) <= val a ea / val b eb)%Q)
      by (apply Qle_shift_div_l; trivial).
    assert (Hu : (0 <= ulp1)%Q) by (unfold ulp1; lra).
    apply (Qmult_le_compat_r _ _ ulp1) in Hquot; [|exact Hu].
    lra.
  - apply (val_lower m e qp (ea - eb - 24)); [lia | exact Hv' |].
    apply Qle_shift_div_r; [exact Hb0|].
    rewrite Ea. unfold val.
    assert (Hz : (inject_Z (Zpos a) * inject_Z 16777216
                  <= inject_Z (Zpos qp + 1) * inject_Z (Zpos b))%Q).
    { rewrite <- !inject_Z_mult, <- Zle_Qle. nia. }
    set (x := Qpower 2 (ea - eb - 24)) in *. set (y := Qpower 2 eb) in *.
    apply (Qmult_le_compat_r _ _ (x * y)) in Hz; [|exact Hxy].
    lra.
Qed.

End F32Bounds.

(** * Properties of the travelling mean *)

Module MeanFacts.
Import F32 Battery F32Facts F32Bounds.

Lemma to_Q_val m e : (to_Q (Fin m e) == val m e)%Q.
Proof. unfold to_Q, val. ring. Qed.

(** The weights 1 to 11 as binary32 numbers: exact, with a full
    significand. *)
Lemma of_Z_weight w :
  1 <= w <= 11 ->
  exists c ec,
    of_Z w = Fin c ec /\ 2 ^ 23 <= Zpos c < 2 ^ 24 /\ -23 <= ec <= -20
    /\ (val c ec == inject_Z w)%Q.
Proof.
  intros Hw.
  assert (Hcases : w = 1 \/ w = 2 \/ w = 3 \/ w = 4 \/ w = 5 \/ w = 6
                   \/ w = 7 \/ w = 8 \/ w = 9 \/ w = 10 \/ w = 11) by lia.
  repeat (destruct Hcases as [->|Hcases]); try subst w;
    eexists _, _; (split; [vm_compute; reflexivity|]);
    (split; [vm_compute; split; [discriminate | reflexivity]|]);
    (split; [lia|]); vm_compute; reflexivity.
Qed.

Lemma weight_succ w :
  0 <= w <= 10 -> SFadd prec emax (of_Z w) (of_Z 1) = of_Z (w + 1).
Proof.
  intros Hw.
  assert (Hcases : w = 0 \/ w = 1 \/ w = 2 \/ w = 3 \/ w = 4 \/ w = 5
                   \/ w = 6 \/ w = 7 \/ w = 8 \/ w = 9 \/ w = 10) by lia.
  repeat (destruct Hcases as [->|Hcases]); try subst w;
    vm_compute; reflexivity.
Qed.

Lemma weight_at_cap w :
  0 <= w <= 10 -> SFeqb (of_Z w) (of_Z 10) = (w =? 10).
Proof.
  intros Hw.
  assert (Hcases : w = 0 \/ w = 1 \/ w = 2 \/ w = 3 \/ w = 4 \/ w = 5
                   \/ w = 6 \/ w = 7 \/ w = 8 \/ w = 9 \/ w = 10) by lia.
  repeat (destruct Hcases as [->|Hcases]); try subst w;
    vm_compute; reflexivity.
Qed.

(** [count] after one more sample. *)
Lemma count_step (m v : f32) w :
  0 <= w <= 10 ->
  count (snd (battery_travelling_mean {| mean := m; count := of_Z w |} v))
  = of_Z (Z.min (w + 1) 10).
Proof.
  intros Hw. unfold battery_travelling_mean. cbn [snd count mean].
  change (feq ?a ?b) with (SFeqb a b). change (fadd ?a ?b) with (SFadd prec emax a b).
  change (@of_int f32 _) with of_Z.
  rewrite weight_at_cap, weight_succ by exact Hw.
  destruct (Z.eqb_spec w 10) as [->|Hne]; [reflexivity|].
  f_equal. lia.
Qed.

Lemma count_feed samples : forall (m : f32) w,
  0 <= w <= 10 ->
  count (snd (feed {| mean := m; count := of_Z w |} samples))
  = of_Z (Z.min (w + Z.of_nat (length samples)) 10).
Proof.
  induction samples as [|v samples IH]; intros m w Hw.
  - cbn [feed snd count length]. f_equal. lia.
  - cbn [feed].
    pose proof (count_step m v w Hw) as Hc.
    destruct (battery_travelling_mean _ v) as [m1 [m1' c1]] eqn:E1.
    cbn [snd count] in Hc. subst c1.
    specialize (IH m1' (Z.min (w + 1) 10) ltac:(lia)).
    destruct (feed _ samples) as [ms s'']. cbn [snd] in *.
    rewrite IH. f_equal. rewrite length_cons. lia.
Qed.

(** The expression of [battery_travelling_mean] on normal numbers: three
    roundings, each within one unit in the last place. *)
Lemma update_both a ea b eb c ec d ed :
  2 ^ 23 <= Zpos a < 2 ^ 24 -> 2 ^ 23 <= Zpos b < 2 ^ 24 ->
  2 ^ 23 <= Zpos c < 2 ^ 24 -> 2 ^ 23 <= Zpos d < 2 ^ 24 ->
  -100 <= ea <= 50 -> -100 <= eb <= 50 ->
  -23 <= ec <= -20 -> -23 <= ed <= -20 ->
  exists m e,
    SFdiv prec emax
      (SFadd prec emax (SFmul prec emax (Fin a ea) (Fin c ec))
                       (SFmul prec emax (Fin b eb) (of_Z 1)))
      (Fin d ed) = Fin m e
    /\ (val m e
        <= (val a ea * val c ec + val b eb) / val d ed
           * (ulp1 * ulp1 * ulp1))%Q
    /\ ((val a ea * val c ec + val b eb) / val d ed
        <= val m e * (ulp1 * ulp1 * ulp1))%Q.
Proof.
  intros Ha Hb Hc Hd Hea Heb Hec Hed.
  change (of_Z 1) with (Fin 8388608 (-23)).
  destruct (mul_both a ea c ec Ha Hc ltac:(lia))
    as (m1 & e1 & -> & Hm1 & He1 & U1 & L1).
  destruct (mul_both b eb 8388608 (-23) Hb ltac:(cbn; lia) ltac:(lia))
    as (m2 & e2 & -> & Hm2 & He2 & U2 & L2).
  destruct (add_both m1 e1 m2 e2 Hm1 Hm2 ltac:(lia) ltac:(lia))
    as (m3 & e3 & -> & Hm3 & He3 & U3 & L3).
  destruct (div_both m3 e3 d ed Hm3 Hd ltac:(lia))
    as (m & e & -> & Hm & He & U & L).
  exists m, e. split; [reflexivity|].
  assert (E1 : (val 8388608 (-23) == 1)%Q) by (vm_compute; reflexivity).
  rewrite E1, Qmult_1_r in U2, L2.
  pose proof (val_pos d ed) as Hd0.
  assert (Hi : (0 <= / val d ed)%Q) by (apply Qlt_le_weak, Qinv_lt_0_compat, Hd0).
  unfold Qdiv in *. set (i := (/ val d ed)%Q) in *.
  set (A := (val a ea * val c ec)%Q) in *. set (B := val b eb) in *.
  set (x1 := val m1 e1) in *. set (x2 := val m2 e2) in *.
  set (x3 := val m3 e3) in *. set (x := val m e) in *.
  unfold ulp1 in *.
  assert (U4 : (x3 <= (A + B) * ((8388609 # 8388608) * (8388609 # 8388608)))%Q) by lra.
  assert (L4 : (A + B <= x3 * ((8388609 # 8388608) * (8388609 # 8388608)))%Q) by lra.
  apply (Qmult_le_compat_r _ _ i) in U4; [|exact Hi].
  apply (Qmult_le_compat_r _ _ i) in L4; [|exact Hi].
  assert (R1 : ((A + B) * ((8388609 # 8388608) * (8388609 # 8388608)) * i
                == (A + B) * i * ((8388609 # 8388608) * (8388609 # 8388608)))%Q)
    by ring.
  assert (R2 : (x3 * ((8388609 # 8388608) * (8388609 # 8388608)) * i
                == x3 * i * ((8388609 # 8388608) * (8388609 # 8388608)))%Q)
    by ring.
  rewrite R1 in U4. rewrite R2 in L4.
  set (p := ((A + B) * i)%Q) in *. set (q := (x3 * i)%Q) in *.
  split; lra.
Qed.

(** One update at a weight from 1 to 10, against the value of the
    formula in exact arithmetic. *)
Lemma update_within a ea b eb w :
  2 ^ 23 <= Zpos a < 2 ^ 24 -> 2 ^ 23 <= Zpos b < 2 ^ 24 ->
  -100 <= ea <= 50 -> -100 <= eb <= 50 -> 1 <= w <= 10 ->
  exists m e,
    fst (battery_travelling_mean
           {| mean := Fin a ea; count := of_int w |} (Fin b eb)) = Fin m e
    /\ ((to_Q (Fin a ea) * inject_Z w + to_Q (Fin b eb)) / inject_Z (w + 1)
        * (1 - (1 # 2097152)) <= to_Q (Fin m e))%Q
    /\ (to_Q (Fin m e)
        <= (to_Q (Fin a ea) * inject_Z w + to_Q (Fin b eb)) / inject_Z (w + 1)
           * (1 + (1 # 2097152)))%Q.
Proof.
  intros Ha Hb Hea Heb Hw.
  destruct (of_Z_weight w ltac:(lia)) as (c & ec & Ec & Hc & Hec & Vc).
  destruct (of_Z_weight (w + 1) ltac:(lia)) as (d & ed & Ed & Hd & Hed & Vd).
  destruct (update_both a ea b eb c ec d ed Ha Hb Hc Hd Hea Heb Hec Hed)
    as (m & e & Hr & U & L).
  exists m, e. split.
  - unfold battery_travelling_mean. cbn [fst mean count].
    change (@of_int f32 _) with of_Z.
    change (fdiv ?x ?y) with (SFdiv prec emax x y).
    change (fadd ?x ?y) with (SFadd prec emax x y).
    change (fmul ?x ?y) with (SFmul prec emax x y).
    rewrite weight_succ by lia. rewrite Ec, Ed. exact Hr.
  - rewrite !to_Q_val. rewrite Vc, Vd in U, L.
    pose proof (val_pos m e) as Hx.
    set (X := ((val a ea * inject_Z w + val b eb) / inject_Z (w + 1))%Q) in *.
    set (x := val m e) in *. unfold ulp1 in *. split; lra.
Qed.

(** The first sample, from the zero-initialised state. *)
Lemma first_within b eb :
  2 ^ 23 <= Zpos b < 2 ^ 24 -> -100 <= eb <= 50 ->
  exists m e,
    fst (battery_travelling_mean mean_init (Fin b eb)) = Fin m e
    /\ (to_Q (Fin b eb) * (1 - (1 # 2097152)) <= to_Q (Fin m e))%Q
    /\ (to_Q (Fin m e) <= to_Q (Fin b eb) * (1 + (1 # 2097152)))%Q.
Proof.
  intros Hb Heb.
  destruct (mul_both b eb 8388608 (-23) Hb ltac:(cbn; lia) ltac:(lia))
    as (m2 & e2 & Hr2 & Hm2 & He2 & U2 & L2).
  destruct (div_both m2 e2 8388608 (-23) Hm2 ltac:(cbn; lia) ltac:(lia))
    as (m & e & Hr & Hm & He & U & L).
  exists m, e. split.
  - unfold battery_travelling_mean, mean_init. cbn [fst mean count].
    change (@of_int f32 _) with of_Z.
    change (fdiv ?x ?y) with (SFdiv prec emax x y).
    change (fadd ?x ?y) with (SFadd prec emax x y).
    change (fmul ?x ?y) with (SFmul prec emax x y).
    change (SFmul prec emax (of_Z 0) (of_Z 0)) with (S754_zero false).
    change (SFadd prec emax (of_Z 0) (of_Z 1)) with (Fin 8388608 (-23)).
    change (of_Z 1) with (Fin 8388608 (-23)).
    rewrite Hr2. cbn [SFadd]. exact Hr.
  - rewrite !to_Q_val.
    assert (E1 : (val 8388608 (-23) == 1)%Q) by (vm_compute; reflexivity).
    unfold Qdiv in U, L. rewrite E1 in U2, L2, U, L.
    change (/ 1)%Q with 1%Q in U, L. rewrite !Qmult_1_r in *.
    pose proof (val_pos m e). pose proof (val_pos b eb).
    set (x := val m e) in *. set (x2 := val m2 e2) in *.
    set (B := val b eb) in *. unfold ulp1 in *. split; lra.
Qed.

End MeanFacts.

(** * The claims about the battery estimator *)

Import Exact F32 Battery F32Facts BatteryFacts MeanFacts.

(** C2, as amended. In binary32, [battery_voltage_to_percent] maps the
    voltage 3.80 to 100, every voltage of 2.70 or below to 0, the voltage
    3.045, halfway between the calibration points 3.02 and 3.07, which
    bound the bucket from 40% to 50%, to 45, and the voltage 3.085,
    halfway between 3.07 and 3.10, which bound the bucket from 50% to
    60%, to 55. *)
Theorem C2_interpolation_points (voltage : f32) :
  SFleb voltage (of_lit 270 100) = true ->
  battery_voltage_to_percent (of_lit (F := f32) 380 100) = Ok 100
  /\ battery_voltage_to_percent voltage = Ok 0
  /\ battery_voltage_to_percent (of_lit (F := f32) 270 100) = Ok 0
  /\ battery_voltage_to_percent (of_lit (F := f32) 3045 1000) = Ok 45
  /\ battery_voltage_to_percent (of_lit (F := f32) 3085 1000) = Ok 55.
Proof.
  intros Hle.
  split; [vm_compute; reflexivity|].
  split; [apply percent_below; exact Hle|].
  repeat split; vm_compute; reflexivity.
Qed.

(** The theorem at the voltage 1.0. *)
Lemma C2_interpolation_points_witness :
  SFleb (of_int (F := f32) 1) (of_lit 270 100) = true
  /\ battery_voltage_to_percent (of_lit (F := f32) 380 100) = Ok 100
  /\ battery_voltage_to_percent (of_int (F := f32) 1) = Ok 0
  /\ battery_voltage_to_percent (of_lit (F := f32) 270 100) = Ok 0
  /\ battery_voltage_to_percent (of_lit (F := f32) 3045 1000) = Ok 45
  /\ battery_voltage_to_percent (of_lit (F := f32) 3085 1000) = Ok 55.
Proof.
  split; [reflexivity|].
  apply (C2_interpolation_points (of_int 1)). reflexivity.
Defined.

(** C2 as stated fails at 3.045: index 6 of the curve (3.02) stands for
    40% and index 5 (3.07) for 50%, so the midpoint gives 45, not 55. *)
Lemma C2_counterexample :
  battery_voltage_to_percent (of_lit (F := f32) 3045 1000) = Ok 45
  /\ battery_voltage_to_percent (of_lit (F := f32) 3045 1000) <> Ok 55.
Proof. split; [vm_compute; reflexivity | vm_compute; discriminate]. Qed.

(** C8, as amended. [battery_travelling_mean] computes
    [(mean * count + new) / (count + 1)] and caps [count] at 10, in
    binary32 in the firmware: after any [n] samples from the
    zero-initialised state [count] is [min n 10]. Fed eleven times the
    value 1 from that state, it returns exactly 1.0 every time, from the
    first sample on, and ends with [count] at 10. In exact arithmetic,
    once [count] is 10 a sample [v] moves the mean by exactly
    [(v - mean) / 11], and [count] stays at 10. In binary32 the
    expression is rounded three times: for a mean [a * 2^ea] and a sample
    [b * 2^eb] with 24-bit significands and exponents from -100 to 50,
    the first sample gives a mean within a relative error of [2^-21] of
    the sample, an update at a weight [w] from 1 to 10 gives a mean
    within a relative error of [2^-21] of [(mean * w + v) / (w + 1)], and
    at the weight 10 the mean moves by [(v - mean) / 11] up to an error
    of [2^-21] times [(mean * 10 + v) / 11]. *)
Theorem C8_travelling_mean
    (s : mean_state Q) (v : Q) (s32 : mean_state f32) (v32 : f32)
    (samples : list f32) (a b : positive) (ea eb w : Z) :
  (fst (battery_travelling_mean s v)
   == (mean s * count s + v) / (count s + 1))%Q
  /\ ((count s == 10)%Q ->
      (fst (battery_travelling_mean s v) - mean s == (v - mean s) / 11)%Q
      /\ (count (snd (battery_travelling_mean s v)) == 10)%Q)
  /\ (~ (count s == 10)%Q ->
      (count (snd (battery_travelling_mean s v)) == count s + 1)%Q)
  /\ fst (battery_travelling_mean s32 v32)
     = SFdiv prec emax
         (SFadd prec emax (SFmul prec emax (mean s32) (count s32))
                          (SFmul prec emax v32 (of_Z 1)))
         (SFadd prec emax (count s32) (of_Z 1))
  /\ count (snd (battery_travelling_mean s32 v32))
     = (if SFeqb (count s32) (of_Z 10) then of_Z 10
        else SFadd prec emax (count s32) (of_Z 1))
  /\ feed (F := f32) mean_init (replicate 11 (of_int 1))
     = (replicate 11 (of_int 1), {| mean := of_int 1; count := of_int 10 |})
  /\ (to_Q (of_int 1) == 1)%Q
  /\ count (snd (feed (F := f32) mean_init samples))
     = of_int (Z.min (Z.of_nat (length samples)) 10)
  /\ (2 ^ 23 <= Zpos b < 2 ^ 24 -> -100 <= eb <= 50 ->
      exists m e,
        fst (battery_travelling_mean mean_init (Fin b eb)) = Fin m e
        /\ (to_Q (Fin b eb) * (1 - (1 # 2097152)) <= to_Q (Fin m e))%Q
        /\ (to_Q (Fin m e) <= to_Q (Fin b eb) * (1 + (1 # 2097152)))%Q)
  /\ (2 ^ 23 <= Zpos a < 2 ^ 24 -> 2 ^ 23 <= Zpos b < 2 ^ 24 ->
      -100 <= ea <= 50 -> -100 <= eb <= 50 -> 1 <= w <= 10 ->
      exists m e,
        fst (battery_travelling_mean
               {| mean := Fin a ea; count := of_int w |} (Fin b eb))
        = Fin m e
        /\ ((to_Q (Fin a ea) * inject_Z w + to_Q (Fin b eb))
            / inject_Z (w + 1) * (1 - (1 # 2097152)) <= to_Q (Fin m e))%Q
        /\ (to_Q (Fin m e)
            <= (to_Q (Fin a ea) * inject_Z w + to_Q (Fin b eb))
               / inject_Z (w + 1) * (1 + (1 # 2097152)))%Q)
  /\ (2 ^ 23 <= Zpos a < 2 ^ 24 -> 2 ^ 23 <= Zpos b < 2 ^ 24 ->
      -100 <= ea <= 50 -> -100 <= eb <= 50 ->
      exists m e,
        fst (battery_travelling_mean
               {| mean := Fin a ea; count := of_int 10 |} (Fin b eb))
        = Fin m e
        /\ count (snd (battery_travelling_mean
                         {| mean := Fin a ea; count := of_int 10 |}
                         (Fin b eb))) = of_int 10
        /\ ((to_Q (Fin b eb) - to_Q (Fin a ea)) / 11
            - (to_Q (Fin a ea) * 10 + to_Q (Fin b eb)) / 11 * (1 # 2097152)
            <= to_Q (Fin m e) - to_Q (Fin a ea))%Q
        /\ (to_Q (Fin m e) - to_Q (Fin a ea)
            <= (to_Q (Fin b eb) - to_Q (Fin a ea)) / 11
               + (to_Q (Fin a ea) * 10 + to_Q (Fin b eb)) / 11
                 * (1 # 2097152))%Q).
Proof.
  split; [|split; [|split; [|split; [|split; [|split; [|split]]]]]].
  1-3: unfold battery_travelling_mean; cbn [fst snd mean count];
    change (@fdiv Q _) with Qdiv; change (@fadd Q _) with Qplus;
    change (@fmul Q _) with Qmult; change (@of_int Q _) with inject_Z;
    change (@feq Q _) with Qeq_bool;
    change (inject_Z 1) with 1%Q; change (inject_Z 10) with 10%Q.
  - now rewrite Qmult_1_r.
  - intros Hc. rewrite (proj2 (Qeq_bool_iff _ _) Hc). cbn [count].
    split; [|reflexivity]. rewrite Hc. field.
  - intros Hc. destruct (Qeq_bool (count s) 10) eqn:E.
    + apply Qeq_bool_iff in E. contradiction.
    + reflexivity.
  - reflexivity.
  - reflexivity.
  - vm_compute. reflexivity.
  - vm_compute. reflexivity.
  - split; [|split; [|split]].
    + change (@of_int f32 _) with of_Z.
      apply (count_feed samples (of_Z 0) 0). lia.
    + intros Hb Heb. now apply first_within.
    + intros Ha Hb Hea Heb Hw. now apply update_within.
    + intros Ha Hb Hea Heb.
      destruct (update_within a ea b eb 10 Ha Hb Hea Heb ltac:(lia))
        as (m & e & Hr & L & U).
      exists m, e. split; [exact Hr|]. split.
      * change (@of_int f32 _) with of_Z.
        apply (count_step (Fin a ea) (Fin b eb) 10). lia.
      * change (inject_Z 10) with (10 # 1) in L, U.
        change (inject_Z (10 + 1)) with (11 # 1) in L, U.
        unfold Qdiv in *. change (/ (11 # 1))%Q with (1 # 11)%Q in *.
        set (x := to_Q (Fin m e)) in *. set (A := to_Q (Fin a ea)) in *.
        set (B := to_Q (Fin b eb)) in *. split; lra.
Qed.

(** The theorem at a mean of 1 with the weight at its cap and a sample
    of 2, in exact arithmetic, and in binary32 at the mean
    [8388611 * 2^-23] with the sample 2, at four samples, and at a first
    sample of 2. *)
Lemma C8_travelling_mean_witness :
  ((count {| mean := 1%Q; count := 10%Q |} == 10)%Q
   /\ (fst (battery_travelling_mean {| mean := 1%Q; count := 10%Q |} 2%Q)
       - mean {| mean := 1%Q; count := 10%Q |}
       == (2 - mean {| mean := 1%Q; count := 10%Q |}) / 11)%Q
   /\ (count (snd (battery_travelling_mean
                     {| mean := 1%Q; count := 10%Q |} 2%Q)) == 10)%Q)
  /\ count (snd (feed (F := f32) mean_init (replicate 4 (of_int 2))))
     = of_int 4
  /\ (exists m e,
        fst (battery_travelling_mean mean_init (Fin 8388608 (-22)))
        = Fin m e
        /\ (to_Q (Fin 8388608 (-22)) * (1 - (1 # 2097152))
            <= to_Q (Fin m e))%Q
        /\ (to_Q (Fin m e)
            <= to_Q (Fin 8388608 (-22)) * (1 + (1 # 2097152)))%Q)
  /\ (exists m e,
        fst (battery_travelling_mean
               {| mean := Fin 8388611 (-23); count := of_int 10 |}
               (Fin 8388608 (-22)))
        = Fin m e
        /\ count (snd (battery_travelling_mean
                         {| mean := Fin 8388611 (-23); count := of_int 10 |}
                         (Fin 8388608 (-22)))) = of_int 10
        /\ ((to_Q (Fin 8388608 (-22)) - to_Q (Fin 8388611 (-23))) / 11
            - (to_Q (Fin 8388611 (-23)) * 10 + to_Q (Fin 8388608 (-22)))
              / 11 * (1 # 2097152)
            <= to_Q (Fin m e) - to_Q (Fin 8388611 (-23)))%Q
        /\ (to_Q (Fin m e) - to_Q (Fin 8388611 (-23))
            <= (to_Q (Fin 8388608 (-22)) - to_Q (Fin 8388611 (-23))) / 11
               + (to_Q (Fin 8388611 (-23)) * 10 + to_Q (Fin 8388608 (-22)))
                 / 11 * (1 # 2097152))%Q).
Proof.
  pose proof (C8_travelling_mean
                {| mean := 1%Q; count := 10%Q |} 2%Q mean_init (of_int 1)
                (replicate 4 (of_int 2)) 8388611 8388608 (-23) (-22) 10)
    as (_ & Hq & _ & _ & _ & _ & _ & Hn & Hfirst & _ & Hcap).
  split; [split; [reflexivity | apply Hq; reflexivity]|].
  split; [exact Hn|].
  split; [apply Hfirst; [vm_compute; intuition discriminate | lia]|].
  apply Hcap; first [lia | vm_compute; intuition discriminate].
Defined.

(** C8 as stated fails in binary32: with the weight at its cap and the
    mean at 1.0, the sample 2.0 gives the mean [9151209 * 2^-23], the
    binary32 number nearest to 12/11; the change is not [(v - mean) / 11]
    but above it, and the binary32 difference of the two means is not the
    binary32 quotient either. Nor is the new mean always the binary32
    number nearest to the exact one: from the mean [8388611 * 2^-23] the
    sample 2.0 gives [9151212 * 2^-23], and [9151211 * 2^-23] is
    nearer. *)
Lemma C8_counterexample :
  let s := snd (feed (F := f32) mean_init (replicate 11 (of_int 1))) in
  let v := of_int (F := f32) 2 in
  let mean' := fst (battery_travelling_mean s v) in
  let t := {| mean := Fin 8388611 (-23); count := of_int 10 |} in
  let exact := ((to_Q (mean t) * 10 + to_Q v) / 11)%Q in
  mean s = of_int 1 /\ count s = of_int 10
  /\ mean' = Fin 9151209 (-23)
  /\ ~ (to_Q mean' - to_Q (mean s) == (to_Q v - to_Q (mean s)) / 11)%Q
  /\ ((to_Q v - to_Q (mean s)) / 11 < to_Q mean' - to_Q (mean s))%Q
  /\ SFsub prec emax mean' (mean s)
     <> SFdiv prec emax (SFsub prec emax v (mean s)) (of_Z 11)
  /\ fst (battery_travelling_mean t v) = Fin 9151212 (-23)
  /\ (exact - to_Q (Fin 9151211 (-23))
      < to_Q (Fin 9151212 (-23)) - exact)%Q.
Proof.
  cbv zeta.
  split; [vm_compute; reflexivity|]. split; [vm_compute; reflexivity|].
  split; [vm_compute; reflexivity|].
  split; [vm_compute; discriminate|].
  split; [vm_compute; reflexivity|].
  split; [vm_compute; discriminate|].
  split; vm_compute; reflexivity.
Qed.

(** C9. For every binary32 input, NaN and the infinities included,
    [battery_voltage_to_percent] returns, with no array access out of
    bounds and no conversion out of range, a value in [[0, 100]]. When the
    interpolation branch is taken its index [i] is at least 1, so
    [curve[i - 1]] is within the array, [curve[i] < curve[i - 1]], and the
    divisor [curve[i - 1] - curve[i]] is not zero; otherwise the result is
    100 or 0. *)
Theorem C9_percent_total (voltage : f32) :
  exists percent,
    battery_voltage_to_percent voltage = Ok percent
    /\ 0 <= percent <= 100
    /\ match interpolation_index voltage with
       | Some i =>
           1 <= i <= 10
           /\ battery_voltage_to_percent voltage = interpolate i voltage
           /\ exists v0 v1,
                array_get battery_discharge_curve i = Ok v0
                /\ array_get battery_discharge_curve (size_t (i - 1)) = Ok v1
                /\ flt v0 v1 = true
                /\ feq (fsub v1 v0) (of_int 0) = false
       | None => percent = 100 \/ percent = 0
       end.
Proof.
  rewrite percent_unfold. unfold interpolation_index. rewrite curve32_eq.
  change (array_get curve32 0) with (Ok (Fin 15938355 (-22)) : result f32).
  change (flt ?a ?b) with (SFltb a b).
  destruct (SFltb (Fin 15938355 (-22)) voltage) eqn:E0.
  - exists 100. split; [reflexivity|]. split; [lia|]. rewrite E0. now left.
  - destruct (branch_index curve_size 0 voltage) as [j|] eqn:Ej.
    + destruct (interpolate_range j voltage E0 Ej) as (Hj & z & Hz & Hr).
      exists z. split; [exact Hz|]. split; [exact Hr|]. rewrite ?E0, ?Ej.
      split; [exact Hj|]. split; [reflexivity|].
      assert (Hcases : j = 1 \/ j = 2 \/ j = 3 \/ j = 4 \/ j = 5 \/ j = 6
                       \/ j = 7 \/ j = 8 \/ j = 9 \/ j = 10) by lia.
      repeat (destruct Hcases as [->|Hcases]); try subst j;
        eexists _, _; repeat split; vm_compute; reflexivity.
    + exists 0. split; [reflexivity|]. split; [lia|]. rewrite ?E0, ?Ej.
      now right.
Qed.

(** * Lemmas on the console, the battery sampler and the advertising
      payload *)

(** ** The ring at its limits and against a queue *)

Module RingMore.
Import Ring RingTrace RingFacts.

Lemma ring_push_full ring byte :
  ring_inv ring -> ring_full ring = true ->
  exists ring', ring_push ring byte = Ok ring' /\ ring_inv ring'
    /\ ring_empty ring' = true.
Proof.
  intros Hinv Hfull.
  destruct (ring_push_inv ring byte Hinv)
    as (ring' & Hpush & Hinv' & _ & Hhd & Htl).
  exists ring'. split; [exact Hpush|]. split; [exact Hinv'|].
  unfold ring_full in Hfull. fold (advance (tail ring)) in Hfull.
  unfold ring_empty. rewrite Hhd, Htl. apply Z.eqb_eq in Hfull.
  apply Z.eqb_eq. lia.
Qed.

Lemma ring_pop_empty ring :
  ring_inv ring -> ring_empty ring = true ->
  exists byte ring', ring_pop ring = Ok (byte, ring') /\ ring_inv ring'
    /\ ring_full ring' = true
    /\ buffer ring !! Z.to_nat (head ring) = Some byte.
Proof.
  intros Hinv Hempty.
  destruct (ring_pop_inv ring Hinv)
    as (byte & ring' & Hpop & Hinv' & Hcell & _ & Hhd & Htl).
  exists byte, ring'. split; [exact Hpop|]. split; [exact Hinv'|].
  split; [|exact Hcell].
  unfold ring_empty in Hempty. apply Z.eqb_eq in Hempty.
  destruct Hinv as (_ & Hh & Ht).
  destruct Hinv' as (_ & Hh' & Ht').
  destruct (advance_spec _ Hh) as [Hadv _].
  unfold ring_full. fold (advance (tail ring')).
  destruct (advance_spec _ Ht') as [Hadv' _].
  rewrite Hadv', Htl, Hhd, Hadv, <- Hempty. apply Z.eqb_eq.
  unfold RING_BUFFER_LENGTH in *.
  destruct (Z.eqb_spec (head ring + 1) (1024 + 45)); lia.
Qed.
Lemma ring_not_full ring :
  ring_inv ring ->
  Z.of_nat (length (contents ring)) < RING_BUFFER_LENGTH - 1 ->
  ring_full ring = false.
Proof.
  intros Hinv Hlen. destruct (ring_full ring) eqn:E; [|reflexivity].
  apply (ring_full_contents _ Hinv) in E. lia.
Qed.

(** Guarded by the queue, the ring does what the queue does. *)
Lemma run_trace_refines ops : forall ring out q',
  ring_inv ring ->
  queue_trace (contents ring) ops = Some (out, q') ->
  exists ring',
    run_trace ring ops = Ok (out, ring')
    /\ ring_inv ring'
    /\ contents ring' = q'.
Proof.
  induction ops as [|op ops IH]; intros ring out q' Hinv Hq;
    cbn [queue_trace run_trace] in *.
  - injection Hq as <- <-. eauto.
  - destruct op as [| |b|]; cbn [run_op].
    + now apply IH.
    + now apply IH.
    + destruct (Z.ltb_spec (Z.of_nat (length (contents ring)))
                  (RING_BUFFER_LENGTH - 1)) as [Hlt|]; [|discriminate].
      destruct (ring_push_contents ring b Hinv (ring_not_full _ Hinv Hlt))
        as (r1 & -> & Hinv1 & Hc1).
      apply IH; [exact Hinv1|now rewrite Hc1].
    + destruct (contents ring) as [|b q] eqn:Hc; [discriminate|].
      destruct (queue_trace q ops) as [[out1 q1]|] eqn:Hq1; [|discriminate].
      injection Hq as <- <-.
      assert (Hne : ring_empty ring = false).
      { apply ring_not_empty; [exact Hinv|]. now rewrite Hc. }
      destruct (ring_pop_contents ring Hinv Hne)
        as (b' & r1 & -> & Hinv1 & Hc1).
      rewrite Hc in Hc1. injection Hc1 as <- Hq'.
      destruct (IH r1 out1 q1 Hinv1) as (r2 & -> & Hinv2 & Hc2).
      { now rewrite <- Hq'. }
      eauto.
Qed.

End RingMore.

(** ** What the handler and the flush leave alone *)

Module ConsoleFacts.
Import Ring Ble Console RingFacts BleFacts RingMore.

(** *** Frame conditions *)

Lemma keeps_ret {A B} (proj : world -> B) (a : A) : keeps proj (mret a).
Proof. intros w a' w' E. injection E as <- <-. reflexivity. Qed.

Lemma keeps_bind {A B C} (proj : world -> C) (m : M A) (k : A -> M B) :
  keeps proj m -> (forall a, keeps proj (k a)) -> keeps proj (m ≫= k).
Proof.
  intros Hm Hk w b w' E. unfold mbind, M_bind in E.
  destruct (m w) as [[a w1]|] eqn:E1; [|discriminate].
  rewrite (Hk a _ _ _ E). exact (Hm _ _ _ E1).
Qed.

Lemma keeps_assert {B} (proj : world -> B) b : keeps proj (NRFX_ASSERT b).
Proof.
  intros w a w' E. destruct b; [|discriminate].
  injection E as <- <-. reflexivity.
Qed.

Lemma keeps_gets {A B} (proj : world -> B) (f : world -> A) :
  keeps proj (gets f).
Proof. intros w a w' E. injection E as <- <-. reflexivity. Qed.

Lemma keeps_throw {A B} (proj : world -> B) f : keeps proj (@throw A f).
Proof. intros w a w' E. discriminate. Qed.

Lemma keeps_sd {B} (proj : world -> B) c :
  untouched_by_sd proj -> keeps proj (sd c).
Proof.
  intros Hp w a w' E. unfold sd in E.
  destruct (sd_replies w); injection E as <- <-; apply Hp.
Qed.

Lemma keeps_modify {B} (proj : world -> B) upd :
  (forall w, proj (upd w) = proj w) -> keeps proj (modify upd).
Proof. intros Hp w a w' E. injection E as <- <-. apply Hp. Qed.

Lemma keeps_write_loop {B} (proj : world -> B) data :
  (forall r w, proj (set_rx r w) = proj w) -> keeps proj (write_loop data).
Proof.
  intros Hp w [] w' E. apply write_loop_frame in E as [r ->]. apply Hp.
Qed.

Lemma flush_fill_frame space : forall out w out' w',
  flush_fill space out w = Ok (out', w') -> exists ring', w' = set_tx ring' w.
Proof.
  induction space as [|space IH]; intros out w out' w' E;
    cbn [flush_fill] in E; [discriminate|].
  unfold mbind, M_bind, tx_pop, gets, mret, M_ret in E.
  destruct (ring_pop (tx w)) as [[b r1]|]; [|discriminate].
  cbn [negotiated_mtu set_tx tx] in E.
  destruct (Z.of_nat (length (out ++ [b])) >=? negotiated_mtu w).
  - injection E as <- <-. eauto.
  - cbn beta in E. cbn [tx set_tx] in E. destruct (ring_empty r1).
    + injection E as <- <-. eauto.
    + apply IH in E as [r2 ->]. now exists r2.
Qed.

Lemma ble_flush_tx_frame w w' :
  ble_flush_tx w = Ok (tt, w') ->
  exists ring' calls replies,
    w' = set_softdevice calls replies (set_tx ring' w).
Proof.
  unfold ble_flush_tx, mbind, M_bind, gets, mret, M_ret, NRFX_ASSERT, throw.
  intros E.
  destruct (ring_empty (tx w)).
  - injection E as <-. exists (tx w), (sd_calls w), (sd_replies w).
    now destruct w.
  - destruct (flush_fill _ [] w) as [[out w1]|] eqn:Ef; [|discriminate].
    apply flush_fill_frame in Ef as [r1 ->].
    unfold hvx_send in E.
    destruct (hvx_retry _ _ _) as [[err calls] replies].
    destruct ((err =? NRF_ERROR_INVALID_STATE)
              || (err =? BLE_ERROR_INVALID_CONN_HANDLE)).
    + injection E as <-. eauto.
    + destruct (err =? 0); [|discriminate]. injection E as <-. eauto.
Qed.

Lemma keeps_flush {B} (proj : world -> B) :
  untouched_by_sd proj -> (forall r w, proj (set_tx r w) = proj w) ->
  keeps proj ble_flush_tx.
Proof.
  intros Hsd Htx w [] w' E.
  apply ble_flush_tx_frame in E as (r & calls & replies & ->).
  now rewrite Hsd, Htx.
Qed.

Create HintDb frame.

#[local] Hint Resolve keeps_ret keeps_assert keeps_gets keeps_throw
  keeps_sd keeps_modify keeps_write_loop : frame.

Ltac frame_split :=
  repeat (apply keeps_bind; [|intros ?]); auto with frame.

(** The handler of any event leaves alone what is neither a ring nor
    the connection handle nor [negotiated_mtu] nor the SoftDevice. *)
Lemma handle_keeps_static {B} (proj : world -> B) e :
  untouched_by_sd proj ->
  (forall c w, proj (set_connection c w) = proj w) ->
  (forall m w, proj (set_negotiated_mtu m w) = proj w) ->
  (forall r w, proj (set_rx r w) = proj w) ->
  keeps proj (handle_ble_evt e).
Proof.
  intros Hsd Hc Hm Hr.
  destruct e; cbn [handle_ble_evt]; frame_split;
    first [ apply keeps_sd | apply keeps_modify | apply keeps_write_loop ];
    auto.
Qed.

Lemma handle_keeps_tx e : keeps tx (handle_ble_evt e).
Proof. apply handle_keeps_static; intros ? ? **; reflexivity. Qed.

Lemma handle_keeps_rx e :
  is_write_of_data e = false -> keeps rx (handle_ble_evt e).
Proof.
  intros He. destruct e as [| | | |c [|b data]| | | | |]; try discriminate He;
    cbn [handle_ble_evt write_loop]; frame_split;
    first [ apply keeps_sd | apply keeps_modify ];
    unfold untouched_by_sd; intros; reflexivity.
Qed.

Lemma irq_keeps {B} (proj : world -> B) (ok : ble_evt_t -> bool) pending :
  (forall e, ok e = true -> keeps proj (handle_ble_evt e)) ->
  forallb ok pending = true ->
  keeps proj (SWI2_IRQHandler pending).
Proof.
  intros Hstep. induction pending as [|e pending IH]; intros Hok;
    cbn [SWI2_IRQHandler].
  - apply keeps_ret.
  - cbn [forallb] in Hok. apply andb_true_iff in Hok as [He Hok].
    apply keeps_bind; [now apply Hstep | intros _; now apply IH].
Qed.

Lemma irq_keeps_all {B} (proj : world -> B) pending :
  (forall e, keeps proj (handle_ble_evt e)) ->
  keeps proj (SWI2_IRQHandler pending).
Proof.
  intros Hstep. apply (irq_keeps proj (fun _ => true)); [auto|].
  induction pending; [reflexivity|exact IHpending].
Qed.

End ConsoleFacts.

(** ** [ble_flush_tx] under any answer of the SoftDevice *)

Module FlushFacts.
Import Ring Ble Console RingFacts BleFacts RingMore ConsoleFacts.

(** The retry loop hands the same call to the SoftDevice once per
    [NRF_ERROR_RESOURCES] answer and once more, and stops on the first
    other answer. *)
Lemma hvx_retry_busy c n : forall calls err rest,
  err <> NRF_ERROR_RESOURCES ->
  hvx_retry c calls (replicate n NRF_ERROR_RESOURCES ++ err :: rest)
  = (err, calls ++ replicate (S n) c, rest).
Proof.
  induction n as [|n IH]; intros calls err rest Hne; cbn [replicate app hvx_retry].
  - destruct (Z.eqb_spec err NRF_ERROR_RESOURCES); [contradiction|reflexivity].
  - change (NRF_ERROR_RESOURCES =? NRF_ERROR_RESOURCES) with true. cbn iota.
    rewrite IH by exact Hne. now rewrite <- app_assoc.
Qed.

(** One [ble_flush_tx] on a transmit ring that is not empty, whatever
    the SoftDevice answers. *)
Lemma ble_flush_tx_any w :
  ring_inv (tx w) -> ring_empty (tx w) = false ->
  negotiated_mtu w <= MAX_MTU_LENGTH ->
  let k := frame_length (negotiated_mtu w) (contents (tx w)) in
  let c := Sd_ble_gatts_hvx (connection w) (tx_value_handle w)
                            (take k (contents (tx w))) in
  exists ring',
    ring_inv ring' /\ contents ring' = drop k (contents (tx w))
    /\ ble_flush_tx w
       = let '(err, calls, replies) :=
           hvx_retry c (sd_calls w) (sd_replies w) in
         if (err =? NRF_ERROR_INVALID_STATE)
            || (err =? BLE_ERROR_INVALID_CONN_HANDLE) || (err =? 0)
         then Ok (tt, set_softdevice calls replies (set_tx ring' w))
         else Fault Assertion_failed.
Proof.
  intros Hinv Hne Hmtu k c.
  destruct (flush_fill_spec (Z.to_nat MAX_MTU_LENGTH) [] w Hinv Hne)
    as (r1 & Hfill & Hinv1 & Hc1).
  { cbn [length]. unfold frame_length, MAX_MTU_LENGTH in *. lia. }
  cbn [length] in Hfill, Hc1. rewrite Z.sub_0_r in Hfill, Hc1.
  fold k in Hfill, Hc1. cbn [app] in Hfill.
  exists r1. split; [exact Hinv1|]. split; [exact Hc1|].
  unfold ble_flush_tx, mbind, M_bind, gets. rewrite Hne, Hfill.
  unfold hvx_send. cbn [connection tx_value_handle sd_calls sd_replies set_tx].
  fold c. destruct (hvx_retry c (sd_calls w) (sd_replies w)) as [[err calls] replies].
  destruct ((err =? NRF_ERROR_INVALID_STATE)
            || (err =? BLE_ERROR_INVALID_CONN_HANDLE)); [reflexivity|].
  cbn [orb]. unfold NRFX_ASSERT. destruct (err =? 0); reflexivity.
Qed.

(** With more than [MAX_MTU_LENGTH] bytes waiting and a larger
    [negotiated_mtu], the loop writes past the end of [out_buffer]. *)
Lemma flush_fill_overrun space : forall out w,
  ring_inv (tx w) ->
  (space < length (contents (tx w)))%nat ->
  Z.of_nat (length out + space) < negotiated_mtu w ->
  flush_fill space out w = Fault Out_of_bounds.
Proof.
  induction space as [|space IH]; intros out w Hinv Hlen Hmtu;
    cbn [flush_fill]; [reflexivity|].
  assert (Hne : ring_empty (tx w) = false).
  { destruct (ring_empty (tx w)) eqn:E; [|reflexivity].
    apply (ring_empty_contents _ Hinv) in E. rewrite E in Hlen.
    cbn [length] in Hlen. lia. }
  destruct (ring_pop_contents _ Hinv Hne) as (b & r1 & Hpop & Hinv1 & Hc).
  unfold mbind, M_bind, tx_pop. rewrite Hpop.
  unfold gets at 1. cbn [negotiated_mtu set_tx].
  rewrite length_app. cbn [length].
  destruct (Z.geb_spec (Z.of_nat (length out + 1)) (negotiated_mtu w));
    [lia|].
  unfold gets. cbn [tx set_tx].
  rewrite Hc in Hlen. cbn [length] in Hlen.
  destruct (ring_empty r1) eqn:E1.
  { apply (ring_empty_contents _ Hinv1) in E1. rewrite E1 in Hlen.
    cbn [length] in Hlen. lia. }
  apply IH; cbn [tx set_tx negotiated_mtu]; [exact Hinv1|lia|].
  rewrite length_app. cbn [length]. lia.
Qed.

Lemma ble_flush_tx_overrun w :
  ring_inv (tx w) ->
  MAX_MTU_LENGTH < Z.of_nat (length (contents (tx w))) ->
  MAX_MTU_LENGTH < negotiated_mtu w ->
  ble_flush_tx w = Fault Out_of_bounds.
Proof.
  intros Hinv Hlen Hmtu.
  assert (Hne : ring_empty (tx w) = false).
  { destruct (ring_empty (tx w)) eqn:E; [|reflexivity].
    apply (ring_empty_contents _ Hinv) in E. rewrite E in Hlen.
    cbn [length] in Hlen. unfold MAX_MTU_LENGTH in Hlen. lia. }
  unfold ble_flush_tx, mbind, M_bind, gets. rewrite Hne.
  rewrite flush_fill_overrun; [reflexivity|exact Hinv| |];
    unfold MAX_MTU_LENGTH in *; cbn [length]; lia.
Qed.

End FlushFacts.

(** ** No access out of bounds *)

Module SafetyFacts.
Import Ring Ble Console RingFacts BleFacts RingMore ConsoleFacts FlushFacts.

Lemma safe_ret I {A} (a : A) : safe I (mret a).
Proof. intros w Hw. exact Hw. Qed.

Lemma safe_bind I {A B} (m : M A) (k : A -> M B) :
  safe I m -> (forall a, safe I (k a)) -> safe I (m ≫= k).
Proof.
  intros Hm Hk w Hw. unfold mbind, M_bind. specialize (Hm w Hw).
  destruct (m w) as [[a w1]|f]; [apply Hk, Hm|exact Hm].
Qed.

Lemma safe_assert I b : safe I (NRFX_ASSERT b).
Proof. intros w Hw. destruct b; [exact Hw|reflexivity]. Qed.

Lemma safe_gets I {A} (f : world -> A) : safe I (gets f).
Proof. intros w Hw. exact Hw. Qed.

Lemma safe_sd (I : world -> Prop) c :
  (forall w calls replies, I w -> I (set_softdevice calls replies w)) ->
  safe I (sd c).
Proof. intros HI w Hw. unfold sd. destruct (sd_replies w); apply HI, Hw. Qed.

Lemma safe_modify (I : world -> Prop) upd :
  (forall w, I w -> I (upd w)) -> safe I (modify upd).
Proof. intros HI w Hw. apply HI, Hw. Qed.

Lemma safe_rx_write_loop data :
  safe (fun w => ring_inv (rx w)) (write_loop data).
Proof.
  intros w Hrx.
  destruct (write_loop_spec data w Hrx) as (r & -> & Hr & _). exact Hr.
Qed.

Lemma safe_write_loop data : safe driver_inv (write_loop data).
Proof.
  intros w (Hrx & Htx & Hmtu).
  destruct (write_loop_spec data w Hrx) as (r & -> & Hr & _).
  split; [exact Hr|]. split; [exact Htx|exact Hmtu].
Qed.

Lemma safe_mtu client_mtu :
  3 <= client_mtu < 65536 ->
  safe driver_inv (modify (set_negotiated_mtu
                  (uint16 (if MAX_MTU_LENGTH <? client_mtu
                           then MAX_MTU_LENGTH - 3
                           else client_mtu - 3)))).
Proof.
  intros Hc w (Hrx & Htx & _). split; [exact Hrx|]. split; [exact Htx|].
  cbn [negotiated_mtu set_negotiated_mtu]. unfold MAX_MTU_LENGTH, uint16.
  destruct (Z.ltb_spec 128 client_mtu);
    rewrite Z.mod_small by lia; lia.
Qed.

#[local] Hint Resolve safe_ret safe_assert safe_gets safe_write_loop
  safe_rx_write_loop : frame.

Ltac safe_split :=
  repeat (apply safe_bind; [|intros ?]); auto with frame;
  try (first [apply safe_sd | apply safe_modify]; intros; assumption).

Lemma safe_handle e :
  mtu_request_ok e = true -> safe driver_inv (handle_ble_evt e).
Proof.
  intros He. destruct e; cbn [handle_ble_evt]; safe_split.
  apply safe_mtu. cbn [mtu_request_ok] in He.
  apply andb_true_iff in He as [H1 H2]. lia.
Qed.

Lemma safe_rx_handle e : safe (fun w => ring_inv (rx w)) (handle_ble_evt e).
Proof. destruct e; cbn [handle_ble_evt]; safe_split. Qed.

Lemma safe_rx_irq pending :
  safe (fun w => ring_inv (rx w)) (SWI2_IRQHandler pending).
Proof.
  induction pending as [|e pending IH]; cbn [SWI2_IRQHandler].
  - apply safe_ret.
  - apply safe_bind; [apply safe_rx_handle | intros _; exact IH].
Qed.

Lemma safe_irq pending :
  forallb mtu_request_ok pending = true ->
  safe driver_inv (SWI2_IRQHandler pending).
Proof.
  induction pending as [|e pending IH]; intros Hok; cbn [SWI2_IRQHandler].
  - apply safe_ret.
  - cbn [forallb] in Hok. apply andb_true_iff in Hok as [He Hok].
    apply safe_bind; [now apply safe_handle | intros _; now apply IH].
Qed.

Lemma safe_flush : safe driver_inv ble_flush_tx.
Proof.
  intros w (Hrx & Htx & Hmtu).
  destruct (ring_empty (tx w)) eqn:Hne.
  - unfold ble_flush_tx, mbind, M_bind, gets. rewrite Hne.
    split; [exact Hrx|]. split; [exact Htx|exact Hmtu].
  - destruct (ble_flush_tx_any w Htx Hne) as (r & Hr & _ & ->).
    { unfold MAX_MTU_LENGTH in *. lia. }
    destruct (hvx_retry _ _ _) as [[err calls] replies].
    destruct (_ || _); [|reflexivity].
    split; [exact Hrx|]. split; [exact Hr|exact Hmtu].
Qed.

Lemma safe_flush_while_full fuel : forall w,
  driver_inv w ->
  match flush_while_full fuel w with
  | Some r => safe_result driver_inv r
  | None => True
  end.
Proof.
  induction fuel as [|fuel IH]; intros w Hw; cbn [flush_while_full];
    [exact I|].
  destruct (ring_full (tx w)); [|exact Hw].
  pose proof (safe_flush w Hw) as Hf.
  destruct (ble_flush_tx w) as [[[] w1]|f]; [apply IH, Hf|exact Hf].
Qed.

Lemma safe_rfcomm_tx fuel buf : forall w,
  driver_inv w ->
  match ble_rfcomm_tx fuel buf w with
  | Some r => safe_result driver_inv r
  | None => True
  end.
Proof.
  induction buf as [|b buf IH]; intros w Hw; cbn [ble_rfcomm_tx];
    [exact Hw|].
  pose proof (safe_flush_while_full fuel w Hw) as Hf.
  destruct (flush_while_full fuel w) as [[[[] w1]|f]|]; trivial.
  cbn [safe_result] in Hf. destruct Hf as (Hrx & Htx & Hmtu).
  destruct (ring_push_inv (tx w1) b Htx) as (r & Hpush & Hr & _).
  unfold tx_push. rewrite Hpush. apply IH.
  split; [exact Hrx|]. split; [exact Hr|exact Hmtu].
Qed.

Lemma safe_rfcomm_rx fuel : forall wakeups w,
  forallb (forallb mtu_request_ok) wakeups = true ->
  driver_inv w ->
  match ble_rfcomm_rx fuel wakeups w with
  | Some (Ok (_, _, w')) => driver_inv w'
  | Some (Fault f) => f = Assertion_failed
  | None => True
  end.
Proof.
  induction fuel as [|fuel IH]; intros wakeups w Hok Hw;
    cbn [ble_rfcomm_rx]; [exact I|].
  destruct (ring_empty (rx w)).
  - pose proof (safe_flush w Hw) as Hf.
    destruct (ble_flush_tx w) as [[[] w1]|f]; [|exact Hf].
    cbn [safe_result] in Hf.
    destruct (ring_empty (tx w1) && ring_empty (rx w1)).
    + destruct wakeups as [|pending wakeups]; [exact I|].
      cbn [forallb] in Hok. apply andb_true_iff in Hok as [Hp Hok].
      pose proof (safe_irq pending Hp w1 Hf) as Hi.
      destruct (SWI2_IRQHandler pending w1) as [[[] w2]|f]; [|exact Hi].
      now apply IH.
    + now apply IH.
  - destruct Hw as (Hrx & Htx & Hmtu).
    destruct (ring_pop_inv (rx w) Hrx) as (b & r & -> & Hr & _).
    split; [exact Hr|]. split; [exact Htx|exact Hmtu].
Qed.

Lemma safe_run_driver_op fuel op w :
  op_ok op = true -> driver_inv w ->
  match run_driver_op fuel op w with
  | Some (Ok w') => driver_inv w'
  | Some (Fault f) => f = Assertion_failed
  | None => True
  end.
Proof.
  intros Hok Hw. destruct op as [pending| |buf|wakeups];
    cbn [run_driver_op op_ok] in *.
  - pose proof (safe_irq pending Hok w Hw) as H.
    destruct (SWI2_IRQHandler pending w) as [[[] w1]|f]; exact H.
  - pose proof (safe_flush w Hw) as H.
    destruct (ble_flush_tx w) as [[[] w1]|f]; exact H.
  - pose proof (safe_rfcomm_tx fuel buf w Hw) as H.
    destruct (ble_rfcomm_tx fuel buf w) as [[[[] w1]|f]|]; exact H.
  - pose proof (safe_rfcomm_rx fuel wakeups w Hok Hw) as H.
    destruct (ble_rfcomm_rx fuel wakeups w) as [[[[z ws] w1]|f]|]; exact H.
Qed.

Lemma safe_run_driver fuel ops : forall w,
  forallb op_ok ops = true -> driver_inv w ->
  match run_driver fuel ops w with
  | Some (Ok w') => driver_inv w'
  | Some (Fault f) => f = Assertion_failed
  | None => True
  end.
Proof.
  induction ops as [|op ops IH]; intros w Hok Hw; cbn [run_driver];
    [exact Hw|].
  cbn [forallb] in Hok. apply andb_true_iff in Hok as [Hop Hok].
  pose proof (safe_run_driver_op fuel op w Hop Hw) as H.
  destruct (run_driver_op fuel op w) as [[w1|f]|]; trivial.
  now apply IH.
Qed.

Lemma world_init_inv replies : driver_inv (world_init replies).
Proof.
  split; [apply ring_zero_inv|]. split; [apply ring_zero_inv|].
  cbn [negotiated_mtu world_init]. unfold MAX_MTU_LENGTH. lia.
Qed.

End SafetyFacts.

(** ** What [SWI2_IRQHandler] does to the rings, the link and the
       SoftDevice *)

Module HandlerFacts.
Import Ring Ble Console RingFacts BleFacts RingMore ConsoleFacts FlushFacts
       SafetyFacts.

(** *** What the handler stores in the receive ring *)

Lemma handle_rx e w w' :
  handle_ble_evt e w = Ok (tt, w') -> ring_inv (rx w) ->
  let room := Z.to_nat (RING_BUFFER_LENGTH - 1
                        - Z.of_nat (length (contents (rx w)))) in
  ring_inv (rx w')
  /\ contents (rx w') = contents (rx w) ++ take room (written [e]).
Proof.
  intros E Hinv room.
  destruct (is_write_of_data e) eqn:Hw.
  - destruct e as [| | | |c data| | | | |]; try discriminate Hw.
    cbn [handle_ble_evt written] in *. rewrite app_nil_r.
    destruct (write_loop_spec data w Hinv) as (r & Hr & Hinv' & Hc).
    rewrite Hr in E. injection E as <-. now cbn [rx set_rx].
  - rewrite (handle_keeps_rx e Hw _ _ _ E).
    replace (written [e]) with (@nil Byte.byte).
    + now rewrite take_nil, app_nil_r.
    + destruct e as [| | | |c [|b data]| | | | |]; try reflexivity.
      discriminate Hw.
Qed.

Lemma written_cons e pending : written (e :: pending) = written [e] ++ written pending.
Proof.
  destruct e; cbn [written]; rewrite ?app_nil_r; reflexivity.
Qed.

Lemma irq_rx pending : forall w w',
  SWI2_IRQHandler pending w = Ok (tt, w') -> ring_inv (rx w) ->
  let room := Z.to_nat (RING_BUFFER_LENGTH - 1
                        - Z.of_nat (length (contents (rx w)))) in
  ring_inv (rx w')
  /\ contents (rx w') = contents (rx w) ++ take room (written pending).
Proof.
  induction pending as [|e pending IH]; intros w w' E Hinv room;
    cbn [SWI2_IRQHandler] in E.
  - injection E as <-. cbn [written]. now rewrite take_nil, app_nil_r.
  - unfold mbind, M_bind in E.
    destruct (handle_ble_evt e w) as [[[] w1]|] eqn:E1; [|discriminate].
    destruct (handle_rx e w w1 E1 Hinv) as [Hinv1 Hc1].
    destruct (IH w1 w' E Hinv1) as [Hinv' Hc'].
    split; [exact Hinv'|].
    rewrite Hc', Hc1, (written_cons e pending), <- app_assoc. f_equal.
    fold room. rewrite take_app. f_equal.
    rewrite length_app, length_take. f_equal.
    pose proof (contents_bound _ Hinv). subst room.
    unfold RING_BUFFER_LENGTH in *. lia.
Qed.

(** *** The answers of the SoftDevice the handler accepts *)

Lemma all_success_keeps {A} (m : M A) : keeps sd_replies m -> all_success m.
Proof.
  intros Hk w a w' E. exists []. rewrite (Hk _ _ _ E). now split.
Qed.

Lemma all_success_bind {A B} (m : M A) (k : A -> M B) :
  all_success m -> (forall a, all_success (k a)) -> all_success (m ≫= k).
Proof.
  intros Hm Hk w b w' E. unfold mbind, M_bind in E.
  destruct (m w) as [[a w1]|] eqn:E1; [|discriminate].
  destruct (Hm _ _ _ E1) as (u1 & H1 & F1).
  destruct (Hk a _ _ _ E) as (u2 & H2 & F2).
  exists (u1 ++ u2). rewrite H1, H2, app_assoc. split; [reflexivity|].
  now apply Forall_app.
Qed.

Lemma all_success_sd {B} c (k : M B) :
  all_success k ->
  all_success (err ← sd c; NRFX_ASSERT (err =? 0);; k).
Proof.
  intros Hk w b w' E. unfold mbind, M_bind, sd in E.
  destruct (sd_replies w) as [|err rest] eqn:Er.
  - cbn in E. destruct (Hk _ _ _ E) as (u & Hu & Fu).
    cbn [sd_replies set_softdevice] in Hu. exists []. split; [|constructor].
    destruct u; [exact Hu|discriminate Hu].
  - destruct (Z.eqb_spec err 0) as [->|Hne]; [|discriminate].
    cbn in E. destruct (Hk _ _ _ E) as (u & Hu & Fu).
    cbn [sd_replies set_softdevice] in Hu. exists (0 :: u).
    rewrite Hu. split; [reflexivity|]. now constructor.
Qed.

Lemma all_success_sd_last c :
  all_success (err ← sd c; NRFX_ASSERT (err =? 0)).
Proof.
  intros w b w' E. unfold mbind, M_bind, sd in E.
  destruct (sd_replies w) as [|err rest] eqn:Er.
  - injection E as <- <-. exists []. split; [reflexivity|constructor].
  - destruct (Z.eqb_spec err 0) as [->|Hne]; [|discriminate].
    injection E as <- <-. exists [0]. split; [reflexivity|].
    now repeat constructor.
Qed.

Lemma handle_all_success e : all_success (handle_ble_evt e).
Proof.
  destruct e; cbn [handle_ble_evt];
    repeat first
      [ apply all_success_sd_last
      | apply all_success_sd
      | apply all_success_bind; [|intros ?]
      | apply all_success_keeps;
        first [ apply keeps_modify; reflexivity
              | apply keeps_gets
              | apply keeps_ret
              | apply keeps_assert
              | apply keeps_write_loop; reflexivity ] ].
Qed.

Lemma irq_all_success pending : all_success (SWI2_IRQHandler pending).
Proof.
  induction pending as [|e pending IH]; cbn [SWI2_IRQHandler].
  - apply all_success_keeps, keeps_ret.
  - apply all_success_bind; [apply handle_all_success|intros _; exact IH].
Qed.

(** *** Events the handler does not survive *)

Lemma irq_gattc_timeout pending : forall w,
  existsb is_gattc_timeout pending = true -> ring_inv (rx w) ->
  SWI2_IRQHandler pending w = Fault Assertion_failed.
Proof.
  induction pending as [|e pending IH]; intros w Hin Hinv;
    cbn [existsb] in Hin; [discriminate|].
  cbn [SWI2_IRQHandler]. unfold mbind, M_bind.
  pose proof (safe_rx_handle e w Hinv) as Hs.
  destruct (handle_ble_evt e w) as [[[] w1]|f] eqn:E1.
  - apply IH; [|exact Hs].
    destruct e; try exact Hin. discriminate E1.
  - now rewrite Hs.
Qed.

(** *** The connection handle and the restarts of advertising *)

Lemma bind_modify {A} upd (k : M A) w : (modify upd;; k) w = k (upd w).
Proof. reflexivity. Qed.

Lemma bind_gets {A B} (f : world -> A) (k : A -> M B) w :
  (a ← gets f; k a) w = k (f w) w.
Proof. reflexivity. Qed.

Lemma handle_connection e w w' :
  handle_ble_evt e w = Ok (tt, w') ->
  connection w' = link_after [e] (connection w).
Proof.
  intros E.
  assert (Hsd : forall c, keeps connection
                 (err ← sd c; NRFX_ASSERT (err =? 0))).
  { intros c. apply keeps_bind; [apply keeps_sd; intros ? ? ?; reflexivity|].
    intros ?. apply keeps_assert. }
  destruct e; cbn [handle_ble_evt link_after] in *;
    try (revert E; apply Hsd).
  - rewrite bind_modify in E.
    assert (K : keeps connection
              (err ← sd Sd_ble_gap_ppcp_get; NRFX_ASSERT (err =? 0);;
               err ← sd (Sd_ble_gap_conn_param_update conn_handle);
               NRFX_ASSERT (err =? 0))).
    { apply keeps_bind; [apply keeps_sd; intros ? ? ?; reflexivity|].
      intros ?. apply keeps_bind; [apply keeps_assert|]. intros ?.
      apply Hsd. }
    now rewrite (K _ _ _ E).
  - assert (K : keeps connection
              (err ← sd (Sd_ble_gatts_exchange_mtu_reply conn_handle
                           MAX_MTU_LENGTH);
               NRFX_ASSERT (err =? 0);;
               modify (set_negotiated_mtu
                (uint16 (if MAX_MTU_LENGTH <? client_rx_mtu
                         then MAX_MTU_LENGTH - 3
                         else client_rx_mtu - 3))))).
    { apply keeps_bind; [apply keeps_sd; intros ? ? ?; reflexivity|].
      intros ?. apply keeps_bind; [apply keeps_assert|]. intros ?.
      apply keeps_modify. reflexivity. }
    exact (K _ _ _ E).
  - revert E. apply keeps_write_loop. reflexivity.
  - discriminate E.
  - now injection E as <-.
Qed.

Lemma link_after_cons e pending c :
  link_after (e :: pending) c = link_after pending (link_after [e] c).
Proof. destruct e; reflexivity. Qed.

Lemma irq_connection pending : forall w w',
  SWI2_IRQHandler pending w = Ok (tt, w') ->
  connection w' = link_after pending (connection w).
Proof.
  induction pending as [|e pending IH]; intros w w' E;
    cbn [SWI2_IRQHandler] in E.
  - now injection E as <-.
  - unfold mbind, M_bind in E.
    destruct (handle_ble_evt e w) as [[[] w1]|] eqn:E1; [|discriminate].
    rewrite link_after_cons, <- (handle_connection _ _ _ E1). now apply IH.
Qed.

Lemma adv_starts_app l1 l2 :
  adv_starts (l1 ++ l2) = adv_starts l1 ++ adv_starts l2.
Proof.
  induction l1 as [|c l1 IH]; [reflexivity|].
  destruct c; cbn [app adv_starts]; rewrite IH; reflexivity.
Qed.

Lemma restarts_keeps {A} (m : M A) :
  keeps advertising m -> keeps sd_calls m -> restarts m 0.
Proof.
  intros Ha Hc w a w' E. rewrite (Ha _ _ _ E), (Hc _ _ _ E).
  now rewrite app_nil_r.
Qed.

Lemma restarts_bind {A B} (m : M A) (k : A -> M B) n1 n2 :
  restarts m n1 -> (forall a, restarts (k a) n2) ->
  restarts (m ≫= k) (n1 + n2).
Proof.
  intros Hm Hk w b w' E. unfold mbind, M_bind in E.
  destruct (m w) as [[a w1]|] eqn:E1; [|discriminate].
  destruct (Hm _ _ _ E1) as [A1 S1]. destruct (Hk a _ _ _ E) as [A2 S2].
  split; [congruence|].
  rewrite S2, S1, A1, <- app_assoc, replicate_add. reflexivity.
Qed.

Lemma restarts_sd c : is_adv_start c = false -> restarts (sd c) 0.
Proof.
  intros Hc w a w' E. unfold sd in E.
  destruct (sd_replies w); injection E as <- <-;
    cbn [advertising sd_calls set_softdevice]; (split; [reflexivity|]);
    rewrite adv_starts_app; f_equal; destruct c; try reflexivity;
    discriminate Hc.
Qed.

Lemma restarts_disconnect :
  restarts (adv ← gets advertising;
            err ← sd (Sd_ble_gap_adv_start adv);
            NRFX_ASSERT (err =? 0)) 1.
Proof.
  intros w a w' E. rewrite bind_gets in E. unfold mbind, M_bind, sd in E.
  destruct (sd_replies w) as [|err rest].
  - injection E as <- <-. cbn [advertising sd_calls set_softdevice].
    now rewrite adv_starts_app.
  - destruct (err =? 0); [|discriminate]. injection E as <- <-.
    cbn [advertising sd_calls set_softdevice]. now rewrite adv_starts_app.
Qed.

Lemma handle_restarts e : restarts (handle_ble_evt e) (disconnects [e]).
Proof.
  assert (Hk : forall A (m : M A),
             keeps advertising m -> keeps sd_calls m -> restarts m 0)
    by exact @restarts_keeps.
  assert (Hsd : forall c, is_adv_start c = false ->
             restarts (err ← sd c; NRFX_ASSERT (err =? 0)) 0).
  { intros c Hc. apply (restarts_bind _ _ 0 0); [now apply restarts_sd|].
    intros ?. apply Hk; apply keeps_assert. }
  destruct e; cbn [handle_ble_evt disconnects]; try (now apply Hsd).
  - apply (restarts_bind _ _ 0 0);
      [apply Hk; apply keeps_modify; reflexivity|intros _].
    apply (restarts_bind _ _ 0 0); [now apply restarts_sd|intros ?].
    apply (restarts_bind _ _ 0 0); [apply Hk; apply keeps_assert|intros _].
    now apply Hsd.
  - apply (restarts_bind _ _ 0 1);
      [apply Hk; apply keeps_modify; reflexivity|intros _].
    apply restarts_disconnect.
  - apply (restarts_bind _ _ 0 0); [now apply restarts_sd|intros ?].
    apply (restarts_bind _ _ 0 0); [apply Hk; apply keeps_assert|intros _].
    apply Hk; apply keeps_modify; reflexivity.
  - apply Hk; apply keeps_write_loop; reflexivity.
  - apply (restarts_bind _ _ 0 0); [apply Hk; apply keeps_assert|intros _].
    now apply Hsd.
  - apply Hk; apply keeps_ret.
Qed.

Lemma disconnects_cons e pending :
  disconnects (e :: pending) = (disconnects [e] + disconnects pending)%nat.
Proof. destruct e; reflexivity. Qed.

Lemma irq_restarts pending :
  restarts (SWI2_IRQHandler pending) (disconnects pending).
Proof.
  induction pending as [|e pending IH]; cbn [SWI2_IRQHandler].
  - apply restarts_keeps; apply keeps_ret.
  - rewrite disconnects_cons.
    apply restarts_bind; [apply handle_restarts|intros _; exact IH].
Qed.

End HandlerFacts.

(** ** [ble_rfcomm_tx] *)

Module WriteFacts.
Import Ring Ble Console RingFacts BleFacts RingMore ConsoleFacts FlushFacts
       SafetyFacts HandlerFacts.

Lemma set_collapse c1 p1 c2 p2 r1 r2 w :
  set_softdevice c2 p2 (set_tx r2 (set_softdevice c1 p1 (set_tx r1 w)))
  = set_softdevice c2 p2 (set_tx r2 w).
Proof. reflexivity. Qed.

Lemma set_same w : set_softdevice (sd_calls w) (sd_replies w) (set_tx (tx w) w) = w.
Proof. now destruct w. Qed.

Lemma hvx_calls_app c v f1 f2 :
  hvx_calls c v (f1 ++ f2) = hvx_calls c v f1 ++ hvx_calls c v f2.
Proof. unfold hvx_calls. now rewrite map_app, concat_app. Qed.

(** [while (ring_full(&tx)) ble_flush_tx();] takes one flush at most. *)
Lemma flush_while_full_spec fuel w :
  (2 <= fuel)%nat ->
  ring_inv (tx w) -> negotiated_mtu w <= MAX_MTU_LENGTH ->
  forallb hvx_tolerated (sd_replies w) = true ->
  exists ring' frames replies',
    flush_while_full fuel w
    = Some (Ok (tt, set_softdevice
                      (sd_calls w
                       ++ hvx_calls (connection w) (tx_value_handle w) frames)
                      replies' (set_tx ring' w)))
    /\ ring_inv ring' /\ ring_full ring' = false
    /\ concat (map fst frames) ++ contents ring' = contents (tx w)
    /\ forallb hvx_tolerated replies' = true
    /\ frames_ok (negotiated_mtu w) frames
    /\ (ring_full (tx w) = false -> frames = []).
Proof.
  intros Hfuel Hinv Hmtu Hok.
  destruct fuel as [|[|fuel]]; try lia. cbn [flush_while_full].
  destruct (ring_full (tx w)) eqn:Hfull.
  - pose proof (proj1 (ring_full_contents _ Hinv) Hfull) as Hlen.
    assert (Hne : ring_empty (tx w) = false).
    { apply ring_not_empty; [exact Hinv|]. intros E. rewrite E in Hlen.
      cbn [length] in Hlen. unfold RING_BUFFER_LENGTH in Hlen. lia. }
    destruct (ble_flush_tx_spec w Hinv Hne Hmtu Hok)
      as (r1 & n & replies' & -> & Hinv1 & Hc1 & Hok' & _).
    set (k := frame_length (negotiated_mtu w) (contents (tx w))) in *.
    assert (Hk : (1 <= k <= length (contents (tx w)))%nat
                 /\ Z.of_nat k <= Z.max 1 (negotiated_mtu w)).
    { subst k. unfold frame_length, RING_BUFFER_LENGTH in *. lia. }
    assert (Hnf : ring_full r1 = false).
    { apply ring_not_full; [exact Hinv1|]. rewrite Hc1, length_drop. lia. }
    cbn [tx set_tx set_softdevice]. rewrite Hnf.
    exists r1, [(take k (contents (tx w)), n)], replies'.
    split.
    { unfold hvx_calls. cbn [map concat fst snd]. now rewrite app_nil_r. }
    split; [exact Hinv1|]. split; [exact Hnf|].
    split. { cbn [map concat fst]. rewrite app_nil_r, Hc1. apply take_drop. }
    split; [exact Hok'|]. split; [|discriminate].
    constructor; [|constructor]. cbn [fst]. rewrite length_take. lia.
  - exists (tx w), [], (sd_replies w).
    split. { unfold hvx_calls. cbn [map concat]. now rewrite app_nil_r, set_same. }
    split; [exact Hinv|]. split; [exact Hfull|]. split; [reflexivity|].
    split; [exact Hok|]. split; [constructor|reflexivity].
Qed.

(** [ble_rfcomm_tx] loses no byte and keeps their order: what was handed
    to the SoftDevice, followed by what still waits, is what waited
    before followed by [buf]. *)
Lemma ble_rfcomm_tx_spec fuel buf : forall w,
  (2 <= fuel)%nat ->
  ring_inv (tx w) -> negotiated_mtu w <= MAX_MTU_LENGTH ->
  forallb hvx_tolerated (sd_replies w) = true ->
  exists ring' frames replies',
    ble_rfcomm_tx fuel buf w
    = Some (Ok (tt, set_softdevice
                      (sd_calls w
                       ++ hvx_calls (connection w) (tx_value_handle w) frames)
                      replies' (set_tx ring' w)))
    /\ ring_inv ring'
    /\ concat (map fst frames) ++ contents ring' = contents (tx w) ++ buf
    /\ forallb hvx_tolerated replies' = true
    /\ frames_ok (negotiated_mtu w) frames.
Proof.
  induction buf as [|b buf IH]; intros w Hfuel Hinv Hmtu Hok;
    cbn [ble_rfcomm_tx].
  - exists (tx w), [], (sd_replies w).
    split. { unfold hvx_calls. cbn [map concat]. now rewrite app_nil_r, set_same. }
    split; [exact Hinv|]. split; [now rewrite app_nil_r|].
    split; [exact Hok|constructor].
  - destruct (flush_while_full_spec fuel w Hfuel Hinv Hmtu Hok)
      as (r1 & f1 & p1 & -> & Hinv1 & Hnf & Hc1 & Hok1 & Hf1 & _).
    destruct (ring_push_contents r1 b Hinv1 Hnf) as (r2 & Hpush & Hinv2 & Hc2).
    unfold tx_push. cbn [tx set_tx set_softdevice]. rewrite Hpush.
    destruct (IH (set_tx r2 (set_softdevice
                    (sd_calls w ++ hvx_calls (connection w) (tx_value_handle w) f1)
                    p1 (set_tx r1 w))) Hfuel Hinv2 Hmtu Hok1)
      as (r3 & f2 & p2 & -> & Hinv3 & Hc3 & Hok3 & Hf2).
    cbn [tx set_tx set_softdevice sd_calls connection tx_value_handle
         negotiated_mtu] in *.
    exists r3, (f1 ++ f2), p2.
    split. { now rewrite hvx_calls_app, app_assoc. }
    split; [exact Hinv3|].
    split. { rewrite map_app, concat_app, <- app_assoc, Hc3, Hc2, <- Hc1.
             rewrite <- !app_assoc. reflexivity. }
    split; [exact Hok3|]. now apply Forall_app.
Qed.

(** With room for [buf] nothing is sent. *)
Lemma ble_rfcomm_tx_room fuel buf : forall w,
  (1 <= fuel)%nat -> ring_inv (tx w) ->
  Z.of_nat (length (contents (tx w))) + Z.of_nat (length buf)
    <= RING_BUFFER_LENGTH - 1 ->
  exists ring',
    ble_rfcomm_tx fuel buf w = Some (Ok (tt, set_tx ring' w))
    /\ ring_inv ring' /\ contents ring' = contents (tx w) ++ buf.
Proof.
  induction buf as [|b buf IH]; intros w Hfuel Hinv Hroom;
    cbn [ble_rfcomm_tx].
  - exists (tx w). rewrite app_nil_r. split; [|auto]. now destruct w.
  - cbn [length] in Hroom.
    assert (Hnf : ring_full (tx w) = false)
      by (apply ring_not_full; [exact Hinv|lia]).
    destruct fuel as [|fuel]; [lia|]. cbn [flush_while_full]. rewrite Hnf.
    destruct (ring_push_contents _ b Hinv Hnf) as (r1 & Hpush & Hinv1 & Hc1).
    unfold tx_push. rewrite Hpush.
    destruct (IH (set_tx r1 w) Hfuel Hinv1) as (r2 & -> & Hinv2 & Hc2).
    { cbn [tx set_tx]. rewrite Hc1, length_app. cbn [length]. lia. }
    exists r2. cbn [tx set_tx] in *. split; [reflexivity|].
    split; [exact Hinv2|]. now rewrite Hc2, Hc1, <- app_assoc.
Qed.

End WriteFacts.

(** ** [ble_rfcomm_rx] *)

Module ReadFacts.
Import Ring Ble Console RingFacts BleFacts RingMore ConsoleFacts FlushFacts
       SafetyFacts HandlerFacts WriteFacts.

(** With a byte waiting, [ble_rfcomm_rx] returns it at once. *)
Lemma ble_rfcomm_rx_ready fuel wakeups w b rest :
  (1 <= fuel)%nat -> ring_inv (rx w) -> contents (rx w) = b :: rest ->
  exists ring',
    ble_rfcomm_rx fuel wakeups w
    = Some (Ok (Z.of_N (Byte.to_N b), wakeups, set_rx ring' w))
    /\ ring_inv ring' /\ contents ring' = rest.
Proof.
  intros Hfuel Hinv Hc. destruct fuel as [|fuel]; [lia|].
  cbn [ble_rfcomm_rx].
  assert (Hne : ring_empty (rx w) = false).
  { apply ring_not_empty; [exact Hinv|]. now rewrite Hc. }
  rewrite Hne.
  destruct (ring_pop_contents _ Hinv Hne) as (b' & r & -> & Hr & Hc').
  rewrite Hc in Hc'. injection Hc' as <- Hrest. eauto.
Qed.

(** Without a write of data among the wake-ups, [ble_rfcomm_rx] on an
    empty receive ring never returns. *)
Lemma ble_rfcomm_rx_starved fuel : forall wakeups w z ws w',
  ring_empty (rx w) = true ->
  forallb (forallb (fun e => negb (is_write_of_data e))) wakeups = true ->
  ble_rfcomm_rx fuel wakeups w <> Some (Ok (z, ws, w')).
Proof.
  induction fuel as [|fuel IH]; intros wakeups w z ws w' Hempty Hq;
    cbn [ble_rfcomm_rx]; [discriminate|].
  rewrite Hempty.
  destruct (ble_flush_tx w) as [[[] w1]|f] eqn:Ef; [|discriminate].
  assert (Hrx : rx w1 = rx w).
  { apply (keeps_flush rx) in Ef; [exact Ef| |]; intros ? ? **; reflexivity. }
  destruct (ring_empty (tx w1) && ring_empty (rx w1)).
  - destruct wakeups as [|pending wakeups]; [discriminate|].
    cbn [forallb] in Hq. apply andb_true_iff in Hq as [Hp Hq].
    destruct (SWI2_IRQHandler pending w1) as [[[] w2]|f] eqn:Ei;
      [|discriminate].
    apply IH; [|exact Hq].
    apply (irq_keeps rx (fun e => negb (is_write_of_data e))) in Ei.
    + now rewrite Ei, Hrx.
    + intros e He. apply handle_keeps_rx. now destruct (is_write_of_data e).
    + exact Hp.
  - apply IH; [now rewrite Hrx|exact Hq].
Qed.

(** *** The calls of the handler *)

Lemma calls_only_keeps P {A} (m : M A) : keeps sd_calls m -> calls_only P m.
Proof.
  intros Hk w a w' E. exists []. rewrite (Hk _ _ _ E), app_nil_r. now split.
Qed.

Lemma calls_only_bind P {A B} (m : M A) (k : A -> M B) :
  calls_only P m -> (forall a, calls_only P (k a)) -> calls_only P (m ≫= k).
Proof.
  intros Hm Hk w b w' E. unfold mbind, M_bind in E.
  destruct (m w) as [[a w1]|] eqn:E1; [|discriminate].
  destruct (Hm _ _ _ E1) as (c1 & H1 & F1).
  destruct (Hk a _ _ _ E) as (c2 & H2 & F2).
  exists (c1 ++ c2). rewrite H2, H1, app_assoc. split; [reflexivity|].
  rewrite forallb_app. now rewrite F1, F2.
Qed.

Lemma calls_only_sd (P : sd_call -> bool) c : P c = true -> calls_only P (sd c).
Proof.
  intros Hc w a w' E. unfold sd in E. exists [c].
  destruct (sd_replies w); injection E as <- <-;
    cbn [sd_calls set_softdevice forallb]; now rewrite Hc.
Qed.

Lemma handle_no_hvx e :
  calls_only (fun c => negb (is_hvx c)) (handle_ble_evt e).
Proof.
  destruct e; cbn [handle_ble_evt];
    repeat first
      [ apply calls_only_sd; reflexivity
      | apply calls_only_bind; [|intros ?]
      | apply calls_only_keeps;
        first [ apply keeps_modify; reflexivity
              | apply keeps_gets
              | apply keeps_ret
              | apply keeps_assert
              | apply keeps_write_loop; reflexivity ] ].
Qed.

Lemma irq_no_hvx pending :
  calls_only (fun c => negb (is_hvx c)) (SWI2_IRQHandler pending).
Proof.
  induction pending as [|e pending IH]; cbn [SWI2_IRQHandler].
  - apply calls_only_keeps, keeps_ret.
  - apply calls_only_bind; [apply handle_no_hvx|intros _; exact IH].
Qed.

Lemma hvx_payloads_app l1 l2 :
  hvx_payloads (l1 ++ l2) = hvx_payloads l1 ++ hvx_payloads l2.
Proof.
  induction l1 as [|c l1 IH]; [reflexivity|].
  destruct c; cbn [app hvx_payloads]; rewrite IH; reflexivity.
Qed.

Lemma hvx_payloads_none calls :
  forallb (fun c => negb (is_hvx c)) calls = true -> hvx_payloads calls = [].
Proof.
  induction calls as [|c calls IH]; [reflexivity|]. cbn [forallb].
  intros H. apply andb_true_iff in H as [Hc H].
  destruct c; try discriminate Hc; cbn [hvx_payloads]; now apply IH.
Qed.

Lemma hvx_payloads_once c v frames :
  hvx_payloads (hvx_calls c v (map (fun f => (f, 0%nat)) frames)) = frames.
Proof.
  induction frames as [|f frames IH]; [reflexivity|].
  change (hvx_calls c v (map (fun f => (f, 0%nat)) (f :: frames)))
    with (Sd_ble_gatts_hvx c v f
          :: hvx_calls c v (map (fun f => (f, 0%nat)) frames)).
  cbn [hvx_payloads]. now rewrite IH.
Qed.

(** *** The handler with a SoftDevice that accepts every call *)

Lemma handle_succeeds e w :
  sd_replies w = [] -> ring_inv (rx w) -> is_gattc_timeout e = false ->
  exists w', handle_ble_evt e w = Ok (tt, w') /\ sd_replies w' = [].
Proof.
  intros Hr Hinv He.
  destruct e; try discriminate He; cbn [handle_ble_evt];
    try (unfold mbind, M_bind, sd, modify, gets, NRFX_ASSERT, mret, M_ret;
         cbn [sd_replies set_connection set_softdevice]; rewrite ?Hr;
         cbn [Z.eqb NRF_SUCCESS sd_replies set_softdevice];
         eexists; split; reflexivity).
  - destruct (write_loop_spec data w Hinv) as (r & -> & _).
    eexists. split; [reflexivity|exact Hr].
  - eexists. split; [reflexivity|exact Hr].
Qed.

Lemma irq_succeeds pending : forall w,
  sd_replies w = [] -> ring_inv (rx w) ->
  existsb is_gattc_timeout pending = false ->
  exists w', SWI2_IRQHandler pending w = Ok (tt, w') /\ sd_replies w' = [].
Proof.
  induction pending as [|e pending IH]; intros w Hr Hinv Hq;
    cbn [SWI2_IRQHandler].
  - eexists. split; [reflexivity|exact Hr].
  - cbn [existsb] in Hq. apply orb_false_iff in Hq as [He Hq].
    destruct (handle_succeeds e w Hr Hinv He) as (w1 & E1 & Hr1).
    unfold mbind, M_bind. rewrite E1.
    apply IH; [exact Hr1| |exact Hq].
    pose proof (safe_rx_handle e w Hinv) as Hs. now rewrite E1 in Hs.
Qed.

(** *** A read that has to wait *)

Lemma ble_flush_tx_nothing w :
  ring_empty (tx w) = true -> ble_flush_tx w = Ok (tt, w).
Proof.
  intros He. unfold ble_flush_tx, mbind, M_bind, gets. now rewrite He.
Qed.

(** Before it sleeps, [ble_rfcomm_rx] hands all that waits in the
    transmit ring to the SoftDevice, in [turns] turns of its loop. *)
Lemma ble_rfcomm_rx_drain n : forall w,
  (length (contents (tx w)) <= n)%nat ->
  ring_empty (rx w) = true -> ring_inv (tx w) ->
  negotiated_mtu w <= MAX_MTU_LENGTH -> sd_replies w = [] ->
  exists ring' frames turns,
    ring_inv ring' /\ contents ring' = []
    /\ concat frames = contents (tx w)
    /\ (1 <= turns <= S n)%nat
    /\ forall fuel pending rest,
         ble_rfcomm_rx (turns + fuel) (pending :: rest) w
         = match SWI2_IRQHandler pending
                   (set_softdevice
                      (sd_calls w
                       ++ hvx_calls (connection w) (tx_value_handle w)
                            (map (fun f => (f, 0%nat)) frames))
                      [] (set_tx ring' w)) with
           | Ok (_, w2) => ble_rfcomm_rx fuel rest w2
           | Fault f => Some (Fault f)
           end.
Proof.
  induction n as [|n IH]; intros w Hlen Hrx Hinv Hmtu Hr.
  - assert (Hc : contents (tx w) = []).
    { apply length_zero_iff_nil. lia. }
    pose proof (proj2 (ring_empty_contents _ Hinv) Hc) as He.
    exists (tx w), [], 1%nat.
    split; [exact Hinv|]. split; [exact Hc|]. split; [now rewrite Hc|].
    split; [lia|]. intros fuel pending rest.
    cbn [Nat.add ble_rfcomm_rx]. rewrite Hrx, (ble_flush_tx_nothing _ He).
    rewrite He, Hrx. cbn [andb map]. unfold hvx_calls. cbn [map concat].
    rewrite app_nil_r, <- Hr, set_same. reflexivity.
  - destruct (ring_empty (tx w)) eqn:He.
    + pose proof (proj1 (ring_empty_contents _ Hinv) He) as Hc.
      exists (tx w), [], 1%nat.
      split; [exact Hinv|]. split; [exact Hc|]. split; [now rewrite Hc|].
      split; [lia|]. intros fuel pending rest.
      cbn [Nat.add ble_rfcomm_rx]. rewrite Hrx, (ble_flush_tx_nothing _ He).
      rewrite He, Hrx. cbn [andb map]. unfold hvx_calls. cbn [map concat].
      rewrite app_nil_r, <- Hr, set_same. reflexivity.
    + destruct (ble_flush_tx_spec w Hinv He Hmtu)
        as (r1 & k0 & p1 & Hf & Hinv1 & Hc1 & _ & H0).
      { now rewrite Hr. }
      destruct (H0 Hr) as [-> ->].
      set (k := frame_length (negotiated_mtu w) (contents (tx w))) in *.
      assert (Hne : contents (tx w) <> []).
      { intros E. apply (ring_empty_contents _ Hinv) in E. congruence. }
      assert (Hk : (1 <= k)%nat).
      { subst k. unfold frame_length. destruct (contents (tx w)); [easy|].
        cbn [length]. lia. }
      destruct (ring_empty r1) eqn:He1.
      * pose proof (proj1 (ring_empty_contents _ Hinv1) He1) as Hc.
        exists r1, [take k (contents (tx w))], 1%nat.
        split; [exact Hinv1|]. split; [exact Hc|].
        split.
        { cbn [concat]. rewrite app_nil_r.
          rewrite <- (take_drop k (contents (tx w))) at 2.
          now rewrite <- Hc1, Hc, app_nil_r. }
        split; [lia|]. intros fuel pending rest.
        cbn [Nat.add ble_rfcomm_rx]. rewrite Hrx, Hf.
        cbn [tx rx set_tx set_softdevice]. rewrite He1, Hrx. cbn [andb].
        unfold hvx_calls. cbn [map concat fst snd replicate].
        now rewrite app_nil_r.
      * destruct (IH (set_softdevice
                        (sd_calls w
                         ++ replicate 1
                              (Sd_ble_gatts_hvx (connection w)
                                 (tx_value_handle w)
                                 (take k (contents (tx w)))))
                        [] (set_tx r1 w)))
          as (r2 & frames & turns & Hinv2 & Hc2 & Hcat & Ht & Hrun);
          cbn [tx rx set_tx set_softdevice negotiated_mtu sd_replies];
          trivial.
        { rewrite Hc1, length_drop. lia. }
        exists r2, (take k (contents (tx w)) :: frames), (S turns).
        split; [exact Hinv2|]. split; [exact Hc2|].
        split.
        { cbn [concat]. cbn [tx set_tx set_softdevice] in Hcat.
          rewrite Hcat, Hc1. apply take_drop. }
        split; [lia|]. intros fuel pending rest.
        cbn [Nat.add ble_rfcomm_rx]. rewrite Hrx, Hf.
        cbn [tx rx set_tx set_softdevice]. rewrite He1. cbn [andb].
        rewrite Hrun.
        cbn [tx rx set_tx set_softdevice connection tx_value_handle sd_calls].
        unfold hvx_calls. cbn [map concat fst snd replicate].
        now rewrite <- app_assoc.
Qed.

Lemma ble_rfcomm_rx_wait fuel pending rest w b more :
  ring_inv (rx w) -> ring_empty (rx w) = true -> ring_inv (tx w) ->
  negotiated_mtu w <= MAX_MTU_LENGTH -> sd_replies w = [] ->
  existsb is_gattc_timeout pending = false ->
  written pending = b :: more ->
  (length (contents (tx w)) + 2 <= fuel)%nat ->
  exists w' frames,
    ble_rfcomm_rx fuel (pending :: rest) w
    = Some (Ok (Z.of_N (Byte.to_N b), rest, w'))
    /\ concat frames = contents (tx w)
    /\ hvx_payloads (sd_calls w') = hvx_payloads (sd_calls w) ++ frames
    /\ contents (tx w') = []
    /\ contents (rx w') = take (Z.to_nat (RING_BUFFER_LENGTH - 2)) more.
Proof.
  intros Hrx He Htx Hmtu Hr Hq Hw Hfuel.
  destruct (ble_rfcomm_rx_drain (length (contents (tx w))) w)
    as (r1 & frames & turns & Hinv1 & Hc1 & Hcat & Ht & Hrun); trivial.
  set (w1 := set_softdevice
               (sd_calls w
                ++ hvx_calls (connection w) (tx_value_handle w)
                     (map (fun f => (f, 0%nat)) frames))
               [] (set_tx r1 w)) in *.
  destruct (irq_succeeds pending w1) as (w2 & E2 & Hr2); trivial.
  destruct (irq_rx pending w1 w2 E2 Hrx) as [Hrx2 Hc2].
  cbn [rx w1 set_softdevice set_tx] in Hc2.
  rewrite (proj1 (ring_empty_contents _ Hrx) He), Hw in Hc2.
  cbn [app length] in Hc2.
  change (Z.to_nat (RING_BUFFER_LENGTH - 1 - Z.of_nat 0))
    with (S (Z.to_nat (RING_BUFFER_LENGTH - 2))) in Hc2.
  cbn [take] in Hc2.
  destruct (ble_rfcomm_rx_ready (fuel - turns) rest w2 b _ ltac:(lia) Hrx2 Hc2)
    as (r3 & E3 & Hinv3 & Hc3).
  exists (set_rx r3 w2), frames.
  split.
  { replace fuel with (turns + (fuel - turns))%nat by lia.
    rewrite Hrun. fold w1. now rewrite E2. }
  split; [exact Hcat|]. cbn [sd_calls tx rx set_rx].
  split.
  { destruct (irq_no_hvx pending w1 tt w2 E2) as (calls & -> & Hcalls).
    cbn [sd_calls w1 set_softdevice].
    rewrite !hvx_payloads_app, hvx_payloads_once.
    now rewrite (hvx_payloads_none _ Hcalls), app_nil_r. }
  split; [|exact Hc3].
  rewrite (irq_keeps_all tx pending handle_keeps_tx _ _ _ E2). exact Hc1.
Qed.

End ReadFacts.

(** ** Battery sampler *)

Module SamplerFacts.
Import Exact F32 Battery Sampler F32Facts BatteryFacts.

(** [battery_voltage_to_percent] returns a percentage, whatever the
    [float]. *)
Lemma percent_range (v : f32) :
  exists p, battery_voltage_to_percent v = Ok p /\ 0 <= p <= 100.
Proof.
  rewrite percent_unfold.
  destruct (SFltb (Fin 15938355 (-22)) v) eqn:E0.
  - exists 100. split; [reflexivity|lia].
  - destruct (branch_index curve_size 0 v) as [j|] eqn:Ej.
    + destruct (interpolate_range j v E0 Ej) as (_ & z & Hz & Hr). eauto.
    + exists 0. split; [reflexivity|lia].
Qed.

Lemma handler_quiet adc s :
  0 <= battery_timer_counter s < 255 ->
  battery_timer_handler adc s
  = Ok {| battery_percent := battery_percent s;
          battery_timer_counter := battery_timer_counter s + 1;
          travelling := travelling s |}.
Proof.
  intros Hc. unfold battery_timer_handler, uint8.
  rewrite Z.mod_small by lia.
  destruct (Z.eqb_spec (battery_timer_counter s + 1) 0); [lia|reflexivity].
Qed.

Lemma run_ticks_quiet ticks : forall s,
  0 <= battery_timer_counter s ->
  battery_timer_counter s + Z.of_nat (length ticks) < 256 ->
  run_ticks ticks s
  = Ok {| battery_percent := battery_percent s;
          battery_timer_counter :=
            battery_timer_counter s + Z.of_nat (length ticks);
          travelling := travelling s |}.
Proof.
  induction ticks as [|adc ticks IH]; intros s H0 Hn; cbn [run_ticks length].
  - rewrite Z.add_0_r. now destruct s.
  - cbn [length] in Hn. rewrite handler_quiet by lia.
    rewrite IH; cbn [battery_timer_counter battery_percent travelling];
      try lia.
    do 2 f_equal. lia.
Qed.

Lemma handler_sample adc s :
  battery_timer_counter s = 255 ->
  battery_timer_handler adc s
  = if (simple_mode_set adc =? NRFX_SUCCESS)
       && (buffer_set adc =? NRFX_SUCCESS)
       && (mode_trigger adc =? NRFX_SUCCESS)
    then
      let '(v_mean, travelling') :=
        battery_travelling_mean (travelling s)
          (battery_saadc_to_voltage (value adc)) in
      percent ← battery_voltage_to_percent v_mean;
      Ok {| battery_percent := percent;
            battery_timer_counter := 0;
            travelling := travelling' |}
    else Fault Assertion_failed.
Proof.
  intros Hc. unfold battery_timer_handler. rewrite Hc.
  change (uint8 (255 + 1)) with 0. cbn [Z.eqb negb].
  unfold ASSERT.
  destruct (simple_mode_set adc =? NRFX_SUCCESS); [|reflexivity].
  destruct (buffer_set adc =? NRFX_SUCCESS); [|reflexivity].
  destruct (mode_trigger adc =? NRFX_SUCCESS); reflexivity.
Qed.

Lemma handler_inv adc s :
  battery_inv s ->
  match battery_timer_handler adc s with
  | Ok s' => battery_inv s'
  | Fault f => f = Assertion_failed
  end.
Proof.
  intros [Hp Hc].
  destruct (Z.eq_dec (battery_timer_counter s) 255) as [E|E].
  - rewrite (handler_sample _ _ E).
    destruct (_ && _); [|reflexivity].
    destruct (battery_travelling_mean _ _) as [v_mean tm].
    destruct (percent_range v_mean) as (p & -> & Hr).
    cbn [mbind result_bind]. split; cbn; lia.
  - rewrite handler_quiet by lia. split; cbn; lia.
Qed.

Lemma run_ticks_inv ticks : forall s,
  battery_inv s ->
  match run_ticks ticks s with
  | Ok s' => battery_inv s'
  | Fault f => f = Assertion_failed
  end.
Proof.
  induction ticks as [|adc ticks IH]; intros s Hs; cbn [run_ticks];
    [exact Hs|].
  pose proof (handler_inv adc s Hs) as H.
  destruct (battery_timer_handler adc s) as [s1|f]; [now apply IH|exact H].
Qed.

(** *** Computing with the stored constants *)

Lemma search_on_eq rem : forall i v,
  search_on battery_discharge_curve rem i v = search rem i v.
Proof.
  induction rem as [|rem IH]; intros i v; cbn [search_on search];
    [reflexivity|].
  destruct (array_get battery_discharge_curve i) as [ci|f]; [|reflexivity].
  cbn [mbind result_bind]. destruct (flt ci v); [reflexivity|apply IH].
Qed.

Lemma percent_on_eq v :
  battery_voltage_to_percent v = percent_on curve32 v.
Proof.
  rewrite <- curve32_eq. unfold percent_on, battery_voltage_to_percent.
  destruct (array_get battery_discharge_curve 0) as [c0|f]; [|reflexivity].
  cbn [mbind result_bind]. destruct (flt c0 v); [reflexivity|].
  symmetry. apply search_on_eq.
Qed.

Lemma saadc_to_voltage_eq raw :
  battery_saadc_to_voltage raw
  = saadc_to_voltage_with reference32 gain32 raw.
Proof.
  unfold battery_saadc_to_voltage, saadc_to_voltage_with.
  replace (of_double REFERENCE) with reference32
    by (vm_compute; reflexivity).
  replace (of_double GAIN) with gain32 by (vm_compute; reflexivity).
  reflexivity.
Qed.

Lemma first_percent_eq raw :
  first_percent raw
  = percent_on curve32
      (fst (battery_travelling_mean mean_init
              (saadc_to_voltage_with reference32 gain32 raw))).
Proof.
  unfold first_percent. now rewrite percent_on_eq, saadc_to_voltage_eq.
Qed.

Lemma forallb_seq (f : nat -> bool) n :
  forallb f (seq 0 n) = true -> forall i, (i < n)%nat -> f i = true.
Proof.
  intros H i Hi. rewrite forallb_forall in H. apply H.
  apply in_seq. lia.
Qed.

Lemma run_ticks_app a : forall b s,
  run_ticks (a ++ b) s
  = match run_ticks a s with
    | Ok s' => run_ticks b s'
    | Fault f => Fault f
    end.
Proof.
  induction a as [|adc a IH]; intros b s; cbn [app run_ticks];
    [reflexivity|].
  destruct (battery_timer_handler adc s); [apply IH|reflexivity].
Qed.

(** Two hundred and fifty-five quiet ticks, then the tick that asks the
    ADC. *)
Lemma run_ticks_period quiet adc s :
  battery_timer_counter s = 0 -> length quiet = 255%nat ->
  run_ticks (quiet ++ [adc]) s
  = if (simple_mode_set adc =? NRFX_SUCCESS)
       && (buffer_set adc =? NRFX_SUCCESS)
       && (mode_trigger adc =? NRFX_SUCCESS)
    then
      let '(v_mean, travelling') :=
        battery_travelling_mean (travelling s)
          (battery_saadc_to_voltage (value adc)) in
      percent ← battery_voltage_to_percent v_mean;
      Ok {| battery_percent := percent;
            battery_timer_counter := 0;
            travelling := travelling' |}
    else Fault Assertion_failed.
Proof.
  intros Hc Hlen. rewrite run_ticks_app, run_ticks_quiet by lia.
  cbn [run_ticks]. rewrite handler_sample
    by (cbn [battery_timer_counter]; lia).
  cbn [travelling]. destruct (_ && _); [|reflexivity].
  destruct (battery_travelling_mean _ _) as [v_mean tm].
  destruct (battery_voltage_to_percent v_mean); reflexivity.
Qed.

Lemma shown_steps :
  forallb (fun raw => (shown raw <=? shown (S raw))
                      && (0 <=? shown raw))
          (seq 0 1023) = true.
Proof. vm_compute. reflexivity. Qed.

Lemma shown_monotone i j :
  (i <= j <= 1023)%nat -> 0 <= shown i <= shown j.
Proof.
  intros [Hij Hj]. induction Hij as [|j Hij IH].
  - destruct (Nat.eq_dec i 1023) as [->|Hne].
    + vm_compute. split; discriminate.
    + pose proof (forallb_seq _ _ shown_steps i ltac:(lia)) as H.
      cbn beta in H. apply andb_true_iff in H as [_ H]. lia.
  - pose proof (forallb_seq _ _ shown_steps j ltac:(lia)) as H.
    cbn beta in H. apply andb_true_iff in H as [H _]. lia.
Qed.

Lemma shown_first_percent i :
  0 <= shown i -> first_percent (Z.of_nat i) = Ok (shown i).
Proof.
  rewrite first_percent_eq. unfold shown.
  destruct (percent_on curve32 _); [reflexivity|lia].
Qed.

(** The percentage over the range of the 10-bit converter: it does not
    decrease, is 0 up to 427 and 100 from 598. *)
Lemma first_percent_steps raw1 raw2 :
  0 <= raw1 <= raw2 -> raw2 <= 1023 ->
  exists p1 p2,
    first_percent raw1 = Ok p1 /\ first_percent raw2 = Ok p2
    /\ 0 <= p1 <= p2 /\ p2 <= 100
    /\ (raw2 <= 427 -> p2 = 0) /\ (598 <= raw1 -> p1 = 100).
Proof.
  intros H1 H2.
  pose proof (shown_monotone (Z.to_nat raw1) (Z.to_nat raw2) ltac:(lia)) as M.
  pose proof (shown_monotone (Z.to_nat raw2) 1023 ltac:(lia)) as M2.
  assert (E1023 : shown 1023 = 100) by (vm_compute; reflexivity).
  exists (shown (Z.to_nat raw1)), (shown (Z.to_nat raw2)).
  rewrite <- (shown_first_percent (Z.to_nat raw1)) by lia.
  rewrite <- (shown_first_percent (Z.to_nat raw2)) by lia.
  rewrite !Z2Nat.id by lia.
  split; [reflexivity|]. split; [reflexivity|]. split; [lia|].
  split; [lia|]. split.
  - intros H. pose proof (shown_monotone (Z.to_nat raw2) 427 ltac:(lia)) as M3.
    assert (E : shown 427 = 0) by (vm_compute; reflexivity). lia.
  - intros H. pose proof (shown_monotone 598 (Z.to_nat raw1) ltac:(lia)) as M3.
    assert (E : shown 598 = 100) by (vm_compute; reflexivity). lia.
Qed.

(** The first sample after boot. *)
Lemma run_ticks_first quiet raw :
  length quiet = 255%nat ->
  run_ticks (quiet ++ [sample raw]) battery_zero
  = (percent ← first_percent raw;
     Ok {| battery_percent := percent;
           battery_timer_counter := 0;
           travelling :=
             snd (battery_travelling_mean mean_init
                    (battery_saadc_to_voltage raw)) |}).
Proof.
  intros Hlen. rewrite (run_ticks_period quiet (sample raw) battery_zero)
    by (trivial; reflexivity).
  cbn [sample simple_mode_set buffer_set mode_trigger value].
  rewrite Z.eqb_refl. cbn [andb travelling battery_zero].
  unfold first_percent.
  destruct (battery_travelling_mean mean_init _) as [v_mean tm].
  reflexivity.
Qed.

(** The conversion against the formula of its comment, [RESULT / 2^10
    * 0.45 / (0.25 * 1.25 / 4.5)], which is [RESULT * 81 / 12800]. *)
Lemma voltage_steps :
  forallb (fun raw =>
             let v := to_Q (saadc_to_voltage_with reference32 gain32
                              (Z.of_nat raw)) in
             let exact := (inject_Z (Z.of_nat raw) * (81 # 12800))%Q in
             Qle_bool (exact * (4194303 # 4194304)) v
             && Qle_bool v (exact * (4194305 # 4194304)))
          (seq 0 1024) = true.
Proof. vm_compute. reflexivity. Qed.

Lemma voltage_accuracy raw :
  0 <= raw <= 1023 ->
  (inject_Z raw * (81 # 12800) * (4194303 # 4194304)
   <= to_Q (battery_saadc_to_voltage raw)
   <= inject_Z raw * (81 # 12800) * (4194305 # 4194304))%Q.
Proof.
  intros Hr. rewrite saadc_to_voltage_eq.
  pose proof (forallb_seq _ _ voltage_steps (Z.to_nat raw) ltac:(lia)) as H.
  cbn beta zeta in H. rewrite Z2Nat.id in H by lia.
  apply andb_true_iff in H as [H1 H2].
  split; now apply Qle_bool_iff.
Qed.

End SamplerFacts.

(** ** Advertising payload *)

Module AdvertisingFacts.
Import Advertising.

Lemma array_set_at (pre : list Z) old post v :
  array_set (pre ++ old :: post) (Z.of_nat (length pre)) v
  = Ok (pre ++ v :: post).
Proof.
  unfold array_set. rewrite length_app. cbn [length].
  destruct (Z.leb_spec 0 (Z.of_nat (length pre))); [|lia].
  destruct (Z.ltb_spec (Z.of_nat (length pre))
              (Z.of_nat (length pre + S (length post)))); [|lia].
  cbn [andb]. f_equal. rewrite Nat2Z.id.
  rewrite insert_app_r_alt by lia. now rewrite Nat.sub_diag.
Qed.

Lemma array_set_length (dst : list Z) i v dst' :
  array_set dst i v = Ok dst' -> length dst' = length dst.
Proof.
  unfold array_set. destruct (_ && _); [|discriminate].
  intros E. injection E as <-. apply length_insert.
Qed.

Lemma array_set_beyond (dst : list Z) i v :
  Z.of_nat (length dst) <= i -> array_set dst i v = Fault Out_of_bounds.
Proof.
  intros H. unfold array_set.
  destruct (Z.ltb_spec i (Z.of_nat (length dst))); [lia|].
  now rewrite andb_false_r.
Qed.

Lemma memcpy_at src : forall (pre old post : list Z),
  length old = length src ->
  memcpy (pre ++ old ++ post) (Z.of_nat (length pre)) src
  = Ok (pre ++ src ++ post).
Proof.
  induction src as [|b src IH]; intros pre old post Hlen.
  - destruct old; [reflexivity|discriminate].
  - destruct old as [|o old]; [discriminate|]. cbn [memcpy app].
    rewrite array_set_at. cbn [mbind result_bind].
    replace (Z.of_nat (length pre) + 1)
      with (Z.of_nat (length (pre ++ [b])))
      by (rewrite length_app; cbn [length]; lia).
    replace (pre ++ b :: old ++ post) with ((pre ++ [b]) ++ old ++ post)
      by (now rewrite <- app_assoc).
    rewrite IH by (cbn [length] in Hlen; lia).
    now rewrite <- app_assoc.
Qed.

(** A copy that does not fit runs past the end. *)
Lemma memcpy_beyond src : forall (dst : list Z) offset,
  0 <= offset ->
  Z.of_nat (length dst) < offset + Z.of_nat (length src) ->
  src <> [] ->
  memcpy dst offset src = Fault Out_of_bounds.
Proof.
  induction src as [|b src IH]; intros dst offset H0 Hlen Hne;
    [contradiction|].
  cbn [memcpy].
  destruct (array_set dst offset b) as [dst'|f] eqn:E.
  - cbn [mbind result_bind].
    pose proof (array_set_length _ _ _ _ E) as Hl.
    destruct src as [|b' src].
    + exfalso. unfold array_set in E. cbn [length] in Hlen.
      destruct (Z.ltb_spec offset (Z.of_nat (length dst))); [lia|].
      rewrite andb_false_r in E. discriminate.
    + apply IH; [lia| |discriminate]. rewrite Hl.
      cbn [length] in *. lia.
  - unfold array_set in E. destruct (_ && _); [discriminate|].
    now injection E as <-.
Qed.

(** *** Writing into the cells still zero *)

Lemma put_ok v pre k post :
  (length pre < 255)%nat ->
  put_byte v (adv_with pre (S k) post)
  = Ok (adv_with (pre ++ [uint8 v]) k post).
Proof.
  intros Hlen. unfold put_byte, adv_with. cbn [adv_length adv_payload].
  cbn [replicate app]. rewrite array_set_at. cbn [mbind result_bind].
  rewrite length_app, <- app_assoc. cbn [length app]. do 2 f_equal.
  unfold uint8. rewrite Z.mod_small; lia.
Qed.

Lemma put_full v pre :
  put_byte v (adv_with pre 0 []) = Fault Out_of_bounds.
Proof.
  unfold put_byte, adv_with. cbn [adv_length adv_payload replicate app].
  rewrite array_set_beyond; [reflexivity|]. rewrite app_nil_r. lia.
Qed.

Lemma memcpy_ok dst offset src (pre : list Z) d k post K :
  dst = pre ++ replicate K 0 ++ post ->
  offset = Z.of_nat (length pre) + Z.of_nat d ->
  K = (d + length src + k)%nat ->
  memcpy dst offset src
  = Ok (pre ++ replicate d 0 ++ src ++ replicate k 0 ++ post).
Proof.
  intros -> -> ->.
  rewrite !replicate_add, <- !app_assoc.
  replace (Z.of_nat (length pre) + Z.of_nat d)
    with (Z.of_nat (length (pre ++ replicate d 0)))
    by (rewrite length_app, length_replicate; lia).
  rewrite (app_assoc pre (replicate d 0)).
  rewrite (memcpy_at src (pre ++ replicate d 0)
             (replicate (length src) 0) (replicate k 0 ++ post))
    by apply length_replicate.
  now rewrite <- app_assoc.
Qed.

(** *** The three blocks *)

Lemma adv_zero_with : adv_zero = adv_with [] 31 [].
Proof. reflexivity. Qed.

Lemma add_name_ok name :
  (length name <= 28)%nat ->
  add_name name adv_zero
  = Ok (adv_with (ad_structure BLE_GAP_AD_TYPE_COMPLETE_LOCAL_NAME name)
                 (29 - length name) []).
Proof.
  intros Hn. unfold add_name. rewrite adv_zero_with.
  rewrite put_ok by (cbn; lia). cbn [mbind result_bind].
  rewrite put_ok by (cbn; lia). cbn [mbind result_bind app].
  unfold adv_with. cbn [adv_length adv_payload].
  erewrite (memcpy_ok _ _ (name ++ [0]) _ 0 (28 - length name) [] 29);
    [|reflexivity|cbn [length]; lia
     |rewrite length_app; cbn [length]; lia].
  cbn [mbind result_bind]. unfold adv_with, ad_structure.
  cbn [adv_length replicate app length].
  assert (Hs : size_t (Z.of_nat (length name)) = Z.of_nat (length name))
    by (unfold size_t; rewrite Z.mod_small; lia).
  rewrite Hs.
  unfold uint8, size_t, BLE_GAP_AD_TYPE_COMPLETE_LOCAL_NAME.
  rewrite (Z.mod_small (Z.of_nat (length name) + 1) 4294967296) by lia.
  rewrite !Z.mod_small by lia. f_equal. f_equal; [lia|].
  rewrite <- !app_assoc, !app_nil_r. cbn [app].
  f_equal; [lia|]. do 2 f_equal.
  change (0 :: replicate (28 - length name) 0)
    with (replicate (S (28 - length name)) 0).
  f_equal. lia.
Qed.

Lemma add_name_overflow name :
  (28 < length name)%nat -> add_name name adv_zero = Fault Out_of_bounds.
Proof.
  intros Hn. unfold add_name. rewrite adv_zero_with.
  rewrite put_ok by (cbn; lia). cbn [mbind result_bind].
  rewrite put_ok by (cbn; lia). cbn [mbind result_bind app].
  rewrite memcpy_beyond; [reflexivity|cbn; lia| |].
  - unfold adv_with. cbn [adv_payload adv_length].
    rewrite !length_app, length_replicate. cbn [length]. lia.
  - now destruct name.
Qed.

Lemma add_flags_ok pre k :
  (length pre < 250)%nat ->
  add_flags (adv_with pre (3 + k) [])
  = Ok (adv_with (pre ++ ad_structure BLE_GAP_AD_TYPE_FLAGS
                           [BLE_GAP_ADV_FLAGS_LE_ONLY_GENERAL_DISC_MODE])
                 k []).
Proof.
  intros Hlen. unfold add_flags. cbn [Nat.add].
  rewrite put_ok by lia. cbn [mbind result_bind].
  rewrite put_ok by (rewrite length_app; cbn [length]; lia).
  cbn [mbind result_bind].
  rewrite put_ok by (rewrite !length_app; cbn [length]; lia).
  now rewrite <- !app_assoc.
Qed.

Lemma add_flags_overflow pre k :
  (length pre < 250)%nat -> (k < 3)%nat ->
  add_flags (adv_with pre k []) = Fault Out_of_bounds.
Proof.
  intros Hlen Hk. unfold add_flags.
  destruct k as [|[|[|k]]]; [| | |lia]; rewrite ?put_full; trivial;
    rewrite put_ok by lia; cbn [mbind result_bind];
    rewrite ?put_full; trivial.
  rewrite put_ok by (rewrite length_app; cbn [length]; lia).
  cbn [mbind result_bind]. now rewrite put_full.
Qed.

Lemma add_uuid_ok err encoded pre k :
  (length pre + length encoded < 250)%nat ->
  add_uuid (setup_ok err encoded) (adv_with pre (2 + length encoded + k) [])
  = Ok (adv_with
          (pre ++ ad_structure BLE_GAP_AD_TYPE_128BIT_SERVICE_UUID_COMPLETE
                    encoded)
          k []).
Proof.
  intros Hlen. unfold add_uuid, NRFX_ASSERT.
  cbn [setup_ok uuid_encode encoded_uuid Z.eqb].
  unfold adv_with. cbn [adv_length adv_payload].
  rewrite (memcpy_ok _ _ encoded pre 2 k [] (2 + length encoded + k));
    [|reflexivity|lia|reflexivity].
  cbn [mbind result_bind].
  change ({| adv_length := Z.of_nat (length pre);
             adv_payload := pre ++ replicate 2 0 ++ encoded
                            ++ replicate k 0 ++ [] |})
    with (adv_with pre 2 (encoded ++ replicate k 0 ++ [])).
  rewrite put_ok by lia. cbn [mbind result_bind].
  rewrite put_ok by (rewrite length_app; cbn [length]; lia).
  cbn [mbind result_bind]. unfold adv_with, ad_structure.
  cbn [adv_length adv_payload replicate app].
  assert (HL' : uint8 (Z.of_nat (length encoded)) = Z.of_nat (length encoded))
    by (unfold uint8; rewrite Z.mod_small; lia).
  rewrite !HL'.
  unfold uint8, BLE_GAP_AD_TYPE_128BIT_SERVICE_UUID_COMPLETE.
  rewrite !length_app. cbn [length].
  rewrite !Z.mod_small by lia. f_equal. f_equal; [lia|].
  rewrite <- !app_assoc. cbn [app]. reflexivity.
Qed.

Lemma add_uuid_overflow err encoded pre k :
  (length pre < 250)%nat -> (k < 2 + length encoded)%nat ->
  add_uuid (setup_ok err encoded) (adv_with pre k [])
  = Fault Out_of_bounds.
Proof.
  intros Hlen Hk. unfold add_uuid, NRFX_ASSERT.
  cbn [setup_ok uuid_encode encoded_uuid Z.eqb].
  destruct encoded as [|b encoded].
  - cbn [memcpy mbind result_bind length].
    change ({| adv_length := adv_length (adv_with pre k []);
               adv_payload := adv_payload (adv_with pre k []) |})
      with (adv_with pre k []).
    destruct k as [|[|k]]; [| |cbn [length] in Hk; lia].
    + now rewrite put_full.
    + rewrite put_ok by lia. cbn [mbind result_bind]. now rewrite put_full.
  - rewrite memcpy_beyond; [reflexivity| | |discriminate];
      unfold adv_with; cbn [adv_length adv_payload]; [lia|].
    rewrite !length_app, length_replicate. cbn [length] in *. lia.
Qed.

(** *** The whole payload *)

Lemma add_service_layout name err encoded :
  Z.of_nat (length name) + Z.of_nat (length encoded) + 7 <= 31 ->
  ble_add_service_tx_rx name (setup_ok err encoded) adv_zero
  = Ok (adv_with
          (ad_structure BLE_GAP_AD_TYPE_COMPLETE_LOCAL_NAME name
           ++ ad_structure BLE_GAP_AD_TYPE_FLAGS
                [BLE_GAP_ADV_FLAGS_LE_ONLY_GENERAL_DISC_MODE]
           ++ ad_structure BLE_GAP_AD_TYPE_128BIT_SERVICE_UUID_COMPLETE
                encoded)
          (24 - length name - length encoded) []).
Proof.
  intros Hfit. unfold ble_add_service_tx_rx, NRFX_ASSERT.
  cbn [setup_ok uuid_vs_add rx_characteristic_add tx_characteristic_add
       adv_set_configure Z.eqb mbind result_bind].
  rewrite add_name_ok by lia. cbn [mbind result_bind].
  replace (29 - length name)%nat
    with (3 + (2 + length encoded + (24 - length name - length encoded)))%nat
    by lia.
  rewrite add_flags_ok by (unfold ad_structure; cbn [length]; lia).
  cbn [mbind result_bind].
  rewrite (add_uuid_ok err encoded)
    by (unfold ad_structure; rewrite ?length_app; cbn [length]; lia).
  cbn [mbind result_bind]. now rewrite <- !app_assoc.
Qed.

Lemma add_service_overflow name err encoded :
  31 < Z.of_nat (length name) + Z.of_nat (length encoded) + 7 ->
  ble_add_service_tx_rx name (setup_ok err encoded) adv_zero
  = Fault Out_of_bounds.
Proof.
  intros Hover. unfold ble_add_service_tx_rx, NRFX_ASSERT.
  cbn [setup_ok uuid_vs_add rx_characteristic_add tx_characteristic_add
       adv_set_configure Z.eqb mbind result_bind].
  destruct (le_lt_dec (length name) 28) as [Hn|Hn].
  - rewrite add_name_ok by exact Hn. cbn [mbind result_bind].
    destruct (le_lt_dec 3 (29 - length name)) as [Hf|Hf].
    + replace (29 - length name)%nat with (3 + (26 - length name))%nat
        by lia.
      rewrite add_flags_ok by (unfold ad_structure; cbn [length]; lia).
      cbn [mbind result_bind].
      rewrite (add_uuid_overflow err encoded); [reflexivity| |lia].
      unfold ad_structure. rewrite ?length_app. cbn [length]. lia.
    + rewrite add_flags_overflow; [reflexivity| |exact Hf].
      unfold ad_structure. cbn [length]. lia.
  - now rewrite add_name_overflow.
Qed.

End AdvertisingFacts.

(** * Further properties of the ring buffer, the BLE driver and the
      battery sampler *)

Import RingTrace Console Sampler RingMore ConsoleFacts FlushFacts SafetyFacts
       HandlerFacts WriteFacts ReadFacts SamplerFacts.

(** ** Ring buffer *)

(** X1. A ring whose indices are in range holds at most
    [RING_BUFFER_LENGTH - 1] bytes, 1068 of the 1069 cells: [ring_full]
    answers true exactly when it holds that many, and [ring_empty] exactly
    when it holds none. *)
Theorem X1_ring_capacity (ring : ring_buf_t) :
  ring_inv ring ->
  Z.of_nat (length (contents ring)) <= RING_BUFFER_LENGTH - 1
  /\ (ring_full ring = true
      <-> Z.of_nat (length (contents ring)) = RING_BUFFER_LENGTH - 1)
  /\ (ring_empty ring = true <-> length (contents ring) = 0%nat).
Proof.
  intros Hinv. split; [now apply contents_bound|].
  split; [now apply ring_full_contents|].
  rewrite length_zero_iff_nil. now apply ring_empty_contents.
Qed.

(** The theorem for a ring holding five bytes. *)
Lemma X1_ring_capacity_witness :
  ring_inv (ring_of example_bytes)
  /\ Z.of_nat (length (contents (ring_of example_bytes)))
     <= RING_BUFFER_LENGTH - 1
  /\ (ring_full (ring_of example_bytes) = true
      <-> Z.of_nat (length (contents (ring_of example_bytes)))
          = RING_BUFFER_LENGTH - 1)
  /\ (ring_empty (ring_of example_bytes) = true
      <-> length (contents (ring_of example_bytes)) = 0%nat).
Proof.
  assert (H : ring_inv (ring_of example_bytes)) by ring_inv_by_computation.
  split; [exact H|]. exact (X1_ring_capacity (ring_of example_bytes) H).
Defined.

(** X2. [ring_push] does not test for room. Pushing onto a full ring
    succeeds, overwrites no byte held, and leaves a ring whose [head] and
    [tail] are equal: it reports empty, and the 1068 bytes it held are
    lost to [ring_pop]. *)
Theorem X2_push_on_full_ring (ring : ring_buf_t) (byte : Byte.byte) :
  ring_inv ring -> ring_full ring = true ->
  exists ring',
    ring_push ring byte = Ok ring'
    /\ ring_inv ring'
    /\ Z.of_nat (length (contents ring)) = RING_BUFFER_LENGTH - 1
    /\ ring_empty ring' = true
    /\ contents ring' = [].
Proof.
  intros Hinv Hfull.
  destruct (ring_push_full ring byte Hinv Hfull) as (r & Hpush & Hr & He).
  exists r. split; [exact Hpush|]. split; [exact Hr|].
  split; [now apply ring_full_contents|]. split; [exact He|].
  now apply ring_empty_contents.
Qed.

(** The theorem for a ring filled with 1068 bytes. *)
Lemma X2_push_on_full_ring_witness :
  ring_inv ring_1068 /\ ring_full ring_1068 = true
  /\ exists ring',
       ring_push ring_1068 Byte.x42 = Ok ring'
       /\ ring_inv ring'
       /\ Z.of_nat (length (contents ring_1068)) = RING_BUFFER_LENGTH - 1
       /\ ring_empty ring' = true
       /\ contents ring' = [].
Proof.
  assert (H1 : ring_inv ring_1068) by ring_inv_by_computation.
  assert (H2 : ring_full ring_1068 = true) by (vm_compute; reflexivity).
  split; [exact H1|]. split; [exact H2|].
  exact (X2_push_on_full_ring ring_1068 Byte.x42 H1 H2).
Defined.

(** X3. [ring_pop] does not test for data. Popping an empty ring
    succeeds and returns whatever byte the cell at [head] holds; the ring
    then reports full, so that 1068 more stale bytes can be popped. *)
Theorem X3_pop_on_empty_ring (ring : ring_buf_t) :
  ring_inv ring -> ring_empty ring = true ->
  exists byte ring',
    ring_pop ring = Ok (byte, ring')
    /\ buffer ring !! Z.to_nat (head ring) = Some byte
    /\ ring_inv ring'
    /\ ring_full ring' = true
    /\ Z.of_nat (length (contents ring')) = RING_BUFFER_LENGTH - 1.
Proof.
  intros Hinv He.
  destruct (ring_pop_empty ring Hinv He) as (b & r & Hpop & Hr & Hf & Hcell).
  exists b, r. split; [exact Hpop|]. split; [exact Hcell|].
  split; [exact Hr|]. split; [exact Hf|]. now apply ring_full_contents.
Qed.

(** The theorem for the zero-initialised ring. *)
Lemma X3_pop_on_empty_ring_witness :
  ring_inv ring_zero /\ ring_empty ring_zero = true
  /\ exists byte ring',
       ring_pop ring_zero = Ok (byte, ring')
       /\ buffer ring_zero !! Z.to_nat (head ring_zero) = Some byte
       /\ ring_inv ring'
       /\ ring_full ring' = true
       /\ Z.of_nat (length (contents ring')) = RING_BUFFER_LENGTH - 1.
Proof.
  assert (H1 : ring_inv ring_zero) by ring_inv_by_computation.
  assert (H2 : ring_empty ring_zero = true) by reflexivity.
  split; [exact H1|]. split; [exact H2|].
  exact (X3_pop_on_empty_ring ring_zero H1 H2).
Defined.

(** X4. The ring is a first-in first-out queue of at most 1068 bytes
    under any interleaving of pushes and pops, whatever the positions of
    [head] and [tail] and also when the bytes held wrap round the end of
    the array: as long as no push finds 1068 bytes held and no pop finds
    none, every [ring_pop] returns the byte the queue would, and the ring
    ends holding what the queue holds. *)
Theorem X4_ring_is_a_queue (ring : ring_buf_t) (ops : list ring_op)
    (out q' : list Byte.byte) :
  ring_inv ring ->
  queue_trace (contents ring) ops = Some (out, q') ->
  exists ring',
    run_trace ring ops = Ok (out, ring')
    /\ ring_inv ring'
    /\ contents ring' = q'.
Proof. apply run_trace_refines. Qed.

(** The theorem for a pop, a push and a pop on a ring holding five
    bytes. *)
Lemma X4_ring_is_a_queue_witness :
  ring_inv (ring_of example_bytes)
  /\ queue_trace (contents (ring_of example_bytes))
       [Op_pop; Op_push Byte.x21; Op_pop]
     = Some ([Byte.x68; Byte.x65],
             [Byte.x6c; Byte.x6c; Byte.x6f; Byte.x21])
  /\ exists ring',
       run_trace (ring_of example_bytes) [Op_pop; Op_push Byte.x21; Op_pop]
       = Ok ([Byte.x68; Byte.x65], ring')
       /\ ring_inv ring'
       /\ contents ring' = [Byte.x6c; Byte.x6c; Byte.x6f; Byte.x21].
Proof.
  assert (H1 : ring_inv (ring_of example_bytes)) by ring_inv_by_computation.
  assert (H2 : queue_trace (contents (ring_of example_bytes))
                 [Op_pop; Op_push Byte.x21; Op_pop]
               = Some ([Byte.x68; Byte.x65],
                       [Byte.x6c; Byte.x6c; Byte.x6f; Byte.x21]))
    by (vm_compute; reflexivity).
  split; [exact H1|]. split; [exact H2|].
  exact (X4_ring_is_a_queue _ _ _ _ H1 H2).
Defined.

(** ** Event handler *)

(** X5. Whatever events are pending, [SWI2_IRQHandler] leaves the
    transmit ring, the advertising handle and the handles of the two
    characteristics as it found them. *)
Theorem X5_handler_frame (pending : list ble_evt_t) (w w' : world) :
  SWI2_IRQHandler pending w = Ok (tt, w') ->
  tx w' = tx w
  /\ advertising w' = advertising w
  /\ rx_value_handle w' = rx_value_handle w
  /\ tx_value_handle w' = tx_value_handle w.
Proof.
  intros E.
  repeat split;
    (eapply (irq_keeps_all _ pending); [|exact E]);
    intros e; apply handle_keeps_static; intros ? ? **; reflexivity.
Qed.

(** The theorem for a connection, a write, a disconnection and a new
    connection in the boot-time world. *)
Lemma X5_handler_frame_witness :
  SWI2_IRQHandler example_events (world_init [])
  = Ok (tt, world_after example_events (world_init []))
  /\ tx (world_after example_events (world_init [])) = tx (world_init [])
  /\ advertising (world_after example_events (world_init []))
     = advertising (world_init [])
  /\ rx_value_handle (world_after example_events (world_init []))
     = rx_value_handle (world_init [])
  /\ tx_value_handle (world_after example_events (world_init []))
     = tx_value_handle (world_init []).
Proof.
  assert (H : SWI2_IRQHandler example_events (world_init [])
              = Ok (tt, world_after example_events (world_init [])))
    by (vm_compute; reflexivity).
  split; [exact H|]. exact (X5_handler_frame _ _ _ H).
Defined.

(** X6. What [SWI2_IRQHandler] stores: when it returns, the receive ring
    holds what it held followed by the bytes of all the characteristic
    writes pending, in order, cut where the ring became full. Bytes are
    dropped at the end only, never in the middle of the stream. *)
Theorem X6_handler_receives (pending : list ble_evt_t) (w w' : world) :
  SWI2_IRQHandler pending w = Ok (tt, w') -> ring_inv (rx w) ->
  let room := Z.to_nat (RING_BUFFER_LENGTH - 1
                        - Z.of_nat (length (contents (rx w)))) in
  ring_inv (rx w')
  /\ contents (rx w') = contents (rx w) ++ take room (written pending).
Proof. apply irq_rx. Qed.

(** The theorem for the same four events. *)
Lemma X6_handler_receives_witness :
  SWI2_IRQHandler example_events (world_init [])
  = Ok (tt, world_after example_events (world_init []))
  /\ ring_inv (rx (world_init []))
  /\ ring_inv (rx (world_after example_events (world_init [])))
  /\ contents (rx (world_after example_events (world_init [])))
     = contents (rx (world_init []))
       ++ take (Z.to_nat (RING_BUFFER_LENGTH - 1
                          - Z.of_nat (length (contents (rx (world_init []))))))
            (written example_events).
Proof.
  assert (H1 : SWI2_IRQHandler example_events (world_init [])
               = Ok (tt, world_after example_events (world_init [])))
    by (vm_compute; reflexivity).
  assert (H2 : ring_inv (rx (world_init []))) by ring_inv_by_computation.
  split; [exact H1|]. split; [exact H2|].
  exact (X6_handler_receives _ _ _ H1 H2).
Defined.

(** X7. [SWI2_IRQHandler] returns only if every answer the SoftDevice
    gave it was [NRF_SUCCESS]: the answers it used up are a prefix of the
    pending ones, all zero. An error answer to any of its calls keeps it
    from returning. *)
Theorem X7_handler_accepts_no_error (pending : list ble_evt_t) (w w' : world) :
  SWI2_IRQHandler pending w = Ok (tt, w') ->
  exists used,
    sd_replies w = used ++ sd_replies w'
    /\ Forall (fun err => err = NRF_SUCCESS) used.
Proof. apply irq_all_success. Qed.

(** The theorem with three answers pending. *)
Lemma X7_handler_accepts_no_error_witness :
  SWI2_IRQHandler example_events (world_init [0; 0; 0])
  = Ok (tt, world_after example_events (world_init [0; 0; 0]))
  /\ exists used,
       sd_replies (world_init [0; 0; 0])
       = used ++ sd_replies (world_after example_events (world_init [0; 0; 0]))
       /\ Forall (fun err => err = NRF_SUCCESS) used.
Proof.
  assert (H : SWI2_IRQHandler example_events (world_init [0; 0; 0])
              = Ok (tt, world_after example_events (world_init [0; 0; 0])))
    by (vm_compute; reflexivity).
  split; [exact H|]. exact (X7_handler_accepts_no_error _ _ _ H).
Defined.

(** X8. A pending [BLE_GATTC_EVT_TIMEOUT] stops the firmware: whatever
    else is pending and whatever the SoftDevice answers, the handler ends
    on a failed assertion and never returns. *)
Theorem X8_gattc_timeout_halts (pending : list ble_evt_t) (w : world) :
  existsb is_gattc_timeout pending = true -> ring_inv (rx w) ->
  SWI2_IRQHandler pending w = Fault Assertion_failed.
Proof. apply irq_gattc_timeout. Qed.

(** The theorem for a timeout after a write. *)
Lemma X8_gattc_timeout_halts_witness :
  existsb is_gattc_timeout
    [BLE_GATTS_EVT_WRITE 1 example_bytes; BLE_GATTC_EVT_TIMEOUT 1] = true
  /\ ring_inv (rx (world_init []))
  /\ SWI2_IRQHandler
       [BLE_GATTS_EVT_WRITE 1 example_bytes; BLE_GATTC_EVT_TIMEOUT 1]
       (world_init [])
     = Fault Assertion_failed.
Proof.
  assert (H1 : existsb is_gattc_timeout
                 [BLE_GATTS_EVT_WRITE 1 example_bytes; BLE_GATTC_EVT_TIMEOUT 1]
               = true) by reflexivity.
  assert (H2 : ring_inv (rx (world_init []))) by ring_inv_by_computation.
  split; [exact H1|]. split; [exact H2|].
  exact (X8_gattc_timeout_halts _ _ H1 H2).
Defined.

(** X9. When [SWI2_IRQHandler] returns, the connection handle is that of
    the last connection pending, [BLE_CONN_HANDLE_INVALID] if a
    disconnection came after it, and the old one if neither was pending;
    and advertising was restarted once per disconnection, each time with
    the advertising handle, which no event changes. *)
Theorem X9_handler_link (pending : list ble_evt_t) (w w' : world) :
  SWI2_IRQHandler pending w = Ok (tt, w') ->
  connection w' = link_after pending (connection w)
  /\ adv_starts (sd_calls w')
     = adv_starts (sd_calls w)
       ++ replicate (disconnects pending) (advertising w).
Proof.
  intros E. split; [now apply irq_connection|].
  now apply (irq_restarts pending w tt w' E).
Qed.

(** The theorem for the four sample events. *)
Lemma X9_handler_link_witness :
  SWI2_IRQHandler example_events (world_init [])
  = Ok (tt, world_after example_events (world_init []))
  /\ connection (world_after example_events (world_init []))
     = link_after example_events (connection (world_init []))
  /\ adv_starts (sd_calls (world_after example_events (world_init [])))
     = adv_starts (sd_calls (world_init []))
       ++ replicate (disconnects example_events)
            (advertising (world_init [])).
Proof.
  assert (H : SWI2_IRQHandler example_events (world_init [])
              = Ok (tt, world_after example_events (world_init [])))
    by (vm_compute; reflexivity).
  split; [exact H|]. exact (X9_handler_link _ _ _ H).
Defined.

(** ** Transmit flush *)

(** X10. Whatever it sends, [ble_flush_tx] leaves the receive ring, the
    connection and advertising handles, the handles of the
    characteristics and [negotiated_mtu] as it found them. *)
Theorem X10_flush_frame (w w' : world) :
  ble_flush_tx w = Ok (tt, w') ->
  rx w' = rx w
  /\ connection w' = connection w
  /\ advertising w' = advertising w
  /\ rx_value_handle w' = rx_value_handle w
  /\ tx_value_handle w' = tx_value_handle w
  /\ negotiated_mtu w' = negotiated_mtu w.
Proof.
  intros E. apply ble_flush_tx_frame in E as (r & calls & replies & ->).
  repeat split.
Qed.

(** The theorem for an MTU of 6 and 17 bytes waiting. *)
Lemma X10_flush_frame_witness :
  ble_flush_tx world_17 = Ok (tt, world_after_flush world_17)
  /\ rx (world_after_flush world_17) = rx world_17
  /\ connection (world_after_flush world_17) = connection world_17
  /\ advertising (world_after_flush world_17) = advertising world_17
  /\ rx_value_handle (world_after_flush world_17) = rx_value_handle world_17
  /\ tx_value_handle (world_after_flush world_17) = tx_value_handle world_17
  /\ negotiated_mtu (world_after_flush world_17) = negotiated_mtu world_17.
Proof.
  assert (H : ble_flush_tx world_17 = Ok (tt, world_after_flush world_17))
    by (vm_compute; reflexivity).
  split; [exact H|]. exact (X10_flush_frame _ _ H).
Defined.

(** X11. The outcome of [ble_flush_tx] by the answer of the SoftDevice.
    On a transmit ring that is not empty, with [n] answers
    [NRF_ERROR_RESOURCES] pending before an answer [err], the frame is
    handed over [n + 1] times. If [err] is [NRF_SUCCESS],
    [NRF_ERROR_INVALID_STATE] or [BLE_ERROR_INVALID_CONN_HANDLE] the call
    returns with the frame removed from the ring: without a connection
    the bytes are dropped, not kept. Any other [err] stops the firmware
    on an assertion. *)
Theorem X11_flush_outcome (w : world) (n : nat) (err : Z) (rest : list Z) :
  ring_inv (tx w) -> ring_empty (tx w) = false ->
  negotiated_mtu w <= MAX_MTU_LENGTH ->
  sd_replies w = replicate n NRF_ERROR_RESOURCES ++ err :: rest ->
  err <> NRF_ERROR_RESOURCES ->
  let k := frame_length (negotiated_mtu w) (contents (tx w)) in
  exists ring',
    ring_inv ring'
    /\ contents ring' = drop k (contents (tx w))
    /\ ble_flush_tx w
       = if (err =? NRF_SUCCESS) || (err =? NRF_ERROR_INVALID_STATE)
            || (err =? BLE_ERROR_INVALID_CONN_HANDLE)
         then Ok (tt, set_softdevice
                        (sd_calls w
                         ++ replicate (S n)
                              (Sd_ble_gatts_hvx (connection w)
                                 (tx_value_handle w)
                                 (take k (contents (tx w)))))
                        rest (set_tx ring' w))
         else Fault Assertion_failed.
Proof.
  intros Hinv Hne Hmtu Hr Herr k.
  destruct (ble_flush_tx_any w Hinv Hne Hmtu) as (r & Hinv' & Hc & ->).
  exists r. split; [exact Hinv'|]. split; [exact Hc|].
  rewrite Hr, (hvx_retry_busy _ n _ err rest Herr). fold k.
  unfold NRF_SUCCESS.
  destruct (err =? 0), (err =? NRF_ERROR_INVALID_STATE),
    (err =? BLE_ERROR_INVALID_CONN_HANDLE); reflexivity.
Qed.

(** The theorem for an MTU of 6 and 17 bytes waiting, the SoftDevice
    busy twice and then without a connection. *)
Lemma X11_flush_outcome_witness :
  ring_inv (tx (set_softdevice [] [19; 19; 8; 0] world_17))
  /\ ring_empty (tx (set_softdevice [] [19; 19; 8; 0] world_17)) = false
  /\ negotiated_mtu (set_softdevice [] [19; 19; 8; 0] world_17)
     <= MAX_MTU_LENGTH
  /\ sd_replies (set_softdevice [] [19; 19; 8; 0] world_17)
     = replicate 2 NRF_ERROR_RESOURCES ++ 8 :: [0]
  /\ 8 <> NRF_ERROR_RESOURCES
  /\ exists ring',
       ring_inv ring'
       /\ contents ring' = drop 6 (replicate 17 Byte.x41)
       /\ ble_flush_tx (set_softdevice [] [19; 19; 8; 0] world_17)
          = Ok (tt, set_softdevice
                      (replicate 3
                         (Sd_ble_gatts_hvx BLE_CONN_HANDLE_INVALID 0
                            (replicate 6 Byte.x41)))
                      [0] (set_tx ring' world_17)).
Proof.
  assert (H1 : ring_inv (tx (set_softdevice [] [19; 19; 8; 0] world_17)))
    by ring_inv_by_computation.
  assert (H2 : ring_empty (tx (set_softdevice [] [19; 19; 8; 0] world_17))
               = false) by (vm_compute; reflexivity).
  assert (H3 : negotiated_mtu (set_softdevice [] [19; 19; 8; 0] world_17)
               <= MAX_MTU_LENGTH) by (vm_compute; discriminate).
  assert (H4 : sd_replies (set_softdevice [] [19; 19; 8; 0] world_17)
               = replicate 2 NRF_ERROR_RESOURCES ++ 8 :: [0]) by reflexivity.
  assert (H5 : 8 <> NRF_ERROR_RESOURCES) by discriminate.
  repeat (split; [assumption|]).
  destruct (X11_flush_outcome _ 2 8 [0] H1 H2 H3 H4 H5)
    as (r & Hr & Hc & Hf).
  exists r. split; [exact Hr|]. split; [exact Hc|]. exact Hf.
Defined.

(** X12. The bound [negotiated_mtu] is the only guard of [out_buffer].
    With more than [MAX_MTU_LENGTH] bytes waiting and a [negotiated_mtu]
    above [MAX_MTU_LENGTH], the loop of [ble_flush_tx] writes past the
    end of the array: the 129th byte goes to [out_buffer[128]]. *)
Theorem X12_flush_overrun (w : world) :
  ring_inv (tx w) ->
  MAX_MTU_LENGTH < Z.of_nat (length (contents (tx w))) ->
  MAX_MTU_LENGTH < negotiated_mtu w ->
  ble_flush_tx w = Fault Out_of_bounds.
Proof. apply ble_flush_tx_overrun. Qed.

(** The theorem after an MTU request for 0 bytes, with 129 bytes
    waiting. *)
Lemma X12_flush_overrun_witness :
  ring_inv (tx world_129)
  /\ MAX_MTU_LENGTH < Z.of_nat (length (contents (tx world_129)))
  /\ MAX_MTU_LENGTH < negotiated_mtu world_129
  /\ ble_flush_tx world_129 = Fault Out_of_bounds.
Proof.
  assert (H1 : ring_inv (tx world_129)) by ring_inv_by_computation.
  assert (H2 : MAX_MTU_LENGTH < Z.of_nat (length (contents (tx world_129))))
    by (vm_compute; reflexivity).
  assert (H3 : MAX_MTU_LENGTH < negotiated_mtu world_129)
    by (vm_compute; reflexivity).
  repeat (split; [assumption|]).
  exact (X12_flush_overrun _ H1 H2 H3).
Defined.

(** ** The driver as a whole *)

(** X13. Memory safety of the driver. From the boot-time state, let the
    interrupt handler, [ble_flush_tx], [ble_rfcomm_tx] and
    [ble_rfcomm_rx] run in any order, one after the other (the handler
    also where [ble_rfcomm_rx] sleeps), on any events and data, with any
    answers of the SoftDevice. As long as no MTU request asks for less
    than 3 bytes, no array is accessed out of bounds: a run ends on a
    failed assertion or in a state whose ring indices designate cells and
    whose [negotiated_mtu] is at most [MAX_MTU_LENGTH - 3]. *)
Theorem X13_driver_memory_safe (fuel : nat) (ops : list driver_op)
    (replies : list Z) :
  forallb op_ok ops = true ->
  match run_driver fuel ops (world_init replies) with
  | Some (Ok w') => driver_inv w'
  | Some (Fault f) => f = Assertion_failed
  | None => True
  end.
Proof.
  intros Hok. apply safe_run_driver; [exact Hok|apply world_init_inv].
Qed.

(** The theorem for a connection with an MTU request, a write of five
    bytes, a flush and a read. *)
Lemma X13_driver_memory_safe_witness :
  forallb op_ok
    [Op_irq [BLE_GAP_EVT_CONNECTED 1;
             BLE_GATTS_EVT_EXCHANGE_MTU_REQUEST 1 64];
     Op_write example_bytes; Op_flush;
     Op_read [[BLE_GATTS_EVT_WRITE 1 example_bytes]]] = true
  /\ match run_driver 4
             [Op_irq [BLE_GAP_EVT_CONNECTED 1;
                      BLE_GATTS_EVT_EXCHANGE_MTU_REQUEST 1 64];
              Op_write example_bytes; Op_flush;
              Op_read [[BLE_GATTS_EVT_WRITE 1 example_bytes]]]
             (world_init []) with
     | Some (Ok w') => driver_inv w'
     | Some (Fault f) => f = Assertion_failed
     | None => True
     end.
Proof.
  assert (H : forallb op_ok
                [Op_irq [BLE_GAP_EVT_CONNECTED 1;
                         BLE_GATTS_EVT_EXCHANGE_MTU_REQUEST 1 64];
                 Op_write example_bytes; Op_flush;
                 Op_read [[BLE_GATTS_EVT_WRITE 1 example_bytes]]] = true)
    by reflexivity.
  split; [exact H|]. exact (X13_driver_memory_safe 4 _ [] H).
Defined.

(** X14. A peer can make the driver overrun [out_buffer]. After an MTU
    request for 0, 1 or 2 bytes, which leaves [negotiated_mtu] above
    65532, writing more than [MAX_MTU_LENGTH] bytes to the console and
    flushing them writes past the end of the array. *)
Theorem X14_small_mtu_request_overrun (fuel : nat) (conn_handle : Z)
    (client_rx_mtu : Z) (buf : list Byte.byte) :
  (1 <= fuel)%nat -> 0 <= client_rx_mtu < 3 ->
  MAX_MTU_LENGTH < Z.of_nat (length buf) <= RING_BUFFER_LENGTH - 1 ->
  run_driver fuel
    [Op_irq [BLE_GATTS_EVT_EXCHANGE_MTU_REQUEST conn_handle client_rx_mtu];
     Op_write buf; Op_flush]
    (world_init [])
  = Some (Fault Out_of_bounds).
Proof.
  intros Hfuel Hc Hlen.
  set (w1 := set_negotiated_mtu (uint16 (client_rx_mtu - 3))
               (set_softdevice
                  [Sd_ble_gatts_exchange_mtu_reply conn_handle MAX_MTU_LENGTH]
                  [] (world_init []))).
  assert (E1 : SWI2_IRQHandler
                 [BLE_GATTS_EVT_EXCHANGE_MTU_REQUEST conn_handle client_rx_mtu]
                 (world_init []) = Ok (tt, w1)).
  { cbn [SWI2_IRQHandler handle_ble_evt].
    assert (Hlt : (MAX_MTU_LENGTH <? client_rx_mtu) = false)
      by (apply Z.ltb_ge; unfold MAX_MTU_LENGTH; lia).
    rewrite Hlt. reflexivity. }
  assert (Hinv : ring_inv (tx w1)) by apply ring_zero_inv.
  assert (Hc0 : contents (tx w1) = []).
  { now apply (ring_empty_contents _ Hinv). }
  destruct (ble_rfcomm_tx_room fuel buf w1 Hfuel Hinv)
    as (r & E2 & Hr & Hcr).
  { rewrite Hc0. cbn [length]. lia. }
  cbn [run_driver run_driver_op]. rewrite E1. cbn [run_driver run_driver_op].
  rewrite E2. cbn [run_driver run_driver_op].
  rewrite ble_flush_tx_overrun; [reflexivity| | |]; cbn [tx set_tx].
  - exact Hr.
  - rewrite Hcr, Hc0. cbn [app]. lia.
  - cbn [negotiated_mtu set_tx w1 set_negotiated_mtu]. unfold uint16, MAX_MTU_LENGTH.
    replace (client_rx_mtu - 3) with (client_rx_mtu + 65533 + -1 * 65536)
      by lia.
    rewrite Z.mod_add by lia. rewrite Z.mod_small; lia.
Qed.

(** The theorem for a request of 0 bytes and 129 bytes written. *)
Lemma X14_small_mtu_request_overrun_witness :
  (1 <= 1)%nat /\ 0 <= 0 < 3
  /\ MAX_MTU_LENGTH < Z.of_nat (length (replicate 129 Byte.x41))
     <= RING_BUFFER_LENGTH - 1
  /\ run_driver 1
       [Op_irq [BLE_GATTS_EVT_EXCHANGE_MTU_REQUEST 1 0];
        Op_write (replicate 129 Byte.x41); Op_flush]
       (world_init [])
     = Some (Fault Out_of_bounds).
Proof.
  assert (H1 : (1 <= 1)%nat) by lia.
  assert (H2 : 0 <= 0 < 3) by lia.
  assert (H3 : MAX_MTU_LENGTH < Z.of_nat (length (replicate 129 Byte.x41))
               <= RING_BUFFER_LENGTH - 1)
    by (split; [reflexivity|vm_compute; discriminate]).
  repeat (split; [assumption|]).
  exact (X14_small_mtu_request_overrun 1 1 0 (replicate 129 Byte.x41) H1 H2 H3).
Defined.

(** ** Console writes and reads *)

(** X15. [ble_rfcomm_tx] loses no byte and keeps the order, as long as
    the SoftDevice answers with codes [ble_flush_tx] returns on. It
    returns, its inner loop passing at most once per byte; the frames
    handed to the SoftDevice, followed by what waits in the transmit ring
    afterwards, are what waited before followed by [buf]; each frame has
    between 1 and [negotiated_mtu] bytes, and nothing but the transmit
    ring and the SoftDevice changes. *)
Theorem X15_console_write_stream (fuel : nat) (buf : list Byte.byte)
    (w : world) :
  (2 <= fuel)%nat ->
  ring_inv (tx w) -> negotiated_mtu w <= MAX_MTU_LENGTH ->
  forallb hvx_tolerated (sd_replies w) = true ->
  exists ring' frames replies',
    ble_rfcomm_tx fuel buf w
    = Some (Ok (tt, set_softdevice
                      (sd_calls w
                       ++ hvx_calls (connection w) (tx_value_handle w) frames)
                      replies' (set_tx ring' w)))
    /\ ring_inv ring'
    /\ concat (map fst frames) ++ contents ring' = contents (tx w) ++ buf
    /\ frames_ok (negotiated_mtu w) frames.
Proof.
  intros Hfuel Hinv Hmtu Hok.
  destruct (ble_rfcomm_tx_spec fuel buf w Hfuel Hinv Hmtu Hok)
    as (r & frames & replies' & E & Hr & Hc & _ & Hf).
  exists r, frames, replies'. auto.
Qed.

(** The theorem for five bytes written to a full ring with an MTU of
    20. *)
Lemma X15_console_write_stream_witness :
  (2 <= 2)%nat /\ ring_inv (tx world_1068)
  /\ negotiated_mtu world_1068 <= MAX_MTU_LENGTH
  /\ forallb hvx_tolerated (sd_replies world_1068) = true
  /\ exists ring' frames replies',
       ble_rfcomm_tx 2 example_bytes world_1068
       = Some (Ok (tt, set_softdevice
                         (sd_calls world_1068
                          ++ hvx_calls (connection world_1068)
                               (tx_value_handle world_1068) frames)
                         replies' (set_tx ring' world_1068)))
       /\ ring_inv ring'
       /\ concat (map fst frames) ++ contents ring'
          = contents (tx world_1068) ++ example_bytes
       /\ frames_ok (negotiated_mtu world_1068) frames.
Proof.
  assert (H1 : (2 <= 2)%nat) by lia.
  assert (H2 : ring_inv (tx world_1068)) by ring_inv_by_computation.
  assert (H3 : negotiated_mtu world_1068 <= MAX_MTU_LENGTH)
    by (vm_compute; discriminate).
  assert (H4 : forallb hvx_tolerated (sd_replies world_1068) = true)
    by reflexivity.
  repeat (split; [assumption|]).
  exact (X15_console_write_stream 2 example_bytes world_1068 H1 H2 H3 H4).
Defined.

(** X16. With room in the transmit ring for all of [buf],
    [ble_rfcomm_tx] only queues: the bytes are appended to the ring, the
    SoftDevice is not called, and nothing is sent before a later
    [ble_flush_tx]. *)
Theorem X16_console_write_queues (fuel : nat) (buf : list Byte.byte)
    (w : world) :
  (1 <= fuel)%nat -> ring_inv (tx w) ->
  Z.of_nat (length (contents (tx w))) + Z.of_nat (length buf)
    <= RING_BUFFER_LENGTH - 1 ->
  exists ring',
    ble_rfcomm_tx fuel buf w = Some (Ok (tt, set_tx ring' w))
    /\ ring_inv ring'
    /\ contents ring' = contents (tx w) ++ buf.
Proof. apply ble_rfcomm_tx_room. Qed.

(** The theorem for five bytes in the boot-time world. *)
Lemma X16_console_write_queues_witness :
  (1 <= 1)%nat /\ ring_inv (tx (world_init []))
  /\ Z.of_nat (length (contents (tx (world_init []))))
     + Z.of_nat (length example_bytes) <= RING_BUFFER_LENGTH - 1
  /\ exists ring',
       ble_rfcomm_tx 1 example_bytes (world_init [])
       = Some (Ok (tt, set_tx ring' (world_init [])))
       /\ ring_inv ring'
       /\ contents ring' = contents (tx (world_init [])) ++ example_bytes.
Proof.
  assert (H1 : (1 <= 1)%nat) by lia.
  assert (H2 : ring_inv (tx (world_init []))) by ring_inv_by_computation.
  assert (H3 : Z.of_nat (length (contents (tx (world_init []))))
               + Z.of_nat (length example_bytes) <= RING_BUFFER_LENGTH - 1)
    by (vm_compute; discriminate).
  repeat (split; [assumption|]).
  exact (X16_console_write_queues 1 example_bytes (world_init []) H1 H2 H3).
Defined.

(** X17. With a byte waiting in the receive ring, [ble_rfcomm_rx]
    returns the oldest one at once, as a number from 0 to 255: it does
    not flush the transmit ring, does not sleep, and changes nothing but
    the receive ring, which keeps the bytes that follow. *)
Theorem X17_console_read_ready (fuel : nat) (wakeups : list (list ble_evt_t))
    (w : world) (b : Byte.byte) (rest : list Byte.byte) :
  (1 <= fuel)%nat -> ring_inv (rx w) -> contents (rx w) = b :: rest ->
  exists ring',
    ble_rfcomm_rx fuel wakeups w
    = Some (Ok (Z.of_N (Byte.to_N b), wakeups, set_rx ring' w))
    /\ 0 <= Z.of_N (Byte.to_N b) <= 255
    /\ ring_inv ring' /\ contents ring' = rest.
Proof.
  intros Hfuel Hinv Hc.
  destruct (ble_rfcomm_rx_ready fuel wakeups w b rest Hfuel Hinv Hc)
    as (r & E & Hr & Hcr).
  exists r. split; [exact E|]. split; [|auto].
  pose proof (Byte.to_N_bounded b). lia.
Qed.

(** The theorem for a receive ring holding five bytes. *)
Lemma X17_console_read_ready_witness :
  (1 <= 1)%nat
  /\ ring_inv (rx (set_rx (ring_of example_bytes) world_17))
  /\ contents (rx (set_rx (ring_of example_bytes) world_17))
     = Byte.x68 :: [Byte.x65; Byte.x6c; Byte.x6c; Byte.x6f]
  /\ exists ring',
       ble_rfcomm_rx 1 [] (set_rx (ring_of example_bytes) world_17)
       = Some (Ok (Z.of_N (Byte.to_N Byte.x68), [],
                   set_rx ring' (set_rx (ring_of example_bytes) world_17)))
       /\ 0 <= Z.of_N (Byte.to_N Byte.x68) <= 255
       /\ ring_inv ring'
       /\ contents ring' = [Byte.x65; Byte.x6c; Byte.x6c; Byte.x6f].
Proof.
  assert (H1 : (1 <= 1)%nat) by lia.
  assert (H2 : ring_inv (rx (set_rx (ring_of example_bytes) world_17)))
    by ring_inv_by_computation.
  assert (H3 : contents (rx (set_rx (ring_of example_bytes) world_17))
               = Byte.x68 :: [Byte.x65; Byte.x6c; Byte.x6c; Byte.x6f])
    by (vm_compute; reflexivity).
  repeat (split; [assumption|]).
  exact (X17_console_read_ready 1 [] _ _ _ H1 H2 H3).
Defined.

(** X18. [ble_rfcomm_rx] on an empty receive ring returns no byte that
    the peer did not write: if none of the interrupts that wake it brings
    a characteristic write with data, it does not return, however many
    turns its loop takes. *)
Theorem X18_console_read_starved (fuel : nat)
    (wakeups : list (list ble_evt_t)) (w : world) :
  ring_empty (rx w) = true ->
  forallb (forallb (fun e => negb (is_write_of_data e))) wakeups = true ->
  forall z ws w', ble_rfcomm_rx fuel wakeups w <> Some (Ok (z, ws, w')).
Proof.
  intros He Hq z ws w'. now apply ble_rfcomm_rx_starved.
Qed.

(** The theorem for a connection and a disconnection in the boot-time
    world. *)
Lemma X18_console_read_starved_witness :
  ring_empty (rx (world_init [])) = true
  /\ forallb (forallb (fun e => negb (is_write_of_data e)))
       [[BLE_GAP_EVT_CONNECTED 1]; [BLE_GAP_EVT_DISCONNECTED 1]] = true
  /\ forall z ws w',
       ble_rfcomm_rx 5
         [[BLE_GAP_EVT_CONNECTED 1]; [BLE_GAP_EVT_DISCONNECTED 1]]
         (world_init [])
       <> Some (Ok (z, ws, w')).
Proof.
  assert (H1 : ring_empty (rx (world_init [])) = true) by reflexivity.
  assert (H2 : forallb (forallb (fun e => negb (is_write_of_data e)))
                 [[BLE_GAP_EVT_CONNECTED 1]; [BLE_GAP_EVT_DISCONNECTED 1]]
               = true) by reflexivity.
  split; [exact H1|]. split; [exact H2|].
  exact (X18_console_read_starved 5 _ (world_init []) H1 H2).
Defined.

(** X19. A read that has to wait sends first. [ble_rfcomm_rx] on an
    empty receive ring, with a SoftDevice that accepts every call, hands
    all the bytes of the transmit ring to the SoftDevice, frame by frame
    and in order, and leaves that ring empty; woken from its sleep by an
    interrupt that brings written data (and no [BLE_GATTC_EVT_TIMEOUT]),
    it returns the first byte written and keeps the following ones, up
    to 1067, in the receive ring. As many turns of its loop as bytes
    waited, and two more, are enough. *)
Theorem X19_console_read_waits (fuel : nat) (pending : list ble_evt_t)
    (rest : list (list ble_evt_t)) (w : world) (b : Byte.byte)
    (more : list Byte.byte) :
  ring_inv (rx w) -> ring_empty (rx w) = true -> ring_inv (tx w) ->
  negotiated_mtu w <= MAX_MTU_LENGTH -> sd_replies w = [] ->
  existsb is_gattc_timeout pending = false ->
  written pending = b :: more ->
  (length (contents (tx w)) + 2 <= fuel)%nat ->
  exists w' frames,
    ble_rfcomm_rx fuel (pending :: rest) w
    = Some (Ok (Z.of_N (Byte.to_N b), rest, w'))
    /\ concat frames = contents (tx w)
    /\ hvx_payloads (sd_calls w') = hvx_payloads (sd_calls w) ++ frames
    /\ contents (tx w') = []
    /\ contents (rx w') = take (Z.to_nat (RING_BUFFER_LENGTH - 2)) more.
Proof. apply ble_rfcomm_rx_wait. Qed.

(** The theorem for 17 bytes waiting with an MTU of 6, and a write of
    five bytes. *)
Lemma X19_console_read_waits_witness :
  ring_inv (rx world_17) /\ ring_empty (rx world_17) = true
  /\ ring_inv (tx world_17)
  /\ negotiated_mtu world_17 <= MAX_MTU_LENGTH
  /\ sd_replies world_17 = []
  /\ existsb is_gattc_timeout [BLE_GATTS_EVT_WRITE 1 example_bytes] = false
  /\ written [BLE_GATTS_EVT_WRITE 1 example_bytes]
     = Byte.x68 :: [Byte.x65; Byte.x6c; Byte.x6c; Byte.x6f]
  /\ (length (contents (tx world_17)) + 2 <= 19)%nat
  /\ exists w' frames,
       ble_rfcomm_rx 19 ([BLE_GATTS_EVT_WRITE 1 example_bytes] :: []) world_17
       = Some (Ok (Z.of_N (Byte.to_N Byte.x68), [], w'))
       /\ concat frames = contents (tx world_17)
       /\ hvx_payloads (sd_calls w')
          = hvx_payloads (sd_calls world_17) ++ frames
       /\ contents (tx w') = []
       /\ contents (rx w')
          = take (Z.to_nat (RING_BUFFER_LENGTH - 2))
              [Byte.x65; Byte.x6c; Byte.x6c; Byte.x6f].
Proof.
  assert (H1 : ring_inv (rx world_17)) by ring_inv_by_computation.
  assert (H2 : ring_empty (rx world_17) = true) by reflexivity.
  assert (H3 : ring_inv (tx world_17)) by ring_inv_by_computation.
  assert (H4 : negotiated_mtu world_17 <= MAX_MTU_LENGTH)
    by (vm_compute; discriminate).
  assert (H5 : sd_replies world_17 = []) by reflexivity.
  assert (H6 : existsb is_gattc_timeout [BLE_GATTS_EVT_WRITE 1 example_bytes]
               = false) by reflexivity.
  assert (H7 : written [BLE_GATTS_EVT_WRITE 1 example_bytes]
               = Byte.x68 :: [Byte.x65; Byte.x6c; Byte.x6c; Byte.x6f])
    by reflexivity.
  assert (H8 : (length (contents (tx world_17)) + 2 <= 19)%nat)
    by (vm_compute; lia).
  repeat (split; [assumption|]).
  exact (X19_console_read_waits 19 _ [] world_17 _ _ H1 H2 H3 H4 H5 H6 H7 H8).
Defined.

(** X20. [ble_rfcomm_is_rx_pending] answers the opposite of its name.
    After the interrupt handler ran on an empty receive ring, it returns
    true when no written data came in and false when some did: true
    means that nothing is pending. *)
Theorem X20_is_rx_pending_inverted (pending : list ble_evt_t) (w w' : world) :
  SWI2_IRQHandler pending w = Ok (tt, w') ->
  ring_inv (rx w) -> ring_empty (rx w) = true ->
  (ble_rfcomm_is_rx_pending w' = true <-> written pending = [])
  /\ (ble_rfcomm_is_rx_pending w' = true <-> contents (rx w') = []).
Proof.
  intros E Hinv He.
  destruct (irq_rx pending w w' E Hinv) as [Hinv' Hc].
  rewrite (proj1 (ring_empty_contents _ Hinv) He) in Hc.
  cbn [app length] in Hc. unfold ble_rfcomm_is_rx_pending.
  rewrite (ring_empty_contents _ Hinv'). split; [|reflexivity].
  rewrite Hc.
  change (Z.to_nat (RING_BUFFER_LENGTH - 1 - Z.of_nat 0)) with 1068%nat.
  destruct (written pending); cbn [take]; split; trivial; discriminate.
Qed.

(** The theorem for the four sample events, one of them a write. *)
Lemma X20_is_rx_pending_inverted_witness :
  SWI2_IRQHandler example_events (world_init [])
  = Ok (tt, world_after example_events (world_init []))
  /\ ring_inv (rx (world_init []))
  /\ ring_empty (rx (world_init [])) = true
  /\ (ble_rfcomm_is_rx_pending (world_after example_events (world_init []))
      = true <-> written example_events = [])
  /\ (ble_rfcomm_is_rx_pending (world_after example_events (world_init []))
      = true
      <-> contents (rx (world_after example_events (world_init []))) = []).
Proof.
  assert (H1 : SWI2_IRQHandler example_events (world_init [])
               = Ok (tt, world_after example_events (world_init [])))
    by (vm_compute; reflexivity).
  assert (H2 : ring_inv (rx (world_init []))) by ring_inv_by_computation.
  assert (H3 : ring_empty (rx (world_init [])) = true) by reflexivity.
  repeat (split; [assumption|]).
  exact (X20_is_rx_pending_inverted _ _ _ H1 H2 H3).
Defined.

(** ** Battery sampler *)

(** X21. The percentage reported is always a percentage. From the
    zero-initialised state, after any number of timer ticks and whatever
    the ADC driver answers and stores, [battery_timer_handler] either
    stopped on a failed assertion or left a [battery_percent] between 0
    and 100: no tick indexes the discharge curve out of bounds or
    converts a value that does not fit [uint8_t]. *)
Theorem X21_battery_percent_range (ticks : list saadc_reply) :
  match run_ticks ticks battery_zero with
  | Ok s => 0 <= battery_get_percent s <= 100
  | Fault f => f = Assertion_failed
  end.
Proof.
  pose proof (run_ticks_inv ticks battery_zero) as H.
  destruct (run_ticks ticks battery_zero) as [s|f].
  - apply H. split; cbn; lia.
  - apply H. split; cbn; lia.
Qed.

(** X22. The handler samples on one tick in 256. Starting with the
    counter at 0, the first 255 ticks change nothing but the counter and
    do not ask the ADC, whatever it would answer; the 256th asks it,
    asserts the three answers, blends the converted sample into the
    travelling mean, stores the percentage of the mean and leaves the
    counter at 0 again. *)
Theorem X22_battery_sampling_period (quiet : list saadc_reply)
    (adc : saadc_reply) (s : battery_state) :
  battery_timer_counter s = 0 -> length quiet = 255%nat ->
  (forall n, (n <= 255)%nat ->
     run_ticks (take n quiet) s
     = Ok {| battery_percent := battery_percent s;
             battery_timer_counter := Z.of_nat n;
             travelling := travelling s |})
  /\ run_ticks (quiet ++ [adc]) s
     = if (simple_mode_set adc =? NRFX_SUCCESS)
          && (buffer_set adc =? NRFX_SUCCESS)
          && (mode_trigger adc =? NRFX_SUCCESS)
       then
         let '(v_mean, travelling') :=
           battery_travelling_mean (travelling s)
             (battery_saadc_to_voltage (value adc)) in
         percent ← battery_voltage_to_percent v_mean;
         Ok {| battery_percent := percent;
               battery_timer_counter := 0;
               travelling := travelling' |}
       else Fault Assertion_failed.
Proof.
  intros Hc Hlen. split; [|now apply run_ticks_period].
  intros n Hn. rewrite run_ticks_quiet; rewrite ?length_take, Hc; try lia.
  do 2 f_equal. lia.
Qed.

(** The theorem for the first 256 ticks after boot, the ADC storing
    500. *)
Lemma X22_battery_sampling_period_witness :
  battery_timer_counter battery_zero = 0
  /\ length (replicate 255 (sample 0)) = 255%nat
  /\ (forall n, (n <= 255)%nat ->
        run_ticks (take n (replicate 255 (sample 0))) battery_zero
        = Ok {| battery_percent := battery_percent battery_zero;
                battery_timer_counter := Z.of_nat n;
                travelling := travelling battery_zero |})
  /\ run_ticks (replicate 255 (sample 0) ++ [sample 500]) battery_zero
     = if (simple_mode_set (sample 500) =? NRFX_SUCCESS)
          && (buffer_set (sample 500) =? NRFX_SUCCESS)
          && (mode_trigger (sample 500) =? NRFX_SUCCESS)
       then
         let '(v_mean, travelling') :=
           battery_travelling_mean (travelling battery_zero)
             (battery_saadc_to_voltage (value (sample 500))) in
         percent ← battery_voltage_to_percent v_mean;
         Ok {| battery_percent := percent;
               battery_timer_counter := 0;
               travelling := travelling' |}
       else Fault Assertion_failed.
Proof.
  assert (H1 : battery_timer_counter battery_zero = 0) by reflexivity.
  assert (H2 : length (replicate 255 (sample 0)) = 255%nat)
    by (vm_compute; reflexivity).
  split; [exact H1|]. split; [exact H2|].
  exact (X22_battery_sampling_period _ (sample 500) battery_zero H1 H2).
Defined.

(** X23. The first percentage shown after boot follows the ADC. Over
    the range of the 10-bit converter, the percentage the 256th tick
    stores does not decrease when the value sampled increases; it is 0
    for every value up to 427 and 100 for every value from 598. *)
Theorem X23_first_sample_monotone (quiet1 quiet2 : list saadc_reply)
    (raw1 raw2 : Z) :
  length quiet1 = 255%nat -> length quiet2 = 255%nat ->
  0 <= raw1 <= raw2 -> raw2 <= 1023 ->
  exists s1 s2,
    run_ticks (quiet1 ++ [sample raw1]) battery_zero = Ok s1
    /\ run_ticks (quiet2 ++ [sample raw2]) battery_zero = Ok s2
    /\ 0 <= battery_get_percent s1 <= battery_get_percent s2
    /\ battery_get_percent s2 <= 100
    /\ (raw2 <= 427 -> battery_get_percent s2 = 0)
    /\ (598 <= raw1 -> battery_get_percent s1 = 100).
Proof.
  intros Hl1 Hl2 H1 H2.
  destruct (first_percent_steps raw1 raw2 H1 H2)
    as (p1 & p2 & E1 & E2 & Hle & H100 & Hlo & Hhi).
  rewrite (run_ticks_first quiet1 raw1 Hl1), (run_ticks_first quiet2 raw2 Hl2).
  rewrite E1, E2. cbn [mbind result_bind].
  eexists _, _. split; [reflexivity|]. split; [reflexivity|].
  cbn [battery_get_percent battery_percent]. auto.
Qed.

(** The theorem for the values 450 and 500. *)
Lemma X23_first_sample_monotone_witness :
  length (replicate 255 (sample 0)) = 255%nat
  /\ 0 <= 450 <= 500 /\ 500 <= 1023
  /\ exists s1 s2,
       run_ticks (replicate 255 (sample 0) ++ [sample 450]) battery_zero
       = Ok s1
       /\ run_ticks (replicate 255 (sample 0) ++ [sample 500]) battery_zero
          = Ok s2
       /\ 0 <= battery_get_percent s1 <= battery_get_percent s2
       /\ battery_get_percent s2 <= 100
       /\ (500 <= 427 -> battery_get_percent s2 = 0)
       /\ (598 <= 450 -> battery_get_percent s1 = 100).
Proof.
  assert (H1 : length (replicate 255 (sample 0)) = 255%nat)
    by (vm_compute; reflexivity).
  assert (H2 : 0 <= 450 <= 500) by lia.
  assert (H3 : 500 <= 1023) by lia.
  repeat (split; [assumption|]).
  exact (X23_first_sample_monotone _ _ 450 500 H1 H1 H2 H3).
Defined.

(** X24. [battery_saadc_to_voltage] computes the formula of its comment,
    [RESULT / 2^RESOLUTION * REFERENCE / GAIN], which is
    [RESULT * 81 / 12800] volts, 6.328125 mV per step: over the range of
    the 10-bit converter the binary32 result is within one part in
    [2^22] of that value. *)
Theorem X24_saadc_to_voltage_accuracy (raw : Z) :
  0 <= raw <= 1023 ->
  (inject_Z raw * (81 # 12800) * (1 - 1 / inject_Z (2 ^ 22))
   <= to_Q (battery_saadc_to_voltage raw)
   <= inject_Z raw * (81 # 12800) * (1 + 1 / inject_Z (2 ^ 22)))%Q.
Proof.
  intros Hr. destruct (voltage_accuracy raw Hr) as [Hlo Hhi].
  assert (E1 : (1 - 1 / inject_Z (2 ^ 22) == 4194303 # 4194304)%Q)
    by reflexivity.
  assert (E2 : (1 + 1 / inject_Z (2 ^ 22) == 4194305 # 4194304)%Q)
    by reflexivity.
  rewrite E1, E2. split; assumption.
Qed.

(** The theorem for the value 600, which converts to a little under
    3.8 V. *)
Lemma X24_saadc_to_voltage_accuracy_witness :
  0 <= 600 <= 1023
  /\ (inject_Z 600 * (81 # 12800) * (1 - 1 / inject_Z (2 ^ 22))
      <= to_Q (battery_saadc_to_voltage 600)
      <= inject_Z 600 * (81 # 12800) * (1 + 1 / inject_Z (2 ^ 22)))%Q.
Proof.
  assert (H : 0 <= 600 <= 1023) by lia.
  split; [exact H|]. exact (X24_saadc_to_voltage_accuracy 600 H).
Defined.

(** ** Advertising payload *)

Import Advertising AdvertisingFacts.

(** X25. The advertising payload [ble_add_service_tx_rx] builds. With a
    device name of [n] characters and a UUID the SoftDevice encodes in
    [l] bytes, [n + l + 7 <= 31], and every asserted call accepted, [adv]
    holds three well-formed advertising structures, each a length, a
    type and its data, in the order name, flags, service UUID: the zero
    that ends the name is overwritten by the flags structure,
    [adv.length] is [n + l + 7] and the cells after it are still zero.
    The answer of [sd_ble_gatts_service_add] plays no part: an error
    there goes unnoticed. *)
Theorem X25_advertising_payload (name encoded : list Z) (err : Z) :
  Z.of_nat (length name) + Z.of_nat (length encoded) + 7 <= 31 ->
  exists adv,
    ble_add_service_tx_rx name (setup_ok err encoded) adv_zero = Ok adv
    /\ adv_length adv
       = Z.of_nat (length name) + Z.of_nat (length encoded) + 7
    /\ adv_payload adv
       = ad_structure BLE_GAP_AD_TYPE_COMPLETE_LOCAL_NAME name
         ++ ad_structure BLE_GAP_AD_TYPE_FLAGS
              [BLE_GAP_ADV_FLAGS_LE_ONLY_GENERAL_DISC_MODE]
         ++ ad_structure BLE_GAP_AD_TYPE_128BIT_SERVICE_UUID_COMPLETE encoded
         ++ replicate (24 - length name - length encoded) 0
    /\ length (adv_payload adv) = 31%nat.
Proof.
  intros Hfit. rewrite (add_service_layout name err encoded Hfit).
  eexists. split; [reflexivity|]. unfold adv_with, ad_structure.
  cbn [adv_length adv_payload].
  split; [rewrite !length_app; cbn [length]; lia|].
  split; [now rewrite <- !app_assoc, app_nil_r|].
  rewrite !length_app, length_replicate. cbn [length]. lia.
Qed.

(** The theorem for the name [Monocle] and the 16 bytes of the Nordic
    UART service UUID, with an error from [sd_ble_gatts_service_add]. *)
Lemma X25_advertising_payload_witness :
  Z.of_nat (length example_name) + Z.of_nat (length example_uuid) + 7 <= 31
  /\ exists adv,
       ble_add_service_tx_rx example_name (setup_ok 5 example_uuid) adv_zero
       = Ok adv
       /\ adv_length adv
          = Z.of_nat (length example_name)
            + Z.of_nat (length example_uuid) + 7
       /\ adv_payload adv
          = ad_structure BLE_GAP_AD_TYPE_COMPLETE_LOCAL_NAME example_name
            ++ ad_structure BLE_GAP_AD_TYPE_FLAGS
                 [BLE_GAP_ADV_FLAGS_LE_ONLY_GENERAL_DISC_MODE]
            ++ ad_structure BLE_GAP_AD_TYPE_128BIT_SERVICE_UUID_COMPLETE
                 example_uuid
            ++ replicate (24 - length example_name - length example_uuid) 0
       /\ length (adv_payload adv) = 31%nat.
Proof.
  assert (H : Z.of_nat (length example_name)
              + Z.of_nat (length example_uuid) + 7 <= 31)
    by (vm_compute; discriminate).
  split; [exact H|].
  exact (X25_advertising_payload example_name example_uuid 5 H).
Defined.

(** X26. Nothing checks that the payload fits. With [n + l + 7 > 31],
    so with a 128-bit UUID as soon as the device name has more than 8
    characters, [ble_add_service_tx_rx] writes past the 31 cells of
    [adv.payload], every asserted call being accepted. *)
Theorem X26_advertising_overflow (name encoded : list Z) (err : Z) :
  31 < Z.of_nat (length name) + Z.of_nat (length encoded) + 7 ->
  ble_add_service_tx_rx name (setup_ok err encoded) adv_zero
  = Fault Out_of_bounds.
Proof. apply add_service_overflow. Qed.

(** The theorem for a name of nine characters. *)
Lemma X26_advertising_overflow_witness :
  31 < Z.of_nat (length (example_name ++ [45; 50]))
       + Z.of_nat (length example_uuid) + 7
  /\ ble_add_service_tx_rx (example_name ++ [45; 50])
       (setup_ok 0 example_uuid) adv_zero
     = Fault Out_of_bounds.
Proof.
  assert (H : 31 < Z.of_nat (length (example_name ++ [45; 50]))
                   + Z.of_nat (length example_uuid) + 7)
    by (vm_compute; reflexivity).
  split; [exact H|].
  exact (X26_advertising_overflow (example_name ++ [45; 50]) example_uuid 0 H).
Defined.
